(** * Text-to-dataset service: the response extractor and the request handlers

    A shallow embedding of [convert.py] and [druid_service.py].

    - [Py]            : Python strings (code-point lists), [str.find], [str.rfind],
                        slicing, exceptions and outcomes;
    - [Json]          : JSON values and the behaviour of [json.loads] / [json.dumps]
                        of the standard library, which the repository calls;
    - [Starlette]     : how a [JSONResponse] renders its content to bytes;
    - [Syntax]        : concrete syntax of JSON texts, the reference against which
                        the decoder is verified;
    - [Effects]       : the inference call and [print] as events of a small
                        free monad;
    - [DruidService]  : [druid_service.py];
    - [Convert]       : [convert.py];
    - [Service]       : the three endpoints by task, and the notions the
                        statements about them use.

    The decoder is shown to accept exactly the texts of the grammar that are
    within the limits of the interpreter and to return the value each denotes
    ([loads_complete], [loads_sound]), and to read back what the encoder
    writes ([loads_dumps]); the statements about the extractor and the
    handlers follow.

    Two limits of the interpreter are part of the model, as fields of
    [Py.interpreter]: the recursion limit, where [json.loads] decodes the
    reply of the provider (RecursionError) and where a response renders its
    content, and the limit on the digits of an integer
    ([sys.set_int_max_str_digits], ValueError).  A response is built by
    rendering its content as Starlette does, which fails on NaN, on an
    infinite or overflowing float, on a lone surrogate and beyond the two
    limits.  [json.dumps] of the request payload in the prompts is taken to
    succeed: the payload is a value [request.json()] has decoded under the
    same limits.  Memory and binary floating point rounding are outside the
    model: a float is kept as the decimal literal handed to [float], and
    only whether it overflows is decided. *)

From Stdlib Require Import String Ascii.
From Stdlib Require Import List ZArith NArith Bool Lia.
From Stdlib Require DecimalPos DecimalFacts.
Import ListNotations.

Set Implicit Arguments.
Set Warnings "-register-all".

(* ================================================================== *)
(** * Python strings, exceptions, outcomes *)
(* ================================================================== *)

Module Py.

(** A [str] is a sequence of Unicode code points. *)
Definition char := N.
Definition text := list char.

Definition DQUOTE : char := 34%N.
Definition BACKSLASH : char := 92%N.
Definition LBRACE : char := 123%N.
Definition RBRACE : char := 125%N.
Definition LBRACKET : char := 91%N.
Definition RBRACKET : char := 93%N.
Definition COMMA : char := 44%N.
Definition COLON : char := 58%N.
Definition MINUS : char := 45%N.
Definition PLUS : char := 43%N.
Definition DOT : char := 46%N.

(** A literal of the source.  The tilde stands for the double quote, which
    none of the literals of the two files contains otherwise. *)
Definition lit (s : string) : text :=
  map (fun a => let c := N_of_ascii a in if N.eqb c 126 then DQUOTE else c)
      (list_ascii_of_string s).

Definition text_eqb (a b : text) : bool :=
  if list_eq_dec N.eq_dec a b then true else false.

(** [s.find(c)] for a one-character needle: the lowest index, or -1. *)
Fixpoint str_find (s : text) (c : char) : Z :=
  match s with
  | [] => (-1)%Z
  | x :: r =>
      if N.eqb x c then 0%Z
      else let i := str_find r c in
           if Z.eqb i (-1) then (-1)%Z else (i + 1)%Z
  end.

(** [s.rfind(c)] for a one-character needle: the highest index, or -1. *)
Fixpoint str_rfind (s : text) (c : char) : Z :=
  match s with
  | [] => (-1)%Z
  | x :: r =>
      let i := str_rfind r c in
      if Z.eqb i (-1) then (if N.eqb x c then 0%Z else (-1)%Z) else (i + 1)%Z
  end.

(** One bound of a slice: negative indices count from the end, and the result
    is clamped to [0, len]. *)
Definition slice_index (len i : Z) : Z :=
  if Z.ltb i 0 then Z.max (i + len) 0 else Z.min i len.

(** [s[a:b]]. *)
Definition slice (s : text) (a b : Z) : text :=
  let len := Z.of_nat (length s) in
  let a' := slice_index len a in
  let b' := slice_index len b in
  if Z.ltb a' b'
  then firstn (Z.to_nat (b' - a')) (skipn (Z.to_nat a') s)
  else [].

(** Exceptions, by what the [except] clauses of the source tell apart. *)
Inductive exn : Type :=
| JSONDecodeError (msg : text)     (* json.JSONDecodeError, a ValueError *)
| UnicodeEncodeError (msg : text)  (* a ValueError *)
| ValueError (msg : text)          (* a ValueError of neither class above *)
| RecursionError (msg : text)
| OtherException (msg : text)      (* any other instance of Exception *)
| NonException (msg : text).       (* BaseException outside Exception *)

Definition isinstance_JSONDecodeError (e : exn) : bool :=
  match e with JSONDecodeError _ => true | _ => false end.

Definition isinstance_Exception (e : exn) : bool :=
  match e with NonException _ => false | _ => true end.

(** [str(e)] *)
Definition str_of_exn (e : exn) : text :=
  match e with
  | JSONDecodeError m => m
  | UnicodeEncodeError m => m
  | ValueError m => m
  | RecursionError m => m
  | OtherException m => m
  | NonException m => m
  end.

(** The outcome of evaluating a call: a value, or a raised exception. *)
Inductive outcome (A : Type) : Type :=
| Returns (a : A)
| Raises (e : exn).
Arguments Raises {A} e.

Definition bind {A B} (m : outcome A) (k : A -> outcome B) : outcome B :=
  match m with
  | Returns a => k a
  | Raises e => Raises e
  end.

(** What the code meets of the limits of the interpreter that runs it.
    The C scanner and the C encoder of [json] enter one level of recursion
    for each container, an empty one too, and raise [RecursionError] at
    the recursion limit; how many levels are left depends on the depth of
    the call stack, so it is a parameter.  The outermost container is
    taken to be entered always: a handler that has no level left cannot
    call into [json] at all. *)
Record interpreter : Type := Interpreter {
  (** the containers [json.loads] can enter inside the outermost one *)
  decode_room : nat;
  (** [sys.get_int_max_str_digits()]: 4300 unless reconfigured, 0 for no
      limit, never between 1 and 639 *)
  int_max_str_digits : nat;
  (** the containers the encoder of a response can enter inside the
      outermost one *)
  encode_room : nat
}.

End Py.

Import Py.

Declare Scope py_scope.
Delimit Scope py_scope with py.
Notation "x <- m ;; k" := (Py.bind m (fun x => k))
  (at level 61, m at next level, right associativity) : py_scope.
Notation "' p <- m ;; k" := (Py.bind m (fun p => k))
  (at level 61, p pattern, m at next level, right associativity) : py_scope.

(* ================================================================== *)
(** * JSON values and the standard library's codec *)
(* ================================================================== *)

Module Json.

Local Open Scope N_scope.
Local Open Scope py_scope.

(** What [float] was applied to, or one of the three constants. *)
Inductive pyfloat : Type :=
| FLit (literal : text)
| FNaN
| FInf
| FNegInf.

(** The values [json.loads] builds.  A [dict] keeps its insertion order and
    has no two entries with the same key. *)
Inductive value : Type :=
| JNull
| JBool (b : bool)
| JInt (z : Z)
| JFloat (f : pyfloat)
| JStr (s : text)
| JArr (items : list value)
| JObj (entries : list (text * value)).

Definition is_dict (v : value) : bool :=
  match v with JObj _ => true | _ => false end.

(** [d[k] = v] *)
Fixpoint dict_set (d : list (text * value)) (k : text) (v : value)
  : list (text * value) :=
  match d with
  | [] => [(k, v)]
  | (k', v') :: r =>
      if text_eqb k' k then (k', v) :: r else (k', v') :: dict_set r k v
  end.

(** [dict(pairs)] *)
Definition dict (pairs : list (text * value)) : list (text * value) :=
  fold_left (fun d kv => dict_set d (fst kv) (snd kv)) pairs [].

(** ** Decimal numerals *)

Fixpoint uint_text (d : Decimal.uint) : text :=
  match d with
  | Decimal.Nil => []
  | Decimal.D0 r => 48 :: uint_text r
  | Decimal.D1 r => 49 :: uint_text r
  | Decimal.D2 r => 50 :: uint_text r
  | Decimal.D3 r => 51 :: uint_text r
  | Decimal.D4 r => 52 :: uint_text r
  | Decimal.D5 r => 53 :: uint_text r
  | Decimal.D6 r => 54 :: uint_text r
  | Decimal.D7 r => 55 :: uint_text r
  | Decimal.D8 r => 56 :: uint_text r
  | Decimal.D9 r => 57 :: uint_text r
  end.

(** [int.__repr__] *)
Definition int_repr (z : Z) : text :=
  match z with
  | Z0 => [48]
  | Zpos p => uint_text (Pos.to_uint p)
  | Zneg p => MINUS :: uint_text (Pos.to_uint p)
  end.

(** ** Decoder *)

Definition is_ws (c : char) : bool :=
  (c =? 32) || (c =? 9) || (c =? 10) || (c =? 13).

Definition is_digit (c : char) : bool := (48 <=? c) && (c <=? 57).

(** [WHITESPACE.match(s, end).end()] *)
Fixpoint skip_ws (s : text) : text :=
  match s with
  | c :: r => if is_ws c then skip_ws r else s
  | [] => []
  end.

Fixpoint strip_prefix (p s : text) : option text :=
  match p, s with
  | [], _ => Some s
  | a :: p', b :: s' => if a =? b then strip_prefix p' s' else None
  | _ :: _, [] => None
  end.

Definition hex_val (c : char) : option N :=
  if (48 <=? c) && (c <=? 57) then Some (c - 48)
  else if (97 <=? c) && (c <=? 102) then Some (c - 87)
  else if (65 <=? c) && (c <=? 70) then Some (c - 55)
  else None.

(** [_decode_uXXXX]: the value of four hexadecimal digits. *)
Definition hex4 (a b c d : char) : option N :=
  match hex_val a, hex_val b, hex_val c, hex_val d with
  | Some x, Some y, Some z, Some w => Some (((x * 16 + y) * 16 + z) * 16 + w)
  | _, _, _, _ => None
  end.

Definition is_high_surrogate (u : N) : bool := (55296 <=? u) && (u <=? 56319).
Definition is_low_surrogate (u : N) : bool := (56320 <=? u) && (u <=? 57343).

Definition join_surrogates (hi lo : N) : N :=
  65536 + N.lor (N.shiftl (hi - 55296) 10) (lo - 56320).

(** The table [BACKSLASH] of the decoder. *)
Definition unescape (c : char) : option char :=
  if c =? 34 then Some 34
  else if c =? 92 then Some 92
  else if c =? 47 then Some 47
  else if c =? 98 then Some 8
  else if c =? 102 then Some 12
  else if c =? 110 then Some 10
  else if c =? 114 then Some 13
  else if c =? 116 then Some 9
  else None.

Local Abbreviation err msg := (Raises (JSONDecodeError (lit msg))).

(** [scanstring(s, end, strict=True)], started after the opening quote;
    the result is the decoded string and what follows the closing quote. *)
Fixpoint scanstring (s : text) : outcome (text * text) :=
  match s with
  | [] => err "Unterminated string starting at"
  | c :: r =>
      if c =? DQUOTE then Returns ([], r)
      else if c =? BACKSLASH then
        match r with
        | [] => err "Unterminated string starting at"
        | esc :: r1 =>
            if esc =? 117 then
              match r1 with
              | h1 :: h2 :: h3 :: h4 :: r2 =>
                  match hex4 h1 h2 h3 h4 with
                  | None => err "Invalid \uXXXX escape"
                  | Some uni =>
                      let single :=
                        '(str, rest) <- scanstring r2 ;; Returns (uni :: str, rest) in
                      if is_high_surrogate uni then
                        match r2 with
                        | b :: u :: r3 =>
                            if (b =? BACKSLASH) && (u =? 117) then
                              match r3 with
                              | g1 :: g2 :: g3 :: g4 :: r4 =>
                                  match hex4 g1 g2 g3 g4 with
                                  | None => err "Invalid \uXXXX escape"
                                  | Some uni2 =>
                                      if is_low_surrogate uni2 then
                                        '(str, rest) <- scanstring r4 ;;
                                        Returns (join_surrogates uni uni2 :: str, rest)
                                      else single
                                  end
                              | _ => err "Invalid \uXXXX escape"
                              end
                            else single
                        | _ => single
                        end
                      else single
                  end
              | _ => err "Invalid \uXXXX escape"
              end
            else
              match unescape esc with
              | None => err "Invalid \escape"
              | Some ch =>
                  '(str, rest) <- scanstring r1 ;; Returns (ch :: str, rest)
              end
        end
      else if c <? 32 then err "Invalid control character at"
      else '(str, rest) <- scanstring r ;; Returns (c :: str, rest)
  end.

(** The longest prefix of decimal digits, and the rest. *)
Fixpoint span_digits (s : text) : text * text :=
  match s with
  | c :: r =>
      if is_digit c then let (ds, r') := span_digits r in (c :: ds, r')
      else ([], s)
  | [] => ([], [])
  end.

(** The groups of a match of [NUMBER_RE]. *)
Record number_match : Type := NumberMatch {
  nm_integer : text;
  nm_frac : option text;
  nm_exp : option text;
  nm_rest : text
}.

(** The optional fraction: a dot and one digit or more. *)
Definition match_frac (s : text) : option text * text :=
  match s with
  | c :: r =>
      if c =? DOT then
        match span_digits r with
        | ([], _) => (None, s)
        | (ds, r') => (Some (c :: ds), r')
        end
      else (None, s)
  | [] => (None, s)
  end.

(** The optional exponent: e or E, an optional sign, one digit or more. *)
Definition match_exp (s : text) : option text * text :=
  match s with
  | c :: r =>
      if (c =? 101) || (c =? 69) then
        let (sign, r0) :=
          match r with
          | g :: r' => if (g =? PLUS) || (g =? MINUS) then ([g], r') else ([], r)
          | [] => ([], r)
          end in
        match span_digits r0 with
        | ([], _) => (None, s)
        | (ds, r') => (Some (c :: sign ++ ds), r')
        end
      else (None, s)
  | [] => (None, s)
  end.

(** [NUMBER_RE.match(s, idx)]: an optional minus sign, then a zero or a
    non-zero digit with any digits after it; then the optional fraction and
    the optional exponent. *)
Definition match_number (s : text) : option number_match :=
  let (sign, s1) :=
    match s with
    | c :: r => if c =? MINUS then ([c], r) else ([], s)
    | [] => ([], s)
    end in
  let finish (integer r : text) :=
    let (frac, r1) := match_frac r in
    let (exp, r2) := match_exp r1 in
    Some (NumberMatch integer frac exp r2) in
  match s1 with
  | c :: r =>
      if c =? 48 then finish (sign ++ [c]) r
      else if is_digit c then
        let (ds, r') := span_digits r in finish (sign ++ c :: ds) r'
      else None
  | [] => None
  end.

Definition digits_value (ds : text) : Z :=
  fold_left (fun acc d => (10 * acc + (Z.of_N d - 48))%Z) ds 0%Z.

(** [int(integer)] on the first group of a match. *)
Definition parse_int (integer : text) : Z :=
  match integer with
  | c :: r => if c =? MINUS then (- digits_value r)%Z else digits_value integer
  | [] => 0%Z
  end.

Definition opt_text (o : option text) : text :=
  match o with Some t => t | None => [] end.

(** The digits of the first group of a match. *)
Definition unsigned (integer : text) : text :=
  match integer with
  | c :: r => if c =? MINUS then r else integer
  | [] => []
  end.

(** Whether the conversion between [int] and [str] refuses a number of
    decimal digits: never 640 or fewer, and none when the limit is 0. *)
Definition exceeds_digit_limit (max_digits digits : nat) : bool :=
  Nat.ltb 640 digits && Nat.ltb 0 max_digits && Nat.ltb max_digits digits.

(** The error of [int(integer)] at the limit. *)
Definition int_from_str_error (max_digits digits : nat) : exn :=
  ValueError
    (lit "Exceeds the limit (" ++ int_repr (Z.of_nat max_digits)
     ++ lit " digits) for integer string conversion: value has "
     ++ int_repr (Z.of_nat digits)
     ++ lit " digits; use sys.set_int_max_str_digits() to increase the limit").

(** What is left of the literals once the number pattern has failed. *)
Definition scan_constant (s : text) : outcome (value * text) :=
  match strip_prefix (lit "NaN") s with
  | Some r => Returns (JFloat FNaN, r)
  | None =>
      match strip_prefix (lit "Infinity") s with
      | Some r => Returns (JFloat FInf, r)
      | None =>
          match strip_prefix (lit "-Infinity") s with
          | Some r => Returns (JFloat FNegInf, r)
          | None => err "Expecting value"
          end
      end
  end.

Section Decoder.

(** [sys.get_int_max_str_digits()] *)
Variable max_digits : nat.

(** The value of a match: [int] of the first group when the other two are
    missing, [float] of the three joined otherwise. *)
Definition number_value (m : number_match) : outcome value :=
  match nm_frac m, nm_exp m with
  | None, None =>
      let digits := length (unsigned (nm_integer m)) in
      if exceeds_digit_limit max_digits digits
      then Raises (int_from_str_error max_digits digits)
      else Returns (JInt (parse_int (nm_integer m)))
  | _, _ =>
      Returns (JFloat (FLit (nm_integer m ++ opt_text (nm_frac m)
                             ++ opt_text (nm_exp m))))
  end.

(** [scan_once], [JSONObject] and [JSONArray]; the two loops are
    [object_loop] (entered after the opening quote of a key) and
    [array_loop] (entered at the first character of an element).  The
    argument [depth] is the number of containers that can still be entered:
    at an opening bracket with none left the scanner raises
    [RecursionError].  The argument [fuel] bounds the number of nested
    calls of the definition. *)
Fixpoint scan_once (fuel : nat) (depth : nat) (s : text) {struct fuel}
  : outcome (value * text) :=
  match fuel with
  | O => err "Expecting value"
  | S n =>
      match s with
      | [] => err "Expecting value"
      | c :: r =>
          if c =? DQUOTE then
            '(str, rest) <- scanstring r ;; Returns (JStr str, rest)
          else if c =? LBRACE then
            match depth with
            | O =>
                Raises (RecursionError (lit "maximum recursion depth exceeded while decoding a JSON object from a unicode string"))
            | S inner =>
                match skip_ws r with
                | c1 :: r1 =>
                    if c1 =? RBRACE then Returns (JObj [], r1)
                    else if c1 =? DQUOTE then
                      '(pairs, rest) <- object_loop n inner r1 ;;
                      Returns (JObj (dict pairs), rest)
                    else err "Expecting property name enclosed in double quotes"
                | [] => err "Expecting property name enclosed in double quotes"
                end
            end
          else if c =? LBRACKET then
            match depth with
            | O =>
                Raises (RecursionError (lit "maximum recursion depth exceeded while decoding a JSON array from a unicode string"))
            | S inner =>
                match skip_ws r with
                | c1 :: r1 =>
                    if c1 =? RBRACKET then Returns (JArr [], r1)
                    else
                      '(values, rest) <- array_loop n inner (c1 :: r1) ;;
                      Returns (JArr values, rest)
                | [] => err "Expecting value"
                end
            end
          else
            match strip_prefix (lit "null") s with
            | Some rest => Returns (JNull, rest)
            | None =>
            match strip_prefix (lit "true") s with
            | Some rest => Returns (JBool true, rest)
            | None =>
            match strip_prefix (lit "false") s with
            | Some rest => Returns (JBool false, rest)
            | None =>
            match match_number s with
            | Some m => v <- number_value m ;; Returns (v, nm_rest m)
            | None => scan_constant s
            end end end end
      end
  end

with object_loop (fuel : nat) (depth : nat) (s : text) {struct fuel}
  : outcome (list (text * value) * text) :=
  match fuel with
  | O => err "Expecting value"
  | S n =>
      '(key, s1) <- scanstring s ;;
      match skip_ws s1 with
      | c :: s2 =>
          if c =? COLON then
            '(v, s3) <- scan_once n depth (skip_ws s2) ;;
            match skip_ws s3 with
            | d :: s4 =>
                if d =? RBRACE then Returns ([(key, v)], s4)
                else if d =? COMMA then
                  match skip_ws s4 with
                  | q :: s5 =>
                      if q =? DQUOTE then
                        '(pairs, rest) <- object_loop n depth s5 ;;
                        Returns ((key, v) :: pairs, rest)
                      else err "Expecting property name enclosed in double quotes"
                  | [] => err "Expecting property name enclosed in double quotes"
                  end
                else err "Expecting ',' delimiter"
            | [] => err "Expecting ',' delimiter"
            end
          else err "Expecting ':' delimiter"
      | [] => err "Expecting ':' delimiter"
      end
  end

with array_loop (fuel : nat) (depth : nat) (s : text) {struct fuel}
  : outcome (list value * text) :=
  match fuel with
  | O => err "Expecting value"
  | S n =>
      '(v, s1) <- scan_once n depth s ;;
      match skip_ws s1 with
      | d :: s2 =>
          if d =? RBRACKET then Returns ([v], s2)
          else if d =? COMMA then
            '(values, rest) <- array_loop n depth (skip_ws s2) ;;
            Returns (v :: values, rest)
          else err "Expecting ',' delimiter"
      | [] => err "Expecting ',' delimiter"
      end
  end.

End Decoder.

(** Fuel for a text: every call of the scanner and of its loops reads a
    character at least, a loop after its first round two, so twice the
    length (and one) is never used up, see [scan_fuel]. *)
Definition fuel_for (s : text) : nat := S (2 * length s).

(** [json.loads(s)] for a [str]: no byte order mark, one value between
    optional white space, nothing after it. *)
Definition loads (interp : interpreter) (s : text) : outcome value :=
  match s with
  | 65279 :: _ => err "Unexpected UTF-8 BOM (decode using utf-8-sig)"
  | _ =>
      '(obj, rest) <- scan_once (int_max_str_digits interp) (fuel_for s)
                        (S (decode_room interp)) (skip_ws s) ;;
      match skip_ws rest with
      | [] => Returns obj
      | _ :: _ => err "Extra data"
      end
  end.


(** The part of a number literal before its exponent. *)
Fixpoint span_digits_dot (s : text) : text * text :=
  match s with
  | c :: r =>
      if (c =? 101) || (c =? 69) then ([], s)
      else let (m, r') := span_digits_dot r in (c :: m, r')
  | [] => ([], [])
  end.

(** ** Encoder *)

Definition hex_digit (n : N) : char := if n <? 10 then 48 + n else 87 + n.

(** ['\\u{0:04x}'.format(n)] *)
Definition u_escape (n : N) : text :=
  [BACKSLASH; 117; hex_digit (N.land (N.shiftr n 12) 15);
   hex_digit (N.land (N.shiftr n 8) 15); hex_digit (N.land (N.shiftr n 4) 15);
   hex_digit (N.land n 15)].

(** The replacement of one character by [encode_basestring_ascii]. *)
Definition escape_char (c : char) : text :=
  if c =? 92 then [BACKSLASH; 92]
  else if c =? 34 then [BACKSLASH; 34]
  else if c =? 8 then [BACKSLASH; 98]
  else if c =? 12 then [BACKSLASH; 102]
  else if c =? 10 then [BACKSLASH; 110]
  else if c =? 13 then [BACKSLASH; 114]
  else if c =? 9 then [BACKSLASH; 116]
  else if (32 <=? c) && (c <=? 126) then [c]
  else if c <? 65536 then u_escape c
  else
    let n := c - 65536 in
    u_escape (N.lor 55296 (N.land (N.shiftr n 10) 1023))
    ++ u_escape (N.lor 56320 (N.land n 1023)).

(** [encode_basestring_ascii] *)
Definition encode_str (s : text) : text :=
  DQUOTE :: flat_map escape_char s ++ [DQUOTE].

Fixpoint join (sep : text) (l : list text) : text :=
  match l with
  | [] => []
  | [x] => x
  | x :: r => x ++ sep ++ join sep r
  end.

Section Encoder.

(** [float.__repr__] of the float a literal denotes (['Infinity'] when it
    overflows); binary rounding is not modelled. *)
Variable float_repr : text -> text.

Definition floatstr (f : pyfloat) : text :=
  match f with
  | FLit l => float_repr l
  | FNaN => lit "NaN"
  | FInf => lit "Infinity"
  | FNegInf => lit "-Infinity"
  end.

Variable indent : option nat.

(** The line break and indentation put before an item at a nesting level. *)
Definition newline_indent (level : nat) : text :=
  match indent with
  | None => []
  | Some n => 10 :: repeat 32 (n * level)
  end.

Definition item_separator : text :=
  match indent with None => lit ", " | Some _ => lit "," end.

Definition key_separator : text := lit ": ".

(** [_iterencode], joined. *)
Fixpoint iterencode (level : nat) (o : value) {struct o} : text :=
  match o with
  | JNull => lit "null"
  | JBool true => lit "true"
  | JBool false => lit "false"
  | JInt z => int_repr z
  | JFloat f => floatstr f
  | JStr s => encode_str s
  | JArr [] => lit "[]"
  | JArr items =>
      LBRACKET :: newline_indent (S level)
      ++ join (item_separator ++ newline_indent (S level))
              (map (iterencode (S level)) items)
      ++ newline_indent level ++ [RBRACKET]
  | JObj [] => lit "{}"
  | JObj entries =>
      LBRACE :: newline_indent (S level)
      ++ join (item_separator ++ newline_indent (S level))
              (map (fun kv => encode_str (fst kv) ++ key_separator
                              ++ iterencode (S level) (snd kv)) entries)
      ++ newline_indent level ++ [RBRACE]
  end.

(** [json.dumps(o, indent=indent)] *)
Definition dumps (o : value) : text := iterencode 0 o.

End Encoder.

(** [bool(o)] of a decoded value.  A float counts as zero when all digits of
    its mantissa are zero. *)
Definition truthy (o : value) : bool :=
  match o with
  | JNull => false
  | JBool b => b
  | JInt z => negb (Z.eqb z 0)
  | JFloat (FLit l) =>
      let mantissa := fst (span_digits_dot l) in
      existsb (fun c => (49 <=? c) && (c <=? 57)) mantissa
  | JFloat _ => true
  | JStr s => match s with [] => false | _ => true end
  | JArr l => match l with [] => false | _ => true end
  | JObj d => match d with [] => false | _ => true end
  end.

(** Whether [float] of a number literal is an infinity: in absolute value
    the literal is at or above 2^1024 - 2^970, from where on rounding to the
    nearest double, ties to even, overflows. *)
Definition overflow_threshold : Z := (2 ^ 1024 - 2 ^ 970)%Z.

Definition exponent_value (ex : text) : Z :=
  match ex with
  | _ :: g :: r => if g =? PLUS then digits_value r else parse_int (g :: r)
  | _ => 0%Z
  end.

Definition float_overflows (l : text) : bool :=
  let (mantissa, ex) := span_digits_dot (unsigned l) in
  let (int_part, r) := span_digits mantissa in
  let frac_part := match r with _ :: ds => ds | [] => [] end in
  let m := digits_value (int_part ++ frac_part) in
  let e := (exponent_value ex - Z.of_nat (length frac_part))%Z in
  if (0 <=? e)%Z then (overflow_threshold <=? m * 10 ^ e)%Z
  else (overflow_threshold * 10 ^ (- e) <=? m)%Z.

(** [math.isfinite(f)] *)
Definition isfinite (f : pyfloat) : bool :=
  match f with
  | FLit l => negb (float_overflows l)
  | _ => false
  end.

End Json.

(* ================================================================== *)
(** * The body of a response *)
(* ================================================================== *)

(** [JSONResponse.render] of Starlette:
    [json.dumps(content, ensure_ascii=False, allow_nan=False, indent=None,
    separators=(",", ":")).encode("utf-8")]. *)
Module Starlette.

Import Json.
Local Open Scope N_scope.
Local Open Scope py_scope.

(** The replacement of one character by [encode_basestring]. *)
Definition escape_char (c : char) : text :=
  if c =? 92 then [BACKSLASH; 92]
  else if c =? 34 then [BACKSLASH; 34]
  else if c =? 8 then [BACKSLASH; 98]
  else if c =? 12 then [BACKSLASH; 102]
  else if c =? 10 then [BACKSLASH; 110]
  else if c =? 13 then [BACKSLASH; 114]
  else if c =? 9 then [BACKSLASH; 116]
  else if c <? 32 then u_escape c
  else [c].

(** [encode_basestring] *)
Definition encode_basestring (s : text) : text :=
  DQUOTE :: flat_map escape_char s ++ [DQUOTE].

(** The error of [repr] of an [int] at the digit limit. *)
Definition int_to_str_error (max_digits : nat) : exn :=
  ValueError
    (lit "Exceeds the limit (" ++ int_repr (Z.of_nat max_digits)
     ++ lit " digits) for integer string conversion; use sys.set_int_max_str_digits() to increase the limit").

Definition out_of_range : exn :=
  ValueError (lit "Out of range float values are not JSON compliant").

Definition too_deep : exn :=
  RecursionError (lit "maximum recursion depth exceeded while encoding a JSON object").

Section Render.

Variable float_repr : text -> text.
Variable max_digits : nat.

(** The C encoder, with [allow_nan] false and no indentation: the text of
    a value, or the first error met.  The argument [room] is the number of
    containers that can still be entered. *)
Fixpoint encode (room : nat) (o : value) {struct o} : outcome text :=
  match o with
  | JNull => Returns (lit "null")
  | JBool true => Returns (lit "true")
  | JBool false => Returns (lit "false")
  | JInt z =>
      let digits := int_repr z in
      if exceeds_digit_limit max_digits (length (unsigned digits))
      then Raises (int_to_str_error max_digits)
      else Returns digits
  | JFloat f =>
      match f with
      | FLit l =>
          if float_overflows l then Raises out_of_range
          else Returns (float_repr l)
      | _ => Raises out_of_range
      end
  | JStr s => Returns (encode_basestring s)
  | JArr items =>
      match room with
      | O => Raises too_deep
      | S inner =>
          match items with
          | [] => Returns (lit "[]")
          | _ =>
              chunks <- (fix each (l : list value) : outcome (list text) :=
                           match l with
                           | [] => Returns []
                           | x :: r =>
                               a <- encode inner x ;;
                               b <- each r ;;
                               Returns (a :: b)
                           end) items ;;
              Returns (LBRACKET :: join [COMMA] chunks ++ [RBRACKET])
          end
      end
  | JObj entries =>
      match room with
      | O => Raises too_deep
      | S inner =>
          match entries with
          | [] => Returns (lit "{}")
          | _ =>
              chunks <- (fix each (l : list (text * value))
                           : outcome (list text) :=
                           match l with
                           | [] => Returns []
                           | (k, x) :: r =>
                               a <- encode inner x ;;
                               b <- each r ;;
                               Returns ((encode_basestring k ++ COLON :: a) :: b)
                           end) entries ;;
              Returns (LBRACE :: join [COMMA] chunks ++ [RBRACE])
          end
      end
  end.

End Render.

Definition is_surrogate (c : char) : bool := (55296 <=? c) && (c <=? 57343).

(** The bytes of one code point in UTF-8. *)
Definition utf8_char (c : char) : list N :=
  if c <? 128 then [c]
  else if c <? 2048 then [192 + c / 64; 128 + c mod 64]
  else if c <? 65536 then
    [224 + c / 4096; 128 + (c / 64) mod 64; 128 + c mod 64]
  else
    [240 + c / 262144; 128 + (c / 4096) mod 64; 128 + (c / 64) mod 64;
     128 + c mod 64].

(** The surrogates a text starts with. *)
Fixpoint surrogate_run (s : text) : nat :=
  match s with
  | c :: r => if is_surrogate c then S (surrogate_run r) else O
  | [] => O
  end.

(** The error of the codec at a surrogate found at [position]. *)
Definition surrogates_not_allowed (position : nat) (c : char) (run : nat)
  : exn :=
  UnicodeEncodeError
    (match run with
     | O =>
         lit "'utf-8' codec can't encode character '" ++ u_escape c
         ++ lit "' in position " ++ int_repr (Z.of_nat position)
     | S _ =>
         lit "'utf-8' codec can't encode characters in position "
         ++ int_repr (Z.of_nat position) ++ [MINUS]
         ++ int_repr (Z.of_nat (position + run))
     end ++ lit ": surrogates not allowed").

(** [s.encode("utf-8")], from [position] on. *)
Fixpoint utf8_from (position : nat) (s : text) : outcome (list N) :=
  match s with
  | [] => Returns []
  | c :: r =>
      if is_surrogate c
      then Raises (surrogates_not_allowed position c (surrogate_run r))
      else bytes <- utf8_from (S position) r ;; Returns (utf8_char c ++ bytes)
  end.

Definition encode_utf8 (s : text) : outcome (list N) := utf8_from 0 s.

(** [JSONResponse.render(content)] *)
Definition render (interp : interpreter) (float_repr : text -> text)
           (content : value) : outcome (list N) :=
  body <- encode float_repr (int_max_str_digits interp)
            (S (encode_room interp)) content ;;
  encode_utf8 body.

End Starlette.

(* ================================================================== *)
(** * Concrete syntax of JSON texts *)
(* ================================================================== *)

(** The grammar of RFC 8259 as syntax trees that keep every character of
    the text, with the three constants [NaN], [Infinity] and [-Infinity]
    of the Python decoder as an extension.  A text is rendered from a
    tree; the value a tree denotes is the one Python documents for it. *)
Module Syntax.

Import Json.
Local Open Scope N_scope.

(** White space: spaces, tabs, line feeds, carriage returns. *)
Definition blank (ws : text) : Prop := forallb is_ws ws = true.

(** One item of a string literal: a character written as it is, a
    two-character escape, or a [\uXXXX] escape. *)
Inductive sitem : Type :=
| SRaw (c : char)
| SEsc (e : char)
| SUni (h1 h2 h3 h4 : char).

Definition wf_sitem (i : sitem) : bool :=
  match i with
  | SRaw c => negb (c =? 34) && negb (c =? 92) && (32 <=? c)
  | SEsc e => match unescape e with Some _ => true | None => false end
  | SUni a b c d => match hex4 a b c d with Some _ => true | None => false end
  end.

Definition wf_items (l : list sitem) : Prop := forallb wf_sitem l = true.

Definition render_item (i : sitem) : text :=
  match i with
  | SRaw c => [c]
  | SEsc e => [BACKSLASH; e]
  | SUni a b c d => [BACKSLASH; 117; a; b; c; d]
  end.

Definition render_items (l : list sitem) : text := flat_map render_item l.

Definition unit4 (a b c d : char) : N :=
  match hex4 a b c d with Some u => u | None => 0 end.

Definition escape_value (e : char) : char :=
  match unescape e with Some c => c | None => e end.

(** The string a literal denotes: a high surrogate escape followed by a
    low surrogate escape is one character. *)
Fixpoint denote_items (l : list sitem) : text :=
  match l with
  | [] => []
  | SRaw c :: r => c :: denote_items r
  | SEsc e :: r => escape_value e :: denote_items r
  | SUni a b c d :: r =>
      let u := unit4 a b c d in
      match r with
      | SUni e f g h :: r' =>
          let u2 := unit4 e f g h in
          if is_high_surrogate u && is_low_surrogate u2
          then join_surrogates u u2 :: denote_items r'
          else u :: denote_items r
      | _ => u :: denote_items r
      end
  end.

(** A number literal: sign, integer part, fraction digits, and exponent
    (its letter, its sign if any, its digits). *)
Record number_lit : Type := NumberLit {
  num_minus : bool;
  num_int : text;
  num_frac : option text;
  num_exp : option (char * text * text)
}.

Definition nonempty (l : text) : bool :=
  match l with [] => false | _ => true end.

Definition int_ok (i : text) : bool :=
  match i with
  | [] => false
  | d :: ds =>
      if d =? 48 then negb (nonempty ds)
      else is_digit d && forallb is_digit ds
  end.

Definition frac_ok (f : option text) : bool :=
  match f with
  | None => true
  | Some ds => nonempty ds && forallb is_digit ds
  end.

Definition sign_ok (sg : text) : bool :=
  match sg with
  | [] => true
  | [c] => (c =? PLUS) || (c =? MINUS)
  | _ => false
  end.

Definition exp_ok (x : option (char * text * text)) : bool :=
  match x with
  | None => true
  | Some (e, sg, ds) =>
      ((e =? 101) || (e =? 69)) && sign_ok sg && nonempty ds
      && forallb is_digit ds
  end.

Definition wf_number (n : number_lit) : Prop :=
  int_ok (num_int n) && frac_ok (num_frac n) && exp_ok (num_exp n) = true.

Definition render_sign (n : number_lit) : text :=
  if num_minus n then [MINUS] else [].

Definition render_frac (f : option text) : text :=
  match f with Some ds => DOT :: ds | None => [] end.

Definition render_exp (x : option (char * text * text)) : text :=
  match x with Some (e, sg, ds) => e :: sg ++ ds | None => [] end.

Definition render_number (n : number_lit) : text :=
  render_sign n ++ num_int n ++ render_frac (num_frac n)
  ++ render_exp (num_exp n).

(** An integer when there is neither fraction nor exponent, a float of the
    whole literal otherwise. *)
Definition denote_number (n : number_lit) : value :=
  match num_frac n, num_exp n with
  | None, None =>
      JInt (if num_minus n then - digits_value (num_int n)
            else digits_value (num_int n))%Z
  | _, _ => JFloat (FLit (render_number n))
  end.

Inductive constant : Type := CNaN | CInfinity | CNegInfinity.

Definition render_constant (k : constant) : text :=
  match k with
  | CNaN => lit "NaN"
  | CInfinity => lit "Infinity"
  | CNegInfinity => lit "-Infinity"
  end.

Definition denote_constant (k : constant) : pyfloat :=
  match k with
  | CNaN => FNaN
  | CInfinity => FInf
  | CNegInfinity => FNegInf
  end.

(** Syntax trees.  The texts are the white space allowed at each place:
    after an opening bracket; after an element and after the comma that
    follows it; after a key, after its colon, after the member's value and
    after the comma that follows it. *)
Inductive cst : Type :=
| CNull
| CTrue
| CFalse
| CNumber (n : number_lit)
| CConst (k : constant)
| CString (items : list sitem)
| CArray (ws : text) (es : elements)
| CObject (ws : text) (ms : members)
with elements : Type :=
| ENil
| ECons (v : cst) (ws_after ws_comma : text) (rest : elements)
with members : Type :=
| MNil
| MCons (key : list sitem) (ws_key ws_colon : text) (v : cst)
        (ws_after ws_comma : text) (rest : members).

Scheme cst_mut := Induction for cst Sort Prop
  with elements_mut := Induction for elements Sort Prop
  with members_mut := Induction for members Sort Prop.
Combined Scheme cst_mutind from cst_mut, elements_mut, members_mut.

Fixpoint render (t : cst) : text :=
  match t with
  | CNull => lit "null"
  | CTrue => lit "true"
  | CFalse => lit "false"
  | CNumber n => render_number n
  | CConst k => render_constant k
  | CString items => DQUOTE :: render_items items ++ [DQUOTE]
  | CArray ws es => LBRACKET :: ws ++ render_elements es
  | CObject ws ms => LBRACE :: ws ++ render_members ms
  end
with render_elements (es : elements) : text :=
  match es with
  | ENil => [RBRACKET]
  | ECons v wa wc rest =>
      render v ++ wa
      ++ match rest with
         | ENil => [RBRACKET]
         | ECons _ _ _ _ => COMMA :: wc ++ render_elements rest
         end
  end
with render_members (ms : members) : text :=
  match ms with
  | MNil => [RBRACE]
  | MCons key wk wl v wa wc rest =>
      DQUOTE :: render_items key ++ DQUOTE :: wk ++ COLON :: wl
      ++ render v ++ wa
      ++ match rest with
         | MNil => [RBRACE]
         | MCons _ _ _ _ _ _ _ => COMMA :: wc ++ render_members rest
         end
  end.

Fixpoint denote (t : cst) : value :=
  match t with
  | CNull => JNull
  | CTrue => JBool true
  | CFalse => JBool false
  | CNumber n => denote_number n
  | CConst k => JFloat (denote_constant k)
  | CString items => JStr (denote_items items)
  | CArray _ es => JArr (denote_elements es)
  | CObject _ ms => JObj (dict (denote_members ms))
  end
with denote_elements (es : elements) : list value :=
  match es with
  | ENil => []
  | ECons v _ _ rest => denote v :: denote_elements rest
  end
with denote_members (ms : members) : list (text * value) :=
  match ms with
  | MNil => []
  | MCons key _ _ v _ _ rest =>
      (denote_items key, denote v) :: denote_members rest
  end.

(** Well-formed trees; [ext] tells whether the three constants are
    allowed.  [wf false] is the grammar of RFC 8259. *)
Fixpoint wf (ext : bool) (t : cst) : Prop :=
  match t with
  | CNull | CTrue | CFalse => True
  | CNumber n => wf_number n
  | CConst _ => ext = true
  | CString items => wf_items items
  | CArray ws es => blank ws /\ wf_elements ext es
  | CObject ws ms => blank ws /\ wf_members ext ms
  end
with wf_elements (ext : bool) (es : elements) : Prop :=
  match es with
  | ENil => True
  | ECons v wa wc rest =>
      wf ext v /\ blank wa /\ blank wc /\ wf_elements ext rest
  end
with wf_members (ext : bool) (ms : members) : Prop :=
  match ms with
  | MNil => True
  | MCons key wk wl v wa wc rest =>
      wf_items key /\ blank wk /\ blank wl /\ wf ext v /\ blank wa
      /\ blank wc /\ wf_members ext rest
  end.

Definition is_object (t : cst) : bool :=
  match t with CObject _ _ => true | _ => false end.

(** A JSON text: one value between optional white space. *)
Definition json_text (ext : bool) (s : text) : Prop :=
  exists ws1 t ws2,
    blank ws1 /\ blank ws2 /\ wf ext t /\ s = ws1 ++ render t ++ ws2.

(** Valid JSON, by RFC 8259. *)
Definition valid_json (s : text) : Prop := json_text false s.

(** What [json.loads] accepts: valid JSON and the three constants. *)
Definition python_json (s : text) : Prop := json_text true s.

(** The nesting the decoder goes through below a tree. *)
Fixpoint need (t : cst) : nat :=
  match t with
  | CArray _ es => S (need_elements es)
  | CObject _ ms => S (need_members ms)
  | _ => 1
  end
with need_elements (es : elements) : nat :=
  match es with
  | ENil => 0
  | ECons v _ _ rest => S (Nat.max (need v) (need_elements rest))
  end
with need_members (ms : members) : nat :=
  match ms with
  | MNil => 0
  | MCons _ _ _ v _ _ rest => S (Nat.max (need v) (need_members rest))
  end.

(** The nesting of containers in a tree. *)
Fixpoint depth (t : cst) : nat :=
  match t with
  | CArray _ es => S (depth_elements es)
  | CObject _ ms => S (depth_members ms)
  | _ => O
  end
with depth_elements (es : elements) : nat :=
  match es with
  | ENil => O
  | ECons v _ _ rest => Nat.max (depth v) (depth_elements rest)
  end
with depth_members (ms : members) : nat :=
  match ms with
  | MNil => O
  | MCons _ _ _ v _ _ rest => Nat.max (depth v) (depth_members rest)
  end.

(** A literal [int] converts: a float, or an integer within the limit. *)
Definition int_allowed (max_digits : nat) (n : number_lit) : bool :=
  match num_frac n, num_exp n with
  | None, None => negb (exceeds_digit_limit max_digits (length (num_int n)))
  | _, _ => true
  end.

Fixpoint ints_allowed (max_digits : nat) (t : cst) : Prop :=
  match t with
  | CNumber n => int_allowed max_digits n = true
  | CArray _ es => ints_allowed_elements max_digits es
  | CObject _ ms => ints_allowed_members max_digits ms
  | _ => True
  end
with ints_allowed_elements (max_digits : nat) (es : elements) : Prop :=
  match es with
  | ENil => True
  | ECons v _ _ rest =>
      ints_allowed max_digits v /\ ints_allowed_elements max_digits rest
  end
with ints_allowed_members (max_digits : nat) (ms : members) : Prop :=
  match ms with
  | MNil => True
  | MCons _ _ _ v _ _ rest =>
      ints_allowed max_digits v /\ ints_allowed_members max_digits rest
  end.

(** A tree the scanner reads within the limits of the interpreter: its
    containers nest no deeper than the recursion limit leaves room for, and
    its integers have no more digits than [int] converts. *)
Definition within (interp : interpreter) (t : cst) : Prop :=
  (depth t <= S (decode_room interp))%nat
  /\ ints_allowed (int_max_str_digits interp) t.

(** The nesting of containers in a value. *)
Fixpoint nesting (v : value) : nat :=
  match v with
  | JArr l => S ((fix deepest (l : list value) : nat :=
                    match l with
                    | [] => O
                    | x :: r => Nat.max (nesting x) (deepest r)
                    end) l)
  | JObj d => S ((fix deepest (d : list (text * value)) : nat :=
                    match d with
                    | [] => O
                    | (_, x) :: r => Nat.max (nesting x) (deepest r)
                    end) d)
  | _ => O
  end.

(** No integer of a value has more digits than [repr] converts. *)
Fixpoint ints_within (max_digits : nat) (v : value) : Prop :=
  match v with
  | JInt z =>
      exceeds_digit_limit max_digits (length (unsigned (int_repr z))) = false
  | JArr l => (fix all (l : list value) : Prop :=
                 match l with
                 | [] => True
                 | x :: r => ints_within max_digits x /\ all r
                 end) l
  | JObj d => (fix all (d : list (text * value)) : Prop :=
                 match d with
                 | [] => True
                 | (_, x) :: r => ints_within max_digits x /\ all r
                 end) d
  | _ => True
  end.


(** ** What [json.dumps] writes, as syntax *)

Definition uni_item (n : N) : sitem :=
  SUni (hex_digit (N.land (N.shiftr n 12) 15))
       (hex_digit (N.land (N.shiftr n 8) 15))
       (hex_digit (N.land (N.shiftr n 4) 15))
       (hex_digit (N.land n 15)).

(** The items [encode_basestring_ascii] writes for a character. *)
Definition items_of_char (c : char) : list sitem :=
  if c =? 92 then [SEsc 92]
  else if c =? 34 then [SEsc 34]
  else if c =? 8 then [SEsc 98]
  else if c =? 12 then [SEsc 102]
  else if c =? 10 then [SEsc 110]
  else if c =? 13 then [SEsc 114]
  else if c =? 9 then [SEsc 116]
  else if (32 <=? c) && (c <=? 126) then [SRaw c]
  else if c <? 65536 then [uni_item c]
  else
    let n := c - 65536 in
    [uni_item (N.lor 55296 (N.land (N.shiftr n 10) 1023));
     uni_item (N.lor 56320 (N.land n 1023))].

(** A string of code points below 0x110000 in which no high surrogate
    stands right before a low surrogate: the strings that come back from
    the encoder and the decoder unchanged. *)
Fixpoint plain_string (s : text) : bool :=
  match s with
  | [] => true
  | c :: r =>
      (c <? 1114112)
      && negb (is_high_surrogate c
               && match r with c' :: _ => is_low_surrogate c' | [] => false end)
      && plain_string r
  end.

Definition is_float_literal (n : number_lit) : bool :=
  match num_frac n, num_exp n with
  | None, None => false
  | _, _ => true
  end.

Section Serializable.

Variable float_repr : text -> text.

(** A float held as the literal its [repr] writes. *)
Definition canonical_float (l : text) : Prop :=
  float_repr l = l
  /\ exists n, wf_number n /\ is_float_literal n = true /\ render_number n = l.

(** The values of Python that [json.dumps] and [json.loads] carry back
    and forth: finite floats, plain strings, no key twice in a [dict]. *)
Fixpoint serializable (v : value) : Prop :=
  match v with
  | JFloat (FLit l) => canonical_float l
  | JFloat _ => False
  | JStr s => plain_string s = true
  | JArr l => (fix all (l : list value) : Prop :=
                 match l with
                 | [] => True
                 | x :: r => serializable x /\ all r
                 end) l
  | JObj d => NoDup (map fst d)
              /\ (fix all (d : list (text * value)) : Prop :=
                    match d with
                    | [] => True
                    | (k, x) :: r =>
                        plain_string k = true /\ serializable x /\ all r
                    end) d
  | _ => True
  end.

End Serializable.

(** Induction on values, through the lists they hold. *)
Section ValueInduction.

Variable P : value -> Prop.
Variable Q : list value -> Prop.
Variable R : list (text * value) -> Prop.
Hypothesis HNull : P JNull.
Hypothesis HBool : forall b, P (JBool b).
Hypothesis HInt : forall z, P (JInt z).
Hypothesis HFloat : forall f, P (JFloat f).
Hypothesis HStr : forall s, P (JStr s).
Hypothesis HArr : forall l, Q l -> P (JArr l).
Hypothesis HObj : forall d, R d -> P (JObj d).
Hypothesis Qnil : Q [].
Hypothesis Qcons : forall x l, P x -> Q l -> Q (x :: l).
Hypothesis Rnil : R [].
Hypothesis Rcons : forall k x d, P x -> R d -> R ((k, x) :: d).

Fixpoint value_induction (v : value) : P v :=
  match v with
  | JNull => HNull
  | JBool b => HBool b
  | JInt z => HInt z
  | JFloat f => HFloat f
  | JStr s => HStr s
  | JArr l =>
      HArr ((fix go (l : list value) : Q l :=
               match l with
               | [] => Qnil
               | x :: r => Qcons (value_induction x) (go r)
               end) l)
  | JObj d =>
      HObj ((fix go (d : list (text * value)) : R d :=
               match d with
               | [] => Rnil
               | (k, x) :: r => Rcons k (value_induction x) (go r)
               end) d)
  end.

End ValueInduction.

End Syntax.

(* ================================================================== *)
(** * The inference call and the console, as events *)
(* ================================================================== *)

Module Effects.

(** A computation that may call [client.text_generation], which answers
    with a text or raises, and may [print]. *)
Inductive io (A : Type) : Type :=
| Ret (a : A)
| TextGeneration (prompt : text) (max_new_tokens : Z) (k : outcome text -> io A)
| Print (s : text) (k : io A).
Arguments Ret {A} a.
Arguments TextGeneration {A} prompt max_new_tokens k.
Arguments Print {A} s k.

Fixpoint io_bind {A B} (m : io A) (f : A -> io B) : io B :=
  match m with
  | Ret a => f a
  | TextGeneration p n k => TextGeneration p n (fun r => io_bind (k r) f)
  | Print s k => Print s (io_bind k f)
  end.

(** Python code: events, and an outcome at the end. *)
Definition py (A : Type) : Type := io (outcome A).

Definition ret {A} (a : A) : py A := Ret (Returns a).
Definition raise {A} (e : exn) : py A := Ret (Raises e).
Definition lift {A} (o : outcome A) : py A := Ret o.

Definition bind {A B} (m : py A) (f : A -> py B) : py B :=
  io_bind m (fun r => match r with
                      | Returns a => f a
                      | Raises e => Ret (Raises e)
                      end).

(** [try: body  except C as e: handler e] *)
Definition try_except {A} (body : py A) (C : exn -> bool) (handler : exn -> py A)
  : py A :=
  io_bind body (fun r => match r with
                         | Returns a => Ret (Returns a)
                         | Raises e => if C e then handler e else Ret (Raises e)
                         end).

(** [client.text_generation(prompt, max_new_tokens=n)] *)
Definition text_generation (prompt : text) (n : Z) : py text :=
  TextGeneration prompt n (fun r => Ret r).

(** [print(s)] *)
Definition print (s : text) : py unit := Print s (Ret (Returns tt)).

(** An inference provider: its answer to each call, and what it becomes. *)
Record provider (S : Type) : Type := Provider {
  answer : S -> text -> Z -> outcome text * S
}.

(** One observable event of a run. *)
Inductive event : Type :=
| Called (prompt : text) (max_new_tokens : Z)
| Printed (s : text).

(** Running a computation against a provider: the result and the trace. *)
Fixpoint run {S A} (P : provider S) (st : S) (m : io A) : A * list event :=
  match m with
  | Ret a => (a, [])
  | TextGeneration p n k =>
      let (r, st') := answer P st p n in
      let (a, tr) := run P st' (k r) in
      (a, Called p n :: tr)
  | Print s k =>
      let (a, tr) := run P st k in
      (a, Printed s :: tr)
  end.

(** The prompts sent to the provider during a run. *)
Fixpoint prompts (tr : list event) : list text :=
  match tr with
  | [] => []
  | Called p _ :: r => p :: prompts r
  | Printed _ :: r => prompts r
  end.

End Effects.

Import Effects.

Declare Scope io_scope.
Delimit Scope io_scope with io.
Notation "x <- m ;; k" := (Effects.bind m (fun x => k))
  (at level 61, m at next level, right associativity) : io_scope.
Notation "m ;; k" := (Effects.bind m (fun _ => k))
  (at level 61, right associativity) : io_scope.

(* ================================================================== *)
(** * druid_service.py *)
(* ================================================================== *)

Module DruidService.

Import Json.
Local Open Scope Z_scope.

Section Interpreter.
Variable interp : interpreter.

(** [extract_json(text)] *)
Definition extract_json (text : Py.text) : outcome value :=
  let body : outcome (option value) :=
    let json_start := str_find text LBRACE in
    let json_end := str_rfind text RBRACE + 1 in
    if negb (json_start =? -1) && negb (json_end =? -1) then
      let json_text := slice text json_start json_end in
      Py.bind (loads interp json_text) (fun v => Returns (Some v))
    else Returns None in
  match body with
  | Returns (Some v) => Returns v
  | Returns None => Returns (JObj [])
  | Raises e =>
      if isinstance_JSONDecodeError e then Returns (JObj []) else Raises e
  end.

Section Prompt.
Variable float_repr : Py.text -> Py.text.

(** The prompt of [suggest_druid_rollups_and_ingestion_spec]. *)
Definition rollup_prompt (event_or_schema : value) : Py.text :=
  lit "
    Analyze the following JSON event schema and suggest appropriate rollups for Druid.
    Also, generate a valid Druid ingestion spec template.

    **Your tasks:**
    1. Suggest rollups for common aggregations (e.g., hourly, daily).
    2. Identify numeric fields for metrics aggregation.
    3. Identify non-numeric fields as dimensions.
    4. Detect timestamp fields and use them in the `timestampSpec`.

    **Event Schema:**
    "
  ++ Json.dumps float_repr (Some 2%nat) event_or_schema
  ++ lit "

    **Expected JSON Response:**
    {
        ~rollup_suggestions~: [~hourly_rollup~, ~daily_rollup~, ~custom_rollup~],
        ~druid_ingestion_spec~: {
            ~type~: ~index~,
            ~spec~: {
                ~dataSchema~: {
                    ~dataSource~: ~dynamic_data_source~,
                    ~timestampSpec~: {
                        ~column~: ~timestamp_field~,
                        ~format~: ~auto~
                    },
                    ~dimensionsSpec~: {
                        ~dimensions~: [~dim1~, ~dim2~]
                    },
                    ~metricsSpec~: [
                        {~type~: ~doubleSum~, ~name~: ~metric1~, ~fieldName~: ~metric1~}
                    ],
                    ~granularitySpec~: {
                        ~type~: ~uniform~,
                        ~segmentGranularity~: ~hour~,
                        ~queryGranularity~: ~none~
                    }
                },
                ~ioConfig~: {
                    ~type~: ~index~,
                    ~inputSource~: {
                        ~type~: ~inline~,
                        ~data~: ["
  ++ Json.dumps float_repr None event_or_schema
  ++ lit "]
                    },
                    ~inputFormat~: {
                        ~type~: ~json~
                    }
                },
                ~tuningConfig~: {
                    ~type~: ~index~,
                    ~maxRowsInMemory~: 100000,
                    ~maxRowsPerSegment~: 5000000
                }
            }
        }
    }
    ".

(** [suggest_druid_rollups_and_ingestion_spec(event_or_schema)] *)
Definition suggest_druid_rollups_and_ingestion_spec (event_or_schema : value)
  : py value :=
  let prompt := rollup_prompt event_or_schema in
  try_except
    (response <- text_generation prompt 500 ;;
     print response ;;
     lift (extract_json response))%io
    isinstance_Exception
    (fun e => ret (JObj [(lit "error", JStr (str_of_exn e))])).

End Prompt.

End Interpreter.

End DruidService.

(* ================================================================== *)
(** * convert.py *)
(* ================================================================== *)

Module Convert.

Import Json.
Local Open Scope Z_scope.

(** [request]: all the handlers do with it is [await request.json()]. *)
Record Request : Type := { request_json : outcome value }.

(** A response, kept by the content its body was rendered from. *)
Record JSONResponse : Type := { content : value; status_code : Z }.

Section Interpreter.
Variable interp : interpreter.

(** [extract_json(text)] *)
Definition extract_json (text : Py.text) : outcome value :=
  let body : outcome (option value) :=
    let json_start := str_find text LBRACE in
    let json_end := str_rfind text RBRACE + 1 in
    if negb (json_start =? -1) && negb (json_end =? -1) then
      let json_text := slice text json_start json_end in
      Py.bind (loads interp json_text) (fun v => Returns (Some v))
    else Returns None in
  match body with
  | Returns (Some v) => Returns v
  | Returns None => Returns (JObj [])
  | Raises e =>
      if isinstance_JSONDecodeError e then Returns (JObj []) else Raises e
  end.

(** [get_ai_response(prompt)] *)
Definition get_ai_response (prompt : Py.text) : py value :=
  try_except
    (response <- text_generation prompt 500 ;;
     lift (extract_json response))%io
    isinstance_Exception
    (fun e => ret (JObj [(lit "error", JStr (str_of_exn e))])).

Section Prompt.
Variable float_repr : Py.text -> Py.text.

(** [JSONResponse(content=content, status_code=status_code)]: the
    constructor renders the body, and raises what rendering raises. *)
Definition JSONResponse_init (content : value) (status_code : Z)
  : outcome JSONResponse :=
  Py.bind (Starlette.render interp float_repr content)
    (fun _ => Returns {| content := content; status_code := status_code |}).

(** The prompt of [identify_fields]. *)
Definition identify_fields_prompt (event_or_schema : value) : Py.text :=
  lit "
    Analyze the following JSON event and identify key fields **only if they exist**.

    **Identification Rules:** 
    - **Timestamp Fields:** Identify fields that contain date-time values.
    - **De-duplication Key:** Identify a unique identifier.
    - **PII Fields:** Identify PII fields like email, phone, or name.

    **Strict Constraints:** Omit fields if not applicable.

    **Return JSON Format:** 
    {
        ~timestamp_fields~: [~field1~, ~field2~],
        ~de_duplication_key~: ~field_name~,
        ~pii_fields~: [~field1~, ~field2~]
    }

    **Event Data:**
    "
  ++ Json.dumps float_repr (Some 2%nat) event_or_schema
  ++ lit "
    ".

(** [identify_fields(event_or_schema)] *)
Definition identify_fields (event_or_schema : value) : py value :=
  let prompt := identify_fields_prompt event_or_schema in
  get_ai_response prompt.

(** [POST /api/analyze-event/] *)
Definition analyze_event (request : Request) : py JSONResponse :=
  (request_data <- lift (request_json request) ;;
   if negb (is_dict request_data) then
     lift (JSONResponse_init
             (JObj [(lit "error", JStr (lit "Invalid JSON input"))]) 400)
   else
     analysis_result <- identify_fields request_data ;;
     lift (JSONResponse_init analysis_result 200))%io.

(** The prompt of [suggest_dataset_name]. *)
Definition dataset_name_prompt (event_or_schema : value) : Py.text :=
  lit "
    You are an expert in data modeling and domain analysis. Based on the given event schema, analyze the data to identify its domain (e.g., user activity, IoT telemetry, financial transactions, product catalog, etc.). Generate 5 unique and user-friendly dataset names that reflect the data's purpose and domain.

    **Rules:**
    - Do not concatenate all field names into long names. Instead, focus on understanding the schema and the broader context.
    - Suggest names that are concise, descriptive, and easy to remember.
    - Ensure the names are relevant to common data categories such as logs, events, metrics, profiles, transactions, etc.
    - Analyze the structure and key properties dynamically to understand what the dataset might represent (e.g., user interactions, system metrics, content usage).
    - Identify key patterns, themes, and relationships in the data **without relying on specific field names**, as the event structure may vary.
    - Focus on clarity, simplicity, and real-world relevance based on the data"
  ++ [226; 8364; 8482]%N
  ++ lit "s potential purpose.
    - Avoid mechanically concatenating all keys or unrelated terms. Instead, aim for thoughtful, human-like naming that reflec

    **Return JSON in this format:**
    {
        ~dataset_names~: [~name1~, ~name2~, ~name3~, ~name4~, ~name5~]
    }

    **Event Schema:**
    "
  ++ Json.dumps float_repr (Some 2%nat) event_or_schema
  ++ lit "
    ".

(** [POST /api/suggest-dataset-name/] *)
Definition suggest_dataset_name (request : Request) : py JSONResponse :=
  (event_or_schema <- lift (request_json request) ;;
   let prompt := dataset_name_prompt event_or_schema in
   response <- get_ai_response prompt ;;
   lift (JSONResponse_init
           (if truthy response then response
            else JObj [(lit "dataset_names",
                        JArr [JStr (lit "Default_Dataset")])])
           200))%io.

(** [POST /api/suggest-druid-rollups/] *)
Definition suggest_druid_rollups (request : Request) : py JSONResponse :=
  (event_or_schema <- lift (request_json request) ;;
   result <- DruidService.suggest_druid_rollups_and_ingestion_spec
               interp float_repr event_or_schema ;;
   lift (JSONResponse_init result 200))%io.

End Prompt.

End Interpreter.

End Convert.

(* ================================================================== *)
(** * The three endpoints *)
(* ================================================================== *)

Module Service.

Import Json Convert.

Inductive TaskKind : Type :=
| FieldIdentification    (* POST /api/analyze-event/ *)
| DatasetNaming          (* POST /api/suggest-dataset-name/ *)
| RollupSuggestion.      (* POST /api/suggest-druid-rollups/ *)

Section Routes.
Variable interp : interpreter.
Variable float_repr : Py.text -> Py.text.

(** The routes registered on [app]. *)
Definition handler (task : TaskKind) : Request -> py JSONResponse :=
  match task with
  | FieldIdentification => analyze_event interp float_repr
  | DatasetNaming => suggest_dataset_name interp float_repr
  | RollupSuggestion => suggest_druid_rollups interp float_repr
  end.

(** The prompt each task builds from the payload. *)
Definition prompt_of (task : TaskKind) (payload : value) : Py.text :=
  match task with
  | FieldIdentification => identify_fields_prompt float_repr payload
  | DatasetNaming => dataset_name_prompt float_repr payload
  | RollupSuggestion => DruidService.rollup_prompt float_repr payload
  end.

(** What a task demands of the request body. *)
Definition accepts (task : TaskKind) (payload : value) : bool :=
  match task with
  | FieldIdentification => is_dict payload
  | _ => true
  end.

End Routes.


(** The span the extractor hands to the decoder. *)
Definition span (text : Py.text) : Py.text :=
  slice text (str_find text LBRACE) (str_rfind text RBRACE + 1).





(** The fallback of the naming endpoint. *)
Definition default_names : value :=
  JObj [(lit "dataset_names", JArr [JStr (lit "Default_Dataset")])].

(** The body by which a handler reports a caught exception. *)
Definition error_body (e : exn) : value :=
  JObj [(lit "error", JStr (str_of_exn e))].


(** Providers without state: one that always answers with the same text,
    one that always fails with the same exception. *)
Definition answering (reply : Py.text) : provider unit :=
  Provider (fun st _ _ => (Returns reply, st)).

Definition failing (e : exn) : provider unit :=
  Provider (fun st _ _ => (Raises e, st)).

(** The response a handler gives to a request, against a provider. *)
Definition response_of {S A} (P : provider S) (st : S) (m : py A) : outcome A :=
  fst (run P st m).

(** The reply of the provider to the first call with a prompt. *)
Definition reply_of {S} (P : provider S) (st : S) (prompt : Py.text)
  : outcome Py.text :=
  fst (answer P st prompt 500).

End Service.

(* ================================================================== *)
(** * Properties *)
(* ================================================================== *)

Import Json Syntax Service.
Local Open Scope Z_scope.
Unset Implicit Arguments.

(** ** Notions the proofs are stated with *)

(** A string that UTF-8 encodes: it holds no surrogate. *)
Definition encodable (s : text) : bool :=
  negb (existsb Starlette.is_surrogate s).






Definition digits (s : text) : nat := length (filter is_digit s).



Definition suffix_of (a b : text) : Prop := exists p, b = p ++ a.


(** The constructor of a response accepts the content. *)
Definition renders (interp : interpreter) (float_repr : text -> text)
           (content : value) : Prop :=
  exists body, Starlette.render interp float_repr content = Returns body.

(** The default digit limit, and the room there is at the top of a script
    under the default recursion limit. *)
Definition sample_interpreter : interpreter :=
  {| decode_room := 993; int_max_str_digits := 4300; encode_room := 993 |}.

(** [n] arrays, one in the other, around an empty one. *)
Fixpoint nested_arrays (n : nat) : cst :=
  match n with
  | O => CArray [] ENil
  | S k => CArray [] (ECons (nested_arrays k) [] [] ENil)
  end.

(** The text [{"a":] and then arrays 2000 deep. *)
Definition deep_object : cst :=
  CObject [] (MCons [SRaw 97%N] [] [] (nested_arrays 1999) [] [] MNil).

(** What may follow a number literal without being taken for a part of it. *)
Definition delimited (rest : text) : Prop :=
  match rest with
  | [] => True
  | c :: _ =>
      is_digit c = false /\ (c =? DOT)%N = false
      /\ (c =? 101)%N = false /\ (c =? 69)%N = false
  end.

Definition no_digit_ahead (rest : text) : Prop :=
  match rest with [] => True | c :: _ => is_digit c = false end.

Definition no_dot_ahead (rest : text) : Prop :=
  match rest with [] => True | c :: _ => (c =? DOT)%N = false end.

Definition frac_group (f : option text) : option text :=
  match f with Some ds => Some (DOT :: ds) | None => None end.

Definition exp_group (x : option (char * text * text)) : option text :=
  match x with Some (e, sg, ds) => Some (e :: sg ++ ds) | None => None end.

(** The first character of a value. *)
Definition value_start (c : char) : bool :=
  ((c =? DQUOTE) || (c =? LBRACE) || (c =? LBRACKET) || (c =? 110)
   || (c =? 116) || (c =? 102) || (c =? MINUS) || (c =? 78) || (c =? 73)
   || is_digit c)%N.

Definition starts_value (s : text) : Prop :=
  match s with c :: _ => value_start c = true | [] => False end.

Definition string_of (s : text) (str rest : text) : Prop :=
  exists items, wf_items items /\ s = render_items items ++ DQUOTE :: rest
                /\ denote_items items = str.

Definition value_of (max_digits d : nat) (s : text) (v : value)
           (rest : text) : Prop :=
  exists t, wf true t /\ s = render t ++ rest /\ denote t = v
            /\ (depth t <= d)%nat /\ ints_allowed max_digits t.

(** How a handler answers once the provider has been called. *)
Definition after_call {A} (interp : interpreter) (reply : outcome text)
           (k : value -> outcome A) : outcome A :=
  match reply with
  | Returns response =>
      match Convert.extract_json interp response with
      | Returns v => k v
      | Raises e => if isinstance_Exception e then k (error_body e) else Raises e
      end
  | Raises e =>
      if isinstance_Exception e then k (error_body e) else Raises e
  end.


Definition sample_request : Convert.Request :=
  {| Convert.request_json := Returns (JObj [(lit "user", JStr (lit "ada"))]) |}.

Definition sample_payload : value := JObj [(lit "user", JStr (lit "ada"))].

Definition plain_repr (l : text) : text := l.

(** The value of the escape a list of items starts with, if it starts
    with one. *)
Definition first_unit (items : list sitem) : option N :=
  match items with
  | SUni a b c d :: _ => Some (unit4 a b c d)
  | _ => None
  end.

(** What [json.dumps] writes for a value, for the elements of a list and
    for the entries of a [dict], is the text of a tree that denotes them. *)
Definition tree_of (float_repr : text -> text) (indent : option nat)
           (level : nat) (v : value) : Prop :=
  serializable float_repr v ->
  exists t, wf false t /\ render t = iterencode float_repr indent level v
            /\ denote t = v /\ is_object t = is_dict v
            /\ depth t = nesting v
            /\ forall max_digits,
                 ints_within max_digits v -> ints_allowed max_digits t.

Definition elements_of (float_repr : text -> text) (indent : option nat)
           (l : list value) : Prop :=
  forall level wlast, blank wlast -> serializable float_repr (JArr l) ->
    l <> [] ->
    exists es, es <> ENil /\ wf_elements false es
               /\ render_elements es
                  = join (item_separator indent ++ newline_indent indent level)
                         (map (iterencode float_repr indent level) l)
                    ++ wlast ++ [RBRACKET]
               /\ denote_elements es = l
               /\ S (depth_elements es) = nesting (JArr l)
               /\ forall max_digits,
                    ints_within max_digits (JArr l) ->
                    ints_allowed_elements max_digits es.

Definition members_of (float_repr : text -> text) (indent : option nat)
           (d : list (text * value)) : Prop :=
  forall level wlast, blank wlast -> serializable float_repr (JObj d) ->
    d <> [] ->
    exists ms, ms <> MNil /\ wf_members false ms
               /\ render_members ms
                  = join (item_separator indent ++ newline_indent indent level)
                         (map (fun kv => encode_str (fst kv) ++ key_separator
                                         ++ iterencode float_repr indent level
                                              (snd kv)) d)
                    ++ wlast ++ [RBRACE]
               /\ denote_members ms = d
               /\ S (depth_members ms) = nesting (JObj d)
               /\ forall max_digits,
                    ints_within max_digits (JObj d) ->
                    ints_allowed_members max_digits ms.

(** ** [find], [rfind] and slices *)

Lemma str_find_notin (s : text) (c : char) :
  ~ In c s -> str_find s c = -1.
Proof.
  induction s as [|x r IH]; simpl; intros H; [reflexivity|].
  destruct (N.eqb_spec x c) as [->|Hne]; [exfalso; apply H; now left|].
  rewrite IH by (intros Hin; apply H; now right). reflexivity.
Qed.

Lemma str_find_lower (s : text) (c : char) : -1 <= str_find s c.
Proof.
  induction s as [|x r IH]; simpl; [lia|].
  destruct (N.eqb x c); [lia|].
  destruct (Z.eqb_spec (str_find r c) (-1)); lia.
Qed.

Lemma str_find_app (pre r : text) (c : char) :
  ~ In c pre -> str_find (pre ++ c :: r) c = Z.of_nat (length pre).
Proof.
  induction pre as [|x p IH]; simpl; intros H.
  - now rewrite N.eqb_refl.
  - destruct (N.eqb_spec x c) as [->|Hne]; [exfalso; apply H; now left|].
    rewrite IH by (intros Hin; apply H; now right).
    destruct (Z.eqb_spec (Z.of_nat (length p)) (-1)); lia.
Qed.

Lemma str_find_split (s : text) (c : char) :
  str_find s c <> -1 ->
  exists pre r, s = pre ++ c :: r /\ ~ In c pre
                /\ str_find s c = Z.of_nat (length pre).
Proof.
  intros H.
  assert (Hin : In c s).
  { destruct (in_dec N.eq_dec c s) as [Hi|Hn]; [exact Hi|].
    now rewrite str_find_notin in H. }
  clear H. induction s as [|x r IH]; [contradiction|].
  destruct (N.eq_dec x c) as [->|Hne].
  - exists [], r. simpl. rewrite N.eqb_refl. auto.
  - destruct Hin as [->|Hin]; [contradiction|].
    destruct (IH Hin) as (pre & r' & -> & Hpre & _).
    exists (x :: pre), r'. split; [reflexivity|]. split.
    + simpl. intros [E|E]; [now apply Hne|now apply Hpre].
    + apply (str_find_app (x :: pre) r' c).
      simpl. intros [E|E]; [now apply Hne|now apply Hpre].
Qed.

Lemma str_rfind_notin (s : text) (c : char) :
  ~ In c s -> str_rfind s c = -1.
Proof.
  induction s as [|x r IH]; simpl; intros H; [reflexivity|].
  rewrite IH by (intros Hin; apply H; now right). simpl.
  destruct (N.eqb_spec x c) as [->|Hne]; [exfalso; apply H; now left|].
  reflexivity.
Qed.

Lemma str_rfind_lower (s : text) (c : char) : -1 <= str_rfind s c.
Proof.
  induction s as [|x r IH]; simpl; [lia|].
  destruct (Z.eqb_spec (str_rfind r c) (-1)); [|lia].
  destruct (N.eqb x c); lia.
Qed.

Lemma str_rfind_app (a post : text) (c : char) :
  ~ In c post -> str_rfind (a ++ c :: post) c = Z.of_nat (length a).
Proof.
  intros H. induction a as [|x p IH]; simpl.
  - rewrite (str_rfind_notin _ _ H). simpl. now rewrite N.eqb_refl.
  - rewrite IH.
    destruct (Z.eqb_spec (Z.of_nat (length p)) (-1)); lia.
Qed.

Lemma slice_index_inside (len i : Z) :
  0 <= i <= len -> slice_index len i = i.
Proof.
  intros H. unfold slice_index.
  destruct (Z.ltb_spec i 0); lia.
Qed.

Lemma slice_middle (pre mid post : text) :
  slice (pre ++ mid ++ post) (Z.of_nat (length pre))
        (Z.of_nat (length pre) + Z.of_nat (length mid)) = mid.
Proof.
  unfold slice. rewrite !length_app, !Nat2Z.inj_add.
  rewrite !slice_index_inside by lia.
  destruct (Z.ltb_spec (Z.of_nat (length pre))
                       (Z.of_nat (length pre) + Z.of_nat (length mid))) as [Hlt|Hge].
  - replace (Z.of_nat (length pre) + Z.of_nat (length mid) - Z.of_nat (length pre))
      with (Z.of_nat (length mid)) by lia.
    rewrite !Nat2Z.id, skipn_app, Nat.sub_diag, skipn_all. simpl.
    rewrite firstn_app, Nat.sub_diag, firstn_all. simpl. apply app_nil_r.
  - destruct mid; [reflexivity|simpl in Hge; lia].
Qed.

Lemma slice_empty (s : text) (a b : Z) :
  0 <= b -> b <= a -> slice s a b = [].
Proof.
  intros Hb Hab. unfold slice, slice_index.
  destruct (Z.ltb_spec a 0); [lia|].
  destruct (Z.ltb_spec b 0); [lia|].
  destruct (Z.ltb_spec (Z.min a (Z.of_nat (length s)))
                       (Z.min b (Z.of_nat (length s)))); [lia|reflexivity].
Qed.

Lemma slice_at_find (s : text) (c : char) (b : Z) :
  str_find s c <> -1 ->
  slice s (str_find s c) b = [] \/ exists r, slice s (str_find s c) b = c :: r.
Proof.
  intros H. destruct (str_find_split s c H) as (pre & r & -> & _ & ->).
  unfold slice.
  rewrite slice_index_inside by (rewrite length_app; simpl; lia).
  match goal with |- context [if ?t then _ else _] => destruct t eqn:Hlt end;
    [|now left].
  right. rewrite Nat2Z.id, skipn_app, Nat.sub_diag, skipn_all. simpl.
  apply Z.ltb_lt in Hlt.
  match goal with |- context [firstn ?n _] => destruct n eqn:Hn end; [lia|].
  simpl. eauto.
Qed.

(** ** The decoder raises [JSONDecodeError], or meets a limit *)


















(** A text that starts with an opening brace decodes to a [dict]. *)
Lemma scan_once_brace (max_digits n d : nat) (r rest : text) (v : value) :
  scan_once max_digits n d (LBRACE :: r) = Returns (v, rest) ->
  is_dict v = true.
Proof.
  destruct n as [|n]; [discriminate|].
  cbn [scan_once]. cbn [N.eqb Pos.eqb LBRACE DQUOTE].
  destruct d as [|d]; [discriminate|].
  destruct (skip_ws r) as [|c1 r1]; [discriminate|].
  destruct (N.eqb c1 RBRACE); [cbv iota; intros [= <- _]; reflexivity|].
  destruct (N.eqb c1 DQUOTE); [|discriminate].
  destruct (object_loop max_digits n d r1) as [[pairs rest']|e]; [|discriminate].
  cbn [Py.bind]. intros [= <- _]. reflexivity.
Qed.

Lemma loads_brace (interp : interpreter) (r : text) (v : value) :
  loads interp (LBRACE :: r) = Returns v -> is_dict v = true.
Proof.
  unfold loads. cbn [skip_ws is_ws LBRACE N.eqb Pos.eqb orb].
  destruct (scan_once _ _ _ _) as [[obj rest]|e] eqn:E; [|discriminate].
  cbn [Py.bind]. destruct (skip_ws rest); [|discriminate].
  intros [= <-]. exact (scan_once_brace _ _ _ _ _ _ E).
Qed.

(** ** [extract_json] *)

Lemma druid_extract_json_eq (interp : interpreter) (text : Py.text) :
  DruidService.extract_json interp text = Convert.extract_json interp text.
Proof. reflexivity. Qed.

(** The extractor in terms of the span it decodes. *)
Lemma extract_json_unfold (interp : interpreter) (text : Py.text) :
  Convert.extract_json interp text =
  if str_find text LBRACE =? -1 then Returns (JObj [])
  else match loads interp (span text) with
       | Returns v => Returns v
       | Raises e =>
           if isinstance_JSONDecodeError e then Returns (JObj []) else Raises e
       end.
Proof.
  unfold Convert.extract_json, span.
  assert (He : (str_rfind text RBRACE + 1 =? -1) = false).
  { apply Z.eqb_neq. pose proof (str_rfind_lower text RBRACE). lia. }
  rewrite He. destruct (str_find text LBRACE =? -1); [reflexivity|].
  cbn [negb andb].
  destruct (loads _ _) as [v|e]; reflexivity.
Qed.



(** What [extract_json] returns is a [dict]. *)
Lemma extract_json_dict (interp : interpreter) (text : Py.text) (v : value) :
  Convert.extract_json interp text = Returns v -> exists d, v = JObj d.
Proof.
  rewrite extract_json_unfold.
  destruct (Z.eqb_spec (str_find text LBRACE) (-1)) as [|Hf];
    [intros [= <-]; eauto|].
  destruct (loads interp (span text)) as [v'|e] eqn:E.
  - intros [= <-]. unfold span in E.
    destruct (slice_at_find text LBRACE (str_rfind text RBRACE + 1) Hf)
      as [Hs|[r Hs]]; rewrite Hs in E.
    + discriminate.
    + apply loads_brace in E. destruct v'; try discriminate. eauto.
  - destruct (isinstance_JSONDecodeError e); [intros [= <-]; eauto|discriminate].
Qed.

Lemma extract_json_empty_span (interp : interpreter) (text : Py.text) :
  span text = [] -> Convert.extract_json interp text = Returns (JObj []).
Proof.
  intros H. rewrite extract_json_unfold, H.
  destruct (_ =? _); reflexivity.
Qed.

(** ** The decoder accepts every well-formed text *)

Arguments hex4 : simpl never.
Arguments unescape : simpl never.
Arguments is_high_surrogate : simpl never.
Arguments is_low_surrogate : simpl never.
Arguments join_surrogates : simpl never.

Lemma skip_ws_blank (ws s : text) :
  blank ws -> skip_ws (ws ++ s) = skip_ws s.
Proof.
  unfold blank. induction ws as [|c r IH]; simpl; [reflexivity|].
  intros H. apply andb_prop in H. destruct H as [Hc Hr].
  rewrite Hc. now apply IH.
Qed.

Lemma skip_ws_stop (c : char) (r : text) :
  is_ws c = false -> skip_ws (c :: r) = c :: r.
Proof. intros H. simpl. now rewrite H. Qed.

Lemma wf_items_cons (i : sitem) (r : list sitem) :
  wf_items (i :: r) -> wf_sitem i = true /\ wf_items r.
Proof. unfold wf_items. simpl. intros H. now apply andb_prop in H. Qed.

Lemma unescape_not_u (e : char) (c : char) : unescape e = Some c -> (e =? 117)%N = false.
Proof.
  intros H. destruct (N.eqb_spec e 117) as [->|]; [discriminate|reflexivity].
Qed.

Lemma wf_raw (c : char) :
  wf_sitem (SRaw c) = true ->
  (c =? DQUOTE)%N = false /\ (c =? BACKSLASH)%N = false /\ (c <? 32)%N = false.
Proof.
  simpl. intros H. apply andb_prop in H. destruct H as [H H3].
  apply andb_prop in H. destruct H as [H1 H2].
  apply negb_true_iff in H1, H2. apply N.leb_le in H3.
  repeat split; try assumption. now apply N.ltb_ge.
Qed.

Lemma scanstring_complete_len (n : nat) :
  forall items rest, (length items <= n)%nat -> wf_items items ->
    scanstring (render_items items ++ DQUOTE :: rest)
    = Returns (denote_items items, rest).
Proof.
  induction n as [|n IH]; intros items rest Hlen Hwf.
  - destruct items; [reflexivity|simpl in Hlen; lia].
  - destruct items as [|i r]; [reflexivity|].
    apply wf_items_cons in Hwf. destruct Hwf as [Hi Hr].
    assert (IHr : scanstring (render_items r ++ DQUOTE :: rest)
                  = Returns (denote_items r, rest))
      by (apply IH; [simpl in Hlen; lia|exact Hr]).
    destruct i as [c|e|a b c d].
    + destruct (wf_raw c Hi) as (H1 & H2 & H3).
      simpl. rewrite H1, H2, H3, IHr. reflexivity.
    + simpl in Hi. destruct (unescape e) as [ch|] eqn:He; [|discriminate].
      simpl. rewrite (unescape_not_u e ch He), He, IHr.
      unfold escape_value. rewrite He. reflexivity.
    + simpl in Hi. destruct (hex4 a b c d) as [u|] eqn:Hu; [|discriminate].
      cbn [render_items flat_map render_item app].
      cbn [scanstring]. cbn [N.eqb Pos.eqb BACKSLASH DQUOTE]. rewrite Hu.
      change (flat_map render_item r) with (render_items r).
      assert (Hu4 : unit4 a b c d = u) by (unfold unit4; now rewrite Hu).
      cbn [denote_items]. cbn zeta. rewrite !Hu4.
      destruct (is_high_surrogate u) eqn:Hhi.
      2:{ rewrite IHr. cbn [Py.bind andb].
          destruct r as [|[ | |] ?]; reflexivity. }
      destruct r as [|[c'|e'|e f g h] r'].
      * cbn [render_items flat_map app] in *. rewrite IHr.
        destruct rest; reflexivity.
      * cbn [render_items flat_map render_item app] in *. rewrite IHr.
        apply wf_items_cons in Hr. destruct Hr as [Hc' _].
        destruct (wf_raw c' Hc') as (_ & H2 & _).
        destruct (flat_map render_item r' ++ DQUOTE :: rest);
          [reflexivity|]. rewrite H2. reflexivity.
      * cbn [render_items flat_map render_item app] in *. rewrite IHr.
        apply wf_items_cons in Hr. destruct Hr as [He' _].
        simpl in He'. destruct (unescape e') as [ch|] eqn:He; [|discriminate].
        rewrite (unescape_not_u e' ch He). rewrite N.eqb_refl. reflexivity.
      * cbn [render_items flat_map render_item app] in *. rewrite IHr.
        apply wf_items_cons in Hr. destruct Hr as [Hu2 Hr'].
        simpl in Hu2. destruct (hex4 e f g h) as [u2|] eqn:Hu2'; [|discriminate].
        rewrite !N.eqb_refl. cbn [andb]. unfold unit4. rewrite Hu2'.
        destruct (is_low_surrogate u2) eqn:Hlo; cbn [andb]; [|reflexivity].
        change (flat_map render_item r') with (render_items r').
        rewrite (IH r' rest) by (simpl in Hlen; lia || exact Hr').
        reflexivity.
Qed.

Lemma scanstring_complete (items : list sitem) (rest : text) :
  wf_items items ->
  scanstring (render_items items ++ DQUOTE :: rest)
  = Returns (denote_items items, rest).
Proof. apply (scanstring_complete_len (length items)). lia. Qed.

Arguments is_digit : simpl never.
Arguments is_ws : simpl never.

Lemma span_digits_app (ds rest : text) :
  forallb is_digit ds = true -> no_digit_ahead rest ->
  span_digits (ds ++ rest) = (ds, rest).
Proof.
  intros Hds Hrest. induction ds as [|d r IH]; simpl.
  - destruct rest as [|c r]; [reflexivity|]. simpl in *. now rewrite Hrest.
  - simpl in Hds. apply andb_prop in Hds. destruct Hds as [Hd Hr].
    rewrite Hd, (IH Hr). reflexivity.
Qed.

Lemma delimited_no_digit (rest : text) : delimited rest -> no_digit_ahead rest.
Proof. destruct rest; simpl; tauto. Qed.

Lemma digit_not_letter (c : char) :
  is_digit c = true ->
  (c =? DOT)%N = false /\ (c =? 101)%N = false /\ (c =? 69)%N = false
  /\ (c =? PLUS)%N = false /\ (c =? MINUS)%N = false.
Proof.
  unfold is_digit, DOT, PLUS, MINUS. intros H. apply andb_prop in H.
  destruct H as [H1 H2]. apply N.leb_le in H1, H2.
  repeat split; apply N.eqb_neq; lia.
Qed.

Lemma nonempty_cons (l : text) :
  nonempty l = true -> exists c r, l = c :: r.
Proof. destruct l; [discriminate|eauto]. Qed.

Lemma match_frac_complete (f : option text) (rest : text) :
  frac_ok f = true ->
  match f with None => no_dot_ahead rest | Some _ => no_digit_ahead rest end ->
  match_frac (render_frac f ++ rest)
  = (match f with Some ds => Some (DOT :: ds) | None => None end, rest).
Proof.
  intros Hf Hrest. destruct f as [ds|]; simpl in *.
  - apply andb_prop in Hf. destruct Hf as [Hne Hds].
    rewrite (span_digits_app ds rest Hds Hrest).
    destruct (nonempty_cons ds Hne) as (c & r & ->). reflexivity.
  - unfold match_frac. destruct rest as [|c r]; [reflexivity|].
    simpl in Hrest. now rewrite Hrest.
Qed.

Lemma match_exp_complete (x : option (char * text * text)) (rest : text) :
  exp_ok x = true ->
  match x with None => delimited rest | Some _ => no_digit_ahead rest end ->
  match_exp (render_exp x ++ rest)
  = (match x with Some (e, sg, ds) => Some (e :: sg ++ ds) | None => None end,
     rest).
Proof.
  intros Hx Hrest. destruct x as [[[e sg] ds]|]; simpl in *.
  - apply andb_prop in Hx. destruct Hx as [Hx Hds].
    apply andb_prop in Hx. destruct Hx as [Hx Hne].
    apply andb_prop in Hx. destruct Hx as [He Hsg].
    rewrite He. destruct (nonempty_cons ds Hne) as (c & r & ->).
    assert (Hc : is_digit c = true)
      by (simpl in Hds; now apply andb_prop in Hds).
    destruct (digit_not_letter c Hc) as (_ & _ & _ & Hp & Hm).
    destruct sg as [|g [|? ?]]; simpl in Hsg; try discriminate.
    + cbn [app]. rewrite Hp, Hm. cbn [orb].
      change (c :: r ++ rest) with ((c :: r) ++ rest).
      rewrite (span_digits_app (c :: r) rest Hds Hrest). reflexivity.
    + cbn [app]. rewrite Hsg.
      change (c :: r ++ rest) with ((c :: r) ++ rest).
      rewrite (span_digits_app (c :: r) rest Hds Hrest). reflexivity.
  - unfold match_exp. destruct rest as [|c r]; [reflexivity|].
    destruct Hrest as (_ & _ & H1 & H2). now rewrite H1, H2.
Qed.

Lemma exp_letter (e : char) :
  (e =? 101)%N || (e =? 69)%N = true ->
  is_digit e = false /\ (e =? DOT)%N = false.
Proof.
  destruct (N.eqb_spec e 101) as [->|]; [split; reflexivity|].
  destruct (N.eqb_spec e 69) as [->|]; [split; reflexivity|discriminate].
Qed.

(** What follows the integer part and the fraction of a literal. *)
Lemma number_tail (f : option text) (x : option (char * text * text))
      (rest : text) :
  exp_ok x = true -> delimited rest ->
  no_digit_ahead (render_exp x ++ rest)
  /\ no_dot_ahead (render_exp x ++ rest)
  /\ no_digit_ahead (render_frac f ++ render_exp x ++ rest).
Proof.
  intros Hx Hrest.
  assert (H : no_digit_ahead (render_exp x ++ rest)
              /\ no_dot_ahead (render_exp x ++ rest)).
  { destruct x as [[[e sg] ds]|]; simpl.
    - simpl in Hx. apply andb_prop in Hx. destruct Hx as [Hx _].
      apply andb_prop in Hx. destruct Hx as [Hx _].
      apply andb_prop in Hx. destruct Hx as [Hx _].
      now apply exp_letter.
    - destruct rest; simpl in *; tauto. }
  destruct H as [H1 H2]. repeat split; try assumption.
  destruct f as [ds|]; [reflexivity|exact H1].
Qed.

Lemma match_number_complete (n : number_lit) (rest : text) :
  wf_number n -> delimited rest ->
  match_number (render_number n ++ rest)
  = Some (NumberMatch (render_sign n ++ num_int n) (frac_group (num_frac n))
                      (exp_group (num_exp n)) rest).
Proof.
  destruct n as [minus int f x]. unfold wf_number, render_number, render_sign.
  cbn [num_minus num_int num_frac num_exp]. intros Hwf Hrest.
  apply andb_prop in Hwf. destruct Hwf as [Hwf Hx].
  apply andb_prop in Hwf. destruct Hwf as [Hint Hf].
  destruct (number_tail f x rest Hx Hrest) as (Hnd & Hdot & Hnd').
  assert (Hfrac : match_frac (render_frac f ++ render_exp x ++ rest)
                  = (frac_group f, render_exp x ++ rest)).
  { apply match_frac_complete; [exact Hf|]. destruct f; assumption. }
  assert (Hexp : match_exp (render_exp x ++ rest) = (exp_group x, rest)).
  { apply match_exp_complete; [exact Hx|].
    destruct x; [now apply delimited_no_digit|exact Hrest]. }
  destruct int as [|d ds]; [discriminate|].
  assert (Hd : is_digit d = true).
  { simpl in Hint. destruct (N.eqb_spec d 48) as [->|]; [reflexivity|].
    now apply andb_prop in Hint. }
  destruct (digit_not_letter d Hd) as (_ & _ & _ & _ & Hm).
  assert (Hbody : forall sign,
    match d :: ds ++ render_frac f ++ render_exp x ++ rest with
    | [] => None
    | c :: r =>
        if (c =? 48)%N
        then (let (frac, r1) := match_frac r in
              let (exp, r2) := match_exp r1 in
              Some (NumberMatch (sign ++ [c]) frac exp r2))
        else if is_digit c
             then (let (ds0, r') := span_digits r in
                   let (frac, r1) := match_frac r' in
                   let (exp, r2) := match_exp r1 in
                   Some (NumberMatch (sign ++ c :: ds0) frac exp r2))
             else None
    end = Some (NumberMatch (sign ++ d :: ds) (frac_group f) (exp_group x) rest)).
  { intros sign. simpl in Hint.
    destruct (N.eqb d 48).
    - destruct ds; [|discriminate]. cbn [app]. now rewrite Hfrac, Hexp.
    - apply andb_prop in Hint. destruct Hint as [_ Hds]. rewrite Hd.
      rewrite (span_digits_app ds _ Hds Hnd'). now rewrite Hfrac, Hexp. }
  unfold match_number. rewrite <- !app_assoc.
  destruct minus.
  - cbn [app]. rewrite N.eqb_refl. exact (Hbody [MINUS]).
  - cbn [app]. rewrite Hm. exact (Hbody []).
Qed.

Lemma number_value_cases (max_digits : nat) (n : number_lit) (rest : text) :
  wf_number n ->
  number_value max_digits
    (NumberMatch (render_sign n ++ num_int n)
                 (frac_group (num_frac n)) (exp_group (num_exp n)) rest)
  = if int_allowed max_digits n then Returns (denote_number n)
    else Raises (int_from_str_error max_digits (length (num_int n))).
Proof.
  destruct n as [minus int f x].
  unfold wf_number, number_value, denote_number, int_allowed.
  unfold render_number, render_sign.
  cbn [num_minus num_int num_frac num_exp nm_frac nm_exp nm_integer].
  intros Hwf. apply andb_prop in Hwf. destruct Hwf as [Hwf _].
  apply andb_prop in Hwf. destruct Hwf as [Hint _].
  destruct f as [fd|], x as [[[e sg] ed]|]; cbn [frac_group exp_group opt_text render_frac render_exp];
    try (now rewrite <- !app_assoc).
  destruct int as [|d ds]; [discriminate|].
  assert (Hd : is_digit d = true).
  { simpl in Hint. destruct (N.eqb_spec d 48) as [->|]; [reflexivity|].
    now apply andb_prop in Hint. }
  destruct (digit_not_letter d Hd) as (_ & _ & _ & _ & Hm).
  destruct minus; cbn [app parse_int unsigned].
  - rewrite N.eqb_refl. now destruct (exceeds_digit_limit _ _).
  - rewrite Hm. now destruct (exceeds_digit_limit _ _).
Qed.

Lemma number_value_complete (max_digits : nat) (n : number_lit) (rest : text) :
  wf_number n -> int_allowed max_digits n = true ->
  number_value max_digits
    (NumberMatch (render_sign n ++ num_int n)
                 (frac_group (num_frac n)) (exp_group (num_exp n)) rest)
  = Returns (denote_number n).
Proof. intros Hwf Hi. now rewrite number_value_cases, Hi. Qed.

Lemma value_start_facts (c : char) :
  value_start c = true ->
  is_ws c = false /\ (c =? RBRACKET)%N = false /\ (c =? RBRACE)%N = false.
Proof.
  unfold value_start. intros H.
  repeat (apply orb_prop in H; destruct H as [H|H]);
    try (apply N.eqb_eq in H; subst c; repeat split; reflexivity).
  unfold is_digit in H. apply andb_prop in H. destruct H as [H1 H2].
  apply N.leb_le in H1, H2. unfold is_ws, RBRACKET, RBRACE.
  repeat split; repeat (apply orb_false_intro); apply N.eqb_neq; lia.
Qed.

Lemma skip_ws_value (s : text) : starts_value s -> skip_ws s = s.
Proof.
  destruct s as [|c r]; [contradiction|]. intros H.
  apply skip_ws_stop. now apply value_start_facts.
Qed.

Lemma starts_value_app (s rest : text) :
  starts_value s -> starts_value (s ++ rest).
Proof. destruct s; [contradiction|auto]. Qed.

Lemma render_number_starts (n : number_lit) :
  wf_number n -> exists c r,
    render_number n = c :: r /\ (c = MINUS \/ is_digit c = true).
Proof.
  destruct n as [minus int f x]. unfold wf_number, render_number, render_sign.
  cbn [num_minus num_int num_frac num_exp]. intros Hwf.
  destruct minus; [cbn [app]; eauto|].
  apply andb_prop in Hwf. destruct Hwf as [Hwf _].
  apply andb_prop in Hwf. destruct Hwf as [Hint _].
  destruct int as [|d ds]; [discriminate|]. cbn [app].
  exists d. eexists. split; [reflexivity|right].
  simpl in Hint. destruct (N.eqb_spec d 48) as [->|]; [reflexivity|].
  now apply andb_prop in Hint.
Qed.

Lemma render_starts (ext : bool) (t : cst) :
  wf ext t -> starts_value (render t).
Proof.
  destruct t; intros Hwf; try reflexivity.
  - destruct (render_number_starts n Hwf) as (c & r & E & [->|Hc]);
      cbn [render]; rewrite E; [reflexivity|].
    unfold starts_value, value_start. rewrite Hc. now rewrite !orb_true_r.
  - destruct k; reflexivity.
Qed.

Lemma render_elements_starts (ext : bool) (es : elements) :
  wf_elements ext es -> es <> ENil -> starts_value (render_elements es).
Proof.
  destruct es as [|v wa wc rest]; [congruence|]. intros (Hv & _) _.
  cbn [render_elements]. apply starts_value_app. now apply render_starts with ext.
Qed.

(** Where the decoder takes the number branch. *)
Lemma scan_once_number (max_digits n d : nat) (c : char) (r : text) :
  c = MINUS \/ is_digit c = true ->
  scan_once max_digits (S n) d (c :: r)
  = match match_number (c :: r) with
    | Some m =>
        Py.bind (number_value max_digits m) (fun v => Returns (v, nm_rest m))
    | None => scan_constant (c :: r)
    end.
Proof.
  intros [->|H]; [reflexivity|].
  assert (Hc : (c = 48 \/ c = 49 \/ c = 50 \/ c = 51 \/ c = 52 \/ c = 53
                \/ c = 54 \/ c = 55 \/ c = 56 \/ c = 57)%N).
  { unfold is_digit in H. apply andb_prop in H. destruct H as [H1 H2].
    apply N.leb_le in H1, H2. lia. }
  repeat (destruct Hc as [->|Hc]; [reflexivity|]). subst c. reflexivity.
Qed.

Lemma delimited_after (ws : text) (c : char) (s : text) :
  blank ws -> c = RBRACKET \/ c = COMMA \/ c = RBRACE ->
  delimited (ws ++ c :: s).
Proof.
  intros Hws Hc. destruct ws as [|w r]; cbn [app delimited].
  - destruct Hc as [-> | [-> | ->]]; repeat split.
  - unfold blank in Hws. simpl in Hws. apply andb_prop in Hws.
    destruct Hws as [Hw _]. unfold is_ws in Hw.
    repeat (apply orb_prop in Hw; destruct Hw as [Hw|Hw]);
      apply N.eqb_eq in Hw; subst w; repeat split.
Qed.

Lemma delimited_blank (ws : text) : blank ws -> delimited ws.
Proof.
  intros Hws. destruct ws as [|w r]; [exact I|].
  unfold blank in Hws. simpl in Hws. apply andb_prop in Hws.
  destruct Hws as [Hw _]. unfold is_ws in Hw. cbn [delimited].
  repeat (apply orb_prop in Hw; destruct Hw as [Hw|Hw]);
    apply N.eqb_eq in Hw; subst w; repeat split.
Qed.

Lemma wf_weaken (ext : bool) :
  (forall t, wf ext t -> wf true t)
  /\ (forall es, wf_elements ext es -> wf_elements true es)
  /\ (forall ms, wf_members ext ms -> wf_members true ms).
Proof.
  apply cst_mutind; cbn [wf wf_elements wf_members]; intros; tauto.
Qed.

Lemma render_members_quote (ms : members) :
  ms <> MNil -> render_members ms = DQUOTE :: tl (render_members ms).
Proof. destruct ms; [congruence|reflexivity]. Qed.

(** With fuel for the nesting of a tree and within the limits of the
    interpreter, the decoder reads its text and returns the value it
    denotes. *)
Lemma scan_complete (max_digits : nat) :
  (forall t n d rest, wf true t -> delimited rest -> (need t <= n)%nat ->
     (depth t <= d)%nat -> ints_allowed max_digits t ->
     scan_once max_digits n d (render t ++ rest) = Returns (denote t, rest))
  /\ (forall es n d rest, wf_elements true es -> es <> ENil ->
        (need_elements es <= n)%nat ->
        (depth_elements es <= d)%nat -> ints_allowed_elements max_digits es ->
        array_loop max_digits n d (render_elements es ++ rest)
        = Returns (denote_elements es, rest))
  /\ (forall ms n d rest, wf_members true ms -> ms <> MNil ->
        (need_members ms <= n)%nat ->
        (depth_members ms <= d)%nat -> ints_allowed_members max_digits ms ->
        object_loop max_digits n d (tl (render_members ms) ++ rest)
        = Returns (denote_members ms, rest)).
Proof.
  apply cst_mutind.
  - (* null *)
    intros [|n] d rest _ _ Hn _ _; [simpl in Hn; lia|reflexivity].
  - intros [|n] d rest _ _ Hn _ _; [simpl in Hn; lia|reflexivity].
  - intros [|n] d rest _ _ Hn _ _; [simpl in Hn; lia|reflexivity].
  - (* number *)
    intros lit [|n] d rest Hwf Hrest Hn _ Hi; [simpl in Hn; lia|].
    cbn [wf render denote ints_allowed] in *.
    destruct (render_number_starts lit Hwf) as (c & r & E & Hc).
    pose proof (match_number_complete lit rest Hwf Hrest) as Hm.
    rewrite E in *. cbn [app] in *.
    rewrite (scan_once_number max_digits n d c (r ++ rest) Hc), Hm.
    cbn [nm_rest]. now rewrite number_value_complete.
  - (* constants *)
    intros k [|n] d rest _ _ Hn _ _; [simpl in Hn; lia|]. destruct k; reflexivity.
  - (* string *)
    intros items [|n] d rest Hwf _ Hn _ _; [simpl in Hn; lia|].
    cbn [wf render denote] in *. rewrite <- app_comm_cons, <- app_assoc.
    cbn [scan_once app]. rewrite N.eqb_refl.
    now rewrite (scanstring_complete items rest Hwf).
  - (* array *)
    intros ws es IH [|n] d rest (Hws & Hes) _ Hn Hd Hi; [simpl in Hn; lia|].
    cbn [need] in Hn. cbn [depth] in Hd. cbn [ints_allowed] in Hi.
    destruct d as [|d]; [lia|].
    cbn [render denote].
    rewrite <- app_comm_cons, <- app_assoc.
    cbn [scan_once]. cbn [N.eqb Pos.eqb LBRACKET DQUOTE LBRACE].
    rewrite (skip_ws_blank ws _ Hws).
    destruct es as [|v wa wc es'].
    + reflexivity.
    + assert (Hne : ECons v wa wc es' <> ENil) by discriminate.
      pose proof (starts_value_app _ rest
                    (render_elements_starts true _ Hes Hne)) as Hst.
      rewrite (skip_ws_value _ Hst).
      destruct (render_elements (ECons v wa wc es') ++ rest) as [|c1 r1] eqn:E;
        [contradiction|].
      destruct (value_start_facts c1 Hst) as (_ & Hb & _). rewrite Hb.
      rewrite <- E. rewrite (IH n d rest Hes Hne) by (assumption || lia).
      reflexivity.
  - (* object *)
    intros ws ms IH [|n] d rest (Hws & Hms) _ Hn Hd Hi; [simpl in Hn; lia|].
    cbn [need] in Hn. cbn [depth] in Hd. cbn [ints_allowed] in Hi.
    destruct d as [|d]; [lia|].
    cbn [render denote].
    rewrite <- app_comm_cons, <- app_assoc.
    cbn [scan_once]. cbn [N.eqb Pos.eqb LBRACKET DQUOTE LBRACE].
    rewrite (skip_ws_blank ws _ Hws).
    destruct ms as [|key wk wl v wa wc ms'].
    + reflexivity.
    + assert (Hne : MCons key wk wl v wa wc ms' <> MNil) by discriminate.
      rewrite (render_members_quote _ Hne). rewrite <- app_comm_cons.
      rewrite (skip_ws_stop DQUOTE _ eq_refl).
      cbn [N.eqb Pos.eqb DQUOTE RBRACE].
      rewrite (IH n d rest Hms Hne) by (assumption || lia). reflexivity.
  - (* no element *)
    intros n d rest _ Hne. congruence.
  - (* elements *)
    intros v IHv wa wc es' IHes [|n] d rest (Hv & Hwa & Hwc & Hes) _ Hn Hd
           (Hiv & Hies); [simpl in Hn; lia|].
    cbn [need_elements] in Hn. cbn [depth_elements] in Hd.
    cbn [render_elements denote_elements].
    rewrite <- !app_assoc. cbn [array_loop].
    destruct es' as [|v' wa' wc' es''].
    + cbn [app]. rewrite (IHv n d (wa ++ RBRACKET :: rest) Hv) by
        (try apply delimited_after; auto; lia).
      cbn [Py.bind]. rewrite (skip_ws_blank wa _ Hwa).
      rewrite (skip_ws_stop RBRACKET _ eq_refl). reflexivity.
    + assert (Hne : ECons v' wa' wc' es'' <> ENil) by discriminate.
      rewrite <- app_comm_cons, <- app_assoc.
      rewrite (IHv n d (wa ++ COMMA :: wc ++ render_elements (ECons v' wa' wc' es'') ++ rest) Hv)
        by (try apply delimited_after; auto; lia).
      cbn [Py.bind]. rewrite (skip_ws_blank wa _ Hwa).
      rewrite (skip_ws_stop COMMA _ eq_refl).
      cbn [N.eqb Pos.eqb COMMA RBRACKET].
      rewrite (skip_ws_blank wc _ Hwc).
      rewrite (skip_ws_value _ (starts_value_app _ rest
                 (render_elements_starts true _ Hes Hne))).
      rewrite (IHes n d rest Hes Hne) by (assumption || lia). reflexivity.
  - (* no member *)
    intros n d rest _ Hne. congruence.
  - (* members *)
    intros key wk wl v IHv wa wc ms' IHms [|n] d rest
           (Hkey & Hwk & Hwl & Hv & Hwa & Hwc & Hms) _ Hn Hd (Hiv & Hims);
      [simpl in Hn; lia|].
    cbn [need_members] in Hn. cbn [depth_members] in Hd.
    cbn [render_members denote_members tl].
    rewrite <- !app_assoc. rewrite <- app_comm_cons.
    cbn [object_loop]. rewrite (scanstring_complete key _ Hkey).
    cbn [Py.bind]. rewrite <- !app_assoc. rewrite (skip_ws_blank wk _ Hwk).
    rewrite <- app_comm_cons.
    rewrite (skip_ws_stop COLON _ eq_refl). rewrite N.eqb_refl.
    rewrite <- !app_assoc.
    rewrite (skip_ws_blank wl _ Hwl).
    rewrite (skip_ws_value _ (starts_value_app _ _ (render_starts true v Hv))).
    destruct ms' as [|key' wk' wl' v' wa' wc' ms''].
    + cbn [app]. rewrite (IHv n d (wa ++ RBRACE :: rest) Hv) by
        (try apply delimited_after; auto; lia).
      cbn [Py.bind]. rewrite (skip_ws_blank wa _ Hwa).
      rewrite (skip_ws_stop RBRACE _ eq_refl). reflexivity.
    + assert (Hne : MCons key' wk' wl' v' wa' wc' ms'' <> MNil) by discriminate.
      rewrite <- app_comm_cons, <- app_assoc.
      rewrite (IHv n d (wa ++ COMMA :: wc ++ render_members (MCons key' wk' wl' v' wa' wc' ms'') ++ rest) Hv)
        by (try apply delimited_after; auto; lia).
      cbn [Py.bind]. rewrite (skip_ws_blank wa _ Hwa).
      rewrite (skip_ws_stop COMMA _ eq_refl).
      cbn [N.eqb Pos.eqb COMMA RBRACE].
      rewrite (skip_ws_blank wc _ Hwc).
      rewrite (render_members_quote _ Hne). rewrite <- app_comm_cons.
      rewrite (skip_ws_stop DQUOTE _ eq_refl). rewrite N.eqb_refl.
      rewrite (IHms n d rest Hms Hne) by (assumption || lia). reflexivity.
Qed.

Lemma need_le_length (ext : bool) :
  (forall t, wf ext t -> (need t <= length (render t))%nat)
  /\ (forall es, wf_elements ext es ->
        (need_elements es <= length (render_elements es))%nat)
  /\ (forall ms, wf_members ext ms ->
        (need_members ms <= length (render_members ms))%nat).
Proof.
  apply cst_mutind; cbn [need need_elements need_members render
                         render_elements render_members wf wf_elements
                         wf_members]; intros.
  - simpl; lia.
  - simpl; lia.
  - simpl; lia.
  - destruct (render_number_starts n H) as (c & r & -> & _). simpl; lia.
  - destruct k; simpl; lia.
  - simpl; lia.
  - cbn [length]. rewrite length_app. destruct H0 as [_ H0].
    specialize (H H0). lia.
  - cbn [length]. rewrite length_app. destruct H0 as [_ H0].
    specialize (H H0). lia.
  - lia.
  - destruct H1 as (Hv & _ & _ & Hr). specialize (H Hv). specialize (H0 Hr).
    rewrite !length_app. destruct rest.
    + simpl in *. lia.
    + cbn [length]. rewrite length_app. lia.
  - lia.
  - destruct H1 as (_ & _ & _ & Hv & _ & _ & Hr).
    specialize (H Hv). specialize (H0 Hr).
    cbn [length]. rewrite !length_app. cbn [length]. rewrite !length_app.
    cbn [length]. rewrite !length_app. destruct rest.
    + simpl in *. lia.
    + cbn [length]. rewrite length_app. lia.
Qed.

Lemma loads_no_bom (interp : interpreter) (s : text) :
  match s with c :: _ => c <> 65279%N | [] => True end ->
  loads interp s
  = Py.bind (scan_once (int_max_str_digits interp) (fuel_for s)
               (S (decode_room interp)) (skip_ws s))
      (fun '(obj, rest) =>
         match skip_ws rest with
         | [] => Returns obj
         | _ :: _ => Raises (JSONDecodeError (lit "Extra data"))
         end).
Proof.
  unfold loads. destruct s as [|c r]; [reflexivity|].
  destruct c as [|p]; [reflexivity|]. intros H.
  repeat (destruct p as [p|p|]; try reflexivity). now elim H.
Qed.

Lemma starts_value_no_bom (s : text) :
  starts_value s -> match s with c :: _ => c <> 65279%N | [] => True end.
Proof.
  destruct s as [|c r]; [auto|]. intros H ->. discriminate H.
Qed.

Lemma blank_no_bom (ws s : text) :
  blank ws -> match s with c :: _ => c <> 65279%N | [] => True end ->
  match ws ++ s with c :: _ => c <> 65279%N | [] => True end.
Proof.
  destruct ws as [|w r]; [auto|]. unfold blank. intros H _ ->. discriminate H.
Qed.

(** [json.loads] returns the value of every text of the grammar that is
    within the limits of the interpreter. *)
Lemma loads_complete (interp : interpreter) (ext : bool) (ws1 ws2 : text)
      (t : cst) :
  blank ws1 -> blank ws2 -> wf ext t -> within interp t ->
  loads interp (ws1 ++ render t ++ ws2) = Returns (denote t).
Proof.
  intros H1 H2 Hwf (Hd & Hi).
  pose proof (starts_value_app _ ws2 (render_starts ext t Hwf)) as Hst.
  rewrite loads_no_bom
    by (apply blank_no_bom; [exact H1|now apply starts_value_no_bom]).
  rewrite (skip_ws_blank ws1 _ H1), (skip_ws_value _ Hst).
  destruct (scan_complete (int_max_str_digits interp)) as (Hscan & _).
  rewrite Hscan.
  - cbn [Py.bind]. rewrite <- (app_nil_r ws2), (skip_ws_blank ws2 [] H2).
    reflexivity.
  - now apply (proj1 (wf_weaken ext)).
  - now apply delimited_blank.
  - pose proof (proj1 (need_le_length ext) t Hwf).
    unfold fuel_for. rewrite !length_app. lia.
  - exact Hd.
  - exact Hi.
Qed.

(** ** The decoder accepts nothing but well-formed texts *)

Lemma skip_ws_split (s : text) :
  exists ws, blank ws /\ s = ws ++ skip_ws s.
Proof.
  induction s as [|c r (ws & Hws & E)].
  - exists []. split; reflexivity.
  - simpl. destruct (is_ws c) eqn:Hc.
    + exists (c :: ws). split.
      * unfold blank in *. simpl. now rewrite Hc.
      * simpl. now rewrite <- E.
    + exists []. split; reflexivity.
Qed.

Lemma skip_ws_cons (s : text) (c : char) (r : text) :
  skip_ws s = c :: r -> exists ws, blank ws /\ s = ws ++ c :: r.
Proof.
  intros H. destruct (skip_ws_split s) as (ws & Hws & E).
  exists ws. now rewrite <- H.
Qed.

Lemma skip_ws_nil (s : text) : skip_ws s = [] -> blank s.
Proof.
  intros H. destruct (skip_ws_split s) as (ws & Hws & E).
  rewrite H, app_nil_r in E. now subst.
Qed.

Lemma strip_prefix_sound (p s r : text) :
  strip_prefix p s = Some r -> s = p ++ r.
Proof.
  revert s. induction p as [|a p IH]; intros s; simpl.
  - now intros [= ->].
  - destruct s as [|b s]; [discriminate|].
    destruct (N.eqb_spec a b) as [->|]; [|discriminate].
    intros H. now rewrite (IH s H).
Qed.

Lemma denote_uni_single (a b c d : char) (u : N) (items : list sitem) :
  hex4 a b c d = Some u ->
  is_high_surrogate u = false
  \/ match items with
     | SUni e f g h :: _ => is_low_surrogate (unit4 e f g h) = false
     | _ => True
     end ->
  denote_items (SUni a b c d :: items) = u :: denote_items items.
Proof.
  intros Hu H. cbn [denote_items]. cbn zeta.
  assert (Hu4 : unit4 a b c d = u) by (unfold unit4; now rewrite Hu).
  rewrite !Hu4.
  destruct items as [|[?|?|e f g h] r]; try reflexivity.
  destruct H as [H|H]; rewrite H; [reflexivity|].
  now rewrite andb_false_r.
Qed.

Lemma render_items_head (items : list sitem) (rest : text) :
  wf_items items ->
  match items with
  | [] => render_items items ++ DQUOTE :: rest = DQUOTE :: rest
  | SRaw c :: r =>
      (c =? BACKSLASH)%N = false
      /\ render_items items ++ DQUOTE :: rest
         = c :: render_items r ++ DQUOTE :: rest
  | SEsc e :: r =>
      (e =? 117)%N = false
      /\ render_items items ++ DQUOTE :: rest
         = BACKSLASH :: e :: render_items r ++ DQUOTE :: rest
  | SUni e f g h :: r =>
      render_items items ++ DQUOTE :: rest
      = BACKSLASH :: 117%N :: e :: f :: g :: h :: render_items r ++ DQUOTE :: rest
  end.
Proof.
  destruct items as [|[c|e|e f g h] r]; intros Hwf; try reflexivity.
  - apply wf_items_cons in Hwf. destruct Hwf as [Hc _].
    destruct (wf_raw c Hc) as (_ & H & _). now split.
  - apply wf_items_cons in Hwf. destruct Hwf as [He _]. simpl in He.
    destruct (unescape e) eqn:E; [|discriminate].
    split; [now apply unescape_not_u with c|reflexivity].
Qed.

Lemma wf_items_intro (i : sitem) (r : list sitem) :
  wf_sitem i = true -> wf_items r -> wf_items (i :: r).
Proof. unfold wf_items. simpl. intros -> ->. reflexivity. Qed.

(** A [\uXXXX] escape that the decoder keeps as one character. *)
Lemma single_sound (h1 h2 h3 h4 : char) (uni : N) (r2 str' rest : text) :
  hex4 h1 h2 h3 h4 = Some uni ->
  string_of r2 str' rest ->
  is_high_surrogate uni = false
  \/ (forall e f g h tl,
        r2 = BACKSLASH :: 117%N :: e :: f :: g :: h :: tl ->
        is_low_surrogate (unit4 e f g h) = false) ->
  string_of (BACKSLASH :: 117%N :: h1 :: h2 :: h3 :: h4 :: r2)
            (uni :: str') rest.
Proof.
  intros Hhex (items & Hwf & -> & <-) Hcond.
  exists (SUni h1 h2 h3 h4 :: items). split; [|split].
  - apply wf_items_intro; [simpl; now rewrite Hhex|exact Hwf].
  - reflexivity.
  - apply denote_uni_single; [exact Hhex|].
    destruct Hcond as [H|H]; [now left|right].
    destruct items as [|[?|?|e f g h] r]; try exact I.
    apply (H e f g h (render_items r ++ DQUOTE :: rest)). reflexivity.
Qed.

Lemma bind_returns {A B} (m : outcome A) (k : A -> outcome B) (b : B) :
  Py.bind m k = Returns b -> exists a, m = Returns a /\ k a = Returns b.
Proof. destruct m; [eauto|discriminate]. Qed.

Lemma scanstring_sound_len (n : nat) :
  forall s str rest, (length s <= n)%nat ->
    scanstring s = Returns (str, rest) -> string_of s str rest.
Proof.
  induction n as [|n IH]; intros s str rest Hlen H.
  - destruct s; [discriminate|simpl in Hlen; lia].
  - destruct s as [|c r]; [discriminate|].
    cbn [scanstring] in H.
    destruct (N.eqb_spec c DQUOTE) as [->|Hq].
    { injection H as <- <-. exists []. repeat split. }
    destruct (N.eqb_spec c BACKSLASH) as [->|Hb].
    2:{ destruct (c <? 32)%N eqn:Hc; [discriminate|].
        apply bind_returns in H. destruct H as ([str' rest'] & Hs & [= <- <-]).
        apply IH in Hs; [|simpl in Hlen; lia].
        destruct Hs as (items & Hwf & -> & <-).
        exists (SRaw c :: items). split; [|split; reflexivity].
        apply wf_items_intro; [|exact Hwf]. simpl.
        apply N.ltb_ge in Hc. apply N.eqb_neq in Hq, Hb.
        unfold DQUOTE, BACKSLASH in *. rewrite Hq, Hb. simpl.
        now apply N.leb_le. }
    destruct r as [|esc r1]; [discriminate|].
    destruct (N.eqb_spec esc 117) as [->|Hu].
    2:{ destruct (unescape esc) as [ch|] eqn:He; [|discriminate].
        apply bind_returns in H. destruct H as ([str' rest'] & Hs & [= <- <-]).
        apply IH in Hs; [|simpl in Hlen; lia].
        destruct Hs as (items & Hwf & -> & <-).
        exists (SEsc esc :: items). split; [|split].
        - apply wf_items_intro; [simpl; now rewrite He|exact Hwf].
        - reflexivity.
        - cbn [denote_items]. unfold escape_value. now rewrite He. }
    destruct r1 as [|h1 [|h2 [|h3 [|h4 r2]]]]; try discriminate.
    destruct (hex4 h1 h2 h3 h4) as [uni|] eqn:Hhex; [|discriminate].
    assert (Hsingle :
      Py.bind (scanstring r2) (fun '(str, rest) => Returns (uni :: str, rest))
      = Returns (str, rest) ->
      is_high_surrogate uni = false
      \/ (forall e f g h tl,
            r2 = BACKSLASH :: 117%N :: e :: f :: g :: h :: tl ->
            is_low_surrogate (unit4 e f g h) = false) ->
      string_of (BACKSLASH :: 117%N :: h1 :: h2 :: h3 :: h4 :: r2) str rest).
    { intros Hb Hcond. apply bind_returns in Hb.
      destruct Hb as ([str' rest'] & Hs & [= <- <-]).
      apply IH in Hs; [|simpl in Hlen; lia].
      now apply single_sound. }
    destruct (is_high_surrogate uni) eqn:Hhi; [|apply Hsingle; auto].
    destruct r2 as [|b [|u r3]];
      [apply Hsingle; [exact H|right; intros; discriminate]..|].
    destruct (N.eqb_spec b BACKSLASH) as [->|Hb'];
      [|apply Hsingle; [exact H|right; intros ? ? ? ? ? [= ]; congruence]].
    destruct (N.eqb_spec u 117) as [->|Hu'];
      [|apply Hsingle; [exact H|right; intros ? ? ? ? ? [= ]; congruence]].
    cbn [andb] in H.
    destruct r3 as [|g1 [|g2 [|g3 [|g4 r4]]]]; try discriminate.
    destruct (hex4 g1 g2 g3 g4) as [uni2|] eqn:Hhex2; [|discriminate].
    destruct (is_low_surrogate uni2) eqn:Hlo.
    + apply bind_returns in H. destruct H as ([str' rest'] & Hs & [= <- <-]).
      apply IH in Hs; [|simpl in Hlen; lia].
      destruct Hs as (items & Hwf & -> & <-).
      exists (SUni h1 h2 h3 h4 :: SUni g1 g2 g3 g4 :: items).
      split; [|split].
      * apply wf_items_intro; [simpl; now rewrite Hhex|].
        apply wf_items_intro; [simpl; now rewrite Hhex2|exact Hwf].
      * reflexivity.
      * cbn [denote_items]. cbn zeta. unfold unit4. rewrite Hhex, Hhex2.
        now rewrite Hhi, Hlo.
    + apply Hsingle; [exact H|right].
      intros e f g h tl [= <- <- <- <- _]. unfold unit4. now rewrite Hhex2.
Qed.

Lemma scanstring_sound (s str rest : text) :
  scanstring s = Returns (str, rest) -> string_of s str rest.
Proof. apply (scanstring_sound_len (length s)). lia. Qed.

Lemma span_digits_sound (s ds r : text) :
  span_digits s = (ds, r) -> s = ds ++ r /\ forallb is_digit ds = true.
Proof.
  revert ds r. induction s as [|c s IH]; intros ds r; simpl.
  - intros [= <- <-]. now split.
  - destruct (is_digit c) eqn:Hc.
    + destruct (span_digits s) as [ds' r'] eqn:E. intros [= <- <-].
      destruct (IH ds' r' eq_refl) as [-> Hds]. simpl. now rewrite Hc.
    + intros [= <- <-]. now split.
Qed.

Lemma match_frac_sound (s : text) (o : option text) (r : text) :
  match_frac s = (o, r) ->
  exists f, frac_ok f = true /\ frac_group f = o /\ s = render_frac f ++ r.
Proof.
  unfold match_frac. destruct s as [|c s'].
  - intros [= <- <-]. now exists None.
  - destruct (N.eqb_spec c DOT) as [->|_].
    + destruct (span_digits s') as [ds r'] eqn:E.
      apply span_digits_sound in E. destruct E as [-> Hds].
      destruct ds as [|d ds].
      * intros [= <- <-]. now exists None.
      * intros [= <- <-]. exists (Some (d :: ds)). repeat split.
        simpl in *. exact Hds.
    + intros [= <- <-]. now exists None.
Qed.

Lemma match_exp_sound (s : text) (o : option text) (r : text) :
  match_exp s = (o, r) ->
  exists x, exp_ok x = true /\ exp_group x = o /\ s = render_exp x ++ r.
Proof.
  unfold match_exp. destruct s as [|c s'].
  - intros [= <- <-]. now exists None.
  - destruct ((c =? 101)%N || (c =? 69)%N) eqn:Hc.
    2:{ intros [= <- <-]. now exists None. }
    assert (Hgen : forall sg r0,
      sign_ok sg = true -> s' = sg ++ r0 ->
      (match span_digits r0 with
       | ([], _) => (None, c :: s')
       | (ds, r') => (Some (c :: sg ++ ds), r')
       end) = (o, r) ->
      exists x, exp_ok x = true /\ exp_group x = o /\ c :: s' = render_exp x ++ r).
    { intros sg r0 Hsg -> H.
      destruct (span_digits r0) as [ds r'] eqn:E.
      apply span_digits_sound in E. destruct E as [-> Hds].
      destruct ds as [|d ds]; injection H as <- <-.
      - now exists None.
      - exists (Some (c, sg, d :: ds)). split; [|split].
        + cbn [exp_ok]. rewrite Hc, Hsg. exact Hds.
        + reflexivity.
        + simpl. rewrite <- app_assoc. reflexivity. }
    destruct s' as [|g s''].
    + intros H. exact (Hgen [] [] eq_refl eq_refl H).
    + destruct ((g =? PLUS)%N || (g =? MINUS)%N) eqn:Hg; intros H.
      * exact (Hgen [g] s'' Hg eq_refl H).
      * exact (Hgen [] (g :: s'') eq_refl eq_refl H).
Qed.

Lemma match_number_sound (s : text) (m : number_match) :
  match_number s = Some m ->
  exists n, wf_number n /\ s = render_number n ++ nm_rest m
            /\ forall max_digits,
                 number_value max_digits m
                 = if int_allowed max_digits n then Returns (denote_number n)
                   else Raises (int_from_str_error max_digits
                                  (length (num_int n))).
Proof.
  assert (Hfinish : forall (minus : bool) (int r : text),
    int_ok int = true ->
    (let (frac, r1) := match_frac r in
     let (exp, r2) := match_exp r1 in
     Some (NumberMatch ((if minus then [MINUS] else []) ++ int) frac exp r2))
    = Some m ->
    exists n, wf_number n
              /\ (if minus then [MINUS] else []) ++ int ++ r
                 = render_number n ++ nm_rest m
              /\ forall max_digits,
                   number_value max_digits m
                   = if int_allowed max_digits n then Returns (denote_number n)
                     else Raises (int_from_str_error max_digits
                                    (length (num_int n)))).
  { intros minus int r Hint H.
    destruct (match_frac r) as [frac r1] eqn:Ef.
    destruct (match_exp r1) as [exp r2] eqn:Ee.
    apply match_frac_sound in Ef. destruct Ef as (f & Hf & <- & ->).
    apply match_exp_sound in Ee. destruct Ee as (x & Hx & <- & ->).
    injection H as <-.
    assert (Hwf : wf_number (NumberLit minus int f x)).
    { unfold wf_number. cbn [num_int num_frac num_exp].
      now rewrite Hint, Hf, Hx. }
    exists (NumberLit minus int f x). split; [exact Hwf|]. split.
    - unfold render_number, render_sign.
      cbn [num_minus num_int num_frac num_exp nm_rest].
      now rewrite <- !app_assoc.
    - intros max_digits.
      exact (number_value_cases max_digits (NumberLit minus int f x) r2 Hwf). }
  assert (Hbody : forall (minus : bool) (s1 : text),
    match s1 with
    | [] => None
    | c :: r =>
        if (c =? 48)%N
        then (let (frac, r1) := match_frac r in
              let (exp, r2) := match_exp r1 in
              Some (NumberMatch ((if minus then [MINUS] else []) ++ [c])
                                frac exp r2))
        else if is_digit c
             then (let (ds0, r') := span_digits r in
                   let (frac, r1) := match_frac r' in
                   let (exp, r2) := match_exp r1 in
                   Some (NumberMatch ((if minus then [MINUS] else []) ++ c :: ds0)
                                     frac exp r2))
             else None
    end = Some m ->
    exists n, wf_number n
              /\ (if minus then [MINUS] else []) ++ s1
                 = render_number n ++ nm_rest m
              /\ forall max_digits,
                   number_value max_digits m
                   = if int_allowed max_digits n then Returns (denote_number n)
                     else Raises (int_from_str_error max_digits
                                    (length (num_int n)))).
  { intros minus [|c r]; [discriminate|].
    destruct (N.eqb_spec c 48) as [->|Hc0].
    - intros H. apply (Hfinish minus [48%N] r eq_refl H).
    - destruct (is_digit c) eqn:Hc; [|discriminate].
      destruct (span_digits r) as [ds r'] eqn:E.
      apply span_digits_sound in E. destruct E as [-> Hds].
      intros H.
      replace (c :: ds ++ r') with ((c :: ds) ++ r') by reflexivity.
      apply (Hfinish minus (c :: ds) r'); [|exact H].
      cbn [int_ok]. apply N.eqb_neq in Hc0. now rewrite Hc0, Hc, Hds. }
  unfold match_number. destruct s as [|c r]; [discriminate|].
  destruct (N.eqb_spec c MINUS) as [->|_].
  - intros H. apply (Hbody true r H).
  - intros H. apply (Hbody false (c :: r) H).
Qed.

Lemma scan_constant_sound (s : text) (v : value) (rest : text) :
  scan_constant s = Returns (v, rest) ->
  exists k, s = render_constant k ++ rest /\ v = JFloat (denote_constant k).
Proof.
  unfold scan_constant.
  destruct (strip_prefix (lit "NaN") s) as [r|] eqn:E1.
  { intros [= <- <-]. exists CNaN. split; [|reflexivity].
    now apply strip_prefix_sound. }
  destruct (strip_prefix (lit "Infinity") s) as [r|] eqn:E2.
  { intros [= <- <-]. exists CInfinity. split; [|reflexivity].
    now apply strip_prefix_sound. }
  destruct (strip_prefix (lit "-Infinity") s) as [r|] eqn:E3; [|discriminate].
  intros [= <- <-]. exists CNegInfinity. split; [|reflexivity].
  now apply strip_prefix_sound.
Qed.

Ltac text_eq :=
  repeat (progress (cbn [app render render_elements render_members];
                    rewrite <- ?app_assoc));
  reflexivity.

Lemma blank_nil : blank [].
Proof. reflexivity. Qed.

(** Whatever the decoder returns, it has read the text of a tree that
    denotes it and is within the limits. *)
Lemma scan_sound (max_digits : nat) (n : nat) :
  (forall d s v rest, scan_once max_digits n d s = Returns (v, rest) ->
     value_of max_digits d s v rest)
  /\ (forall d s pairs rest,
        object_loop max_digits n d s = Returns (pairs, rest) ->
        exists ms, ms <> MNil /\ wf_members true ms
                   /\ DQUOTE :: s = render_members ms ++ rest
                   /\ denote_members ms = pairs
                   /\ (depth_members ms <= d)%nat
                   /\ ints_allowed_members max_digits ms)
  /\ (forall d s vals rest,
        array_loop max_digits n d s = Returns (vals, rest) ->
        exists es, es <> ENil /\ wf_elements true es
                   /\ s = render_elements es ++ rest
                   /\ denote_elements es = vals
                   /\ (depth_elements es <= d)%nat
                   /\ ints_allowed_elements max_digits es).
Proof.
  induction n as [|n (IHs & IHo & IHa)];
    [repeat split; intros; discriminate|].
  split; [|split].
  - (* scan_once *)
    intros d [|c r] v rest H; [discriminate|]. cbn [scan_once] in H.
    destruct (N.eqb_spec c DQUOTE) as [->|_].
    { apply bind_returns in H. destruct H as ([str r'] & Hs & [= <- <-]).
      apply scanstring_sound in Hs. destruct Hs as (items & Hwf & -> & <-).
      exists (CString items). split; [exact Hwf|]. split; [text_eq|].
      split; [reflexivity|]. split; [cbn; lia|exact I]. }
    destruct (N.eqb_spec c LBRACE) as [->|_].
    { destruct d as [|d]; [discriminate|].
      destruct (skip_ws r) as [|c1 r1] eqn:E; [discriminate|].
      apply skip_ws_cons in E. destruct E as (ws & Hws & ->).
      destruct (N.eqb_spec c1 RBRACE) as [->|_].
      { injection H as <- <-. exists (CObject ws MNil).
        split; [now split|]. split; [text_eq|]. split; [reflexivity|].
        split; [cbn; lia|exact I]. }
      destruct (N.eqb_spec c1 DQUOTE) as [->|_]; [|discriminate].
      apply bind_returns in H. destruct H as ([pairs r'] & Ho & [= <- <-]).
      apply IHo in Ho. destruct Ho as (ms & _ & Hwf & E & <- & Hd & Hi).
      exists (CObject ws ms). split; [now split|]. split.
      - cbn [render]. rewrite <- app_comm_cons, <- app_assoc. now rewrite <- E.
      - split; [reflexivity|]. split; [cbn [depth]; lia|exact Hi]. }
    destruct (N.eqb_spec c LBRACKET) as [->|_].
    { destruct d as [|d]; [discriminate|].
      destruct (skip_ws r) as [|c1 r1] eqn:E; [discriminate|].
      apply skip_ws_cons in E. destruct E as (ws & Hws & ->).
      destruct (N.eqb_spec c1 RBRACKET) as [->|_].
      { injection H as <- <-. exists (CArray ws ENil).
        split; [now split|]. split; [text_eq|]. split; [reflexivity|].
        split; [cbn; lia|exact I]. }
      apply bind_returns in H. destruct H as ([vals r'] & Ha & [= <- <-]).
      apply IHa in Ha. destruct Ha as (es & _ & Hwf & E & <- & Hd & Hi).
      exists (CArray ws es). split; [now split|]. split.
      - cbn [render]. rewrite <- app_comm_cons, <- app_assoc. now rewrite <- E.
      - split; [reflexivity|]. split; [cbn [depth]; lia|exact Hi]. }
    destruct (strip_prefix (lit "null") (c :: r)) as [r'|] eqn:E1.
    { injection H as <- <-. apply strip_prefix_sound in E1.
      exists CNull. split; [exact I|]. repeat split; [assumption|cbn; lia]. }
    destruct (strip_prefix (lit "true") (c :: r)) as [r'|] eqn:E2.
    { injection H as <- <-. apply strip_prefix_sound in E2.
      exists CTrue. split; [exact I|]. repeat split; [assumption|cbn; lia]. }
    destruct (strip_prefix (lit "false") (c :: r)) as [r'|] eqn:E3.
    { injection H as <- <-. apply strip_prefix_sound in E3.
      exists CFalse. split; [exact I|]. repeat split; [assumption|cbn; lia]. }
    destruct (match_number (c :: r)) as [m|] eqn:Em.
    { apply bind_returns in H. destruct H as (v' & Hv & [= <- <-]).
      apply match_number_sound in Em.
      destruct Em as (lit & Hwf & E & Hn).
      rewrite Hn in Hv.
      destruct (int_allowed max_digits lit) eqn:Hi; [|discriminate].
      injection Hv as <-.
      exists (CNumber lit). split; [exact Hwf|]. split; [exact E|].
      split; [reflexivity|]. split; [cbn; lia|exact Hi]. }
    apply scan_constant_sound in H. destruct H as (k & E & ->).
    exists (CConst k). split; [reflexivity|]. split; [exact E|].
    split; [reflexivity|]. split; [cbn; lia|exact I].
  - (* object_loop *)
    intros d0 s pairs rest H. cbn [object_loop] in H.
    apply bind_returns in H. destruct H as ([key s1] & Hs & H).
    apply scanstring_sound in Hs. destruct Hs as (items & Hkey & -> & <-).
    destruct (skip_ws s1) as [|c s2] eqn:E; [discriminate|].
    apply skip_ws_cons in E. destruct E as (wk & Hwk & ->).
    destruct (N.eqb_spec c COLON) as [->|_]; [|discriminate].
    apply bind_returns in H. destruct H as ([v s3] & Hv & H).
    apply IHs in Hv. destruct Hv as (t & Hwf & Et & <- & Hdt & Hit).
    destruct (skip_ws_split s2) as (wl & Hwl & E2). rewrite Et in E2. subst s2.
    destruct (skip_ws s3) as [|d s4] eqn:E; [discriminate|].
    apply skip_ws_cons in E. destruct E as (wa & Hwa & ->).
    destruct (N.eqb_spec d RBRACE) as [->|_].
    { injection H as <- <-.
      exists (MCons items wk wl t wa [] MNil). split; [discriminate|].
      split; [repeat split; auto|]. split; [text_eq|]. split; [reflexivity|].
      split; [cbn [depth_members]; lia|now split]. }
    destruct (N.eqb_spec d COMMA) as [->|_]; [|discriminate].
    destruct (skip_ws s4) as [|q s5] eqn:E; [discriminate|].
    apply skip_ws_cons in E. destruct E as (wc & Hwc & ->).
    destruct (N.eqb_spec q DQUOTE) as [->|_]; [|discriminate].
    apply bind_returns in H. destruct H as ([pairs' r'] & Ho & [= <- <-]).
    apply IHo in Ho. destruct Ho as (ms & Hne & Hms & E & <- & Hdm & Him).
    exists (MCons items wk wl t wa wc ms). split; [discriminate|].
    split; [repeat split; auto|]. split.
    + destruct ms as [|k' wk' wl' v' wa' wc' ms']; [congruence|].
      cbn [render_members]. cbn [render_members] in E.
      rewrite <- !app_comm_cons, <- !app_assoc.
      rewrite <- !app_comm_cons, <- !app_assoc.
      rewrite <- !app_comm_cons, <- !app_assoc.
      rewrite <- !app_comm_cons, <- !app_assoc.
      rewrite <- app_comm_cons in E. rewrite E.
      repeat (rewrite <- ?app_comm_cons, <- ?app_assoc). reflexivity.
    + split; [reflexivity|]. split; [cbn [depth_members]; lia|now split].
  - (* array_loop *)
    intros d0 s vals rest H. cbn [array_loop] in H.
    apply bind_returns in H. destruct H as ([v s1] & Hv & H).
    apply IHs in Hv. destruct Hv as (t & Hwf & -> & <- & Hdt & Hit).
    destruct (skip_ws s1) as [|d s2] eqn:E; [discriminate|].
    apply skip_ws_cons in E. destruct E as (wa & Hwa & ->).
    destruct (N.eqb_spec d RBRACKET) as [->|_].
    { injection H as <- <-.
      exists (ECons t wa [] ENil). split; [discriminate|].
      split; [repeat split; auto|]. split; [text_eq|]. split; [reflexivity|].
      split; [cbn [depth_elements]; lia|now split]. }
    destruct (N.eqb_spec d COMMA) as [->|_]; [|discriminate].
    apply bind_returns in H. destruct H as ([vals' r'] & Ha & [= <- <-]).
    apply IHa in Ha. destruct Ha as (es & Hne & Hes & E & <- & Hde & Hie).
    destruct (skip_ws_split s2) as (wc & Hwc & E2). rewrite E in E2. subst s2.
    exists (ECons t wa wc es). split; [discriminate|].
    split; [repeat split; auto|]. split.
    + destruct es as [|v' wa' wc' es']; [congruence|].
      cbn [render_elements]. rewrite <- !app_assoc.
      rewrite <- !app_comm_cons, <- !app_assoc. reflexivity.
    + split; [reflexivity|]. split; [cbn [depth_elements]; lia|now split].
Qed.

Lemma loads_cases (interp : interpreter) (s : text) :
  (exists m, loads interp s = Raises (JSONDecodeError m))
  \/ loads interp s
     = Py.bind (scan_once (int_max_str_digits interp) (fuel_for s)
                  (S (decode_room interp)) (skip_ws s))
         (fun '(obj, rest) =>
            match skip_ws rest with
            | [] => Returns obj
            | _ :: _ => Raises (JSONDecodeError (lit "Extra data"))
            end).
Proof.
  unfold loads. destruct s as [|c r]; [now right|].
  destruct c as [|p]; [now right|].
  repeat (destruct p as [p|p|]; try (now right)). left. eauto.
Qed.

(** [json.loads] returns a value only for a text of the grammar that is
    within the limits of the interpreter, and the value is the one the
    text denotes. *)
Lemma loads_sound (interp : interpreter) (s : text) (v : value) :
  loads interp s = Returns v ->
  exists ws1 t ws2,
    blank ws1 /\ blank ws2 /\ wf true t /\ s = ws1 ++ render t ++ ws2
    /\ denote t = v /\ within interp t.
Proof.
  intros H. destruct (loads_cases interp s) as [[m Hm]|Hb]; [congruence|].
  rewrite Hb in H. apply bind_returns in H.
  destruct H as ([obj rest] & Hs & H).
  destruct (skip_ws rest) eqn:E; [|discriminate]. injection H as ->.
  apply skip_ws_nil in E.
  apply (proj1 (scan_sound _ _)) in Hs.
  destruct Hs as (t & Hwf & Et & <- & Hd & Hi).
  destruct (skip_ws_split s) as (ws1 & Hws1 & Es). rewrite Et in Es.
  exists ws1, t, rest. repeat split; assumption.
Qed.

(** [json.loads] returns exactly on the texts of the grammar that are
    within the limits of the interpreter. *)
Lemma loads_accepts (interp : interpreter) (s : text) :
  (exists ws1 t ws2,
     blank ws1 /\ blank ws2 /\ wf true t /\ within interp t
     /\ s = ws1 ++ render t ++ ws2)
  <-> exists v, loads interp s = Returns v.
Proof.
  split.
  - intros (ws1 & t & ws2 & H1 & H2 & Hwf & Hin & ->).
    exists (denote t). now apply loads_complete with true.
  - intros (v & H).
    destruct (loads_sound interp s v H)
      as (ws1 & t & ws2 & ? & ? & ? & ? & _ & ?).
    exists ws1, t, ws2. auto.
Qed.


Lemma valid_json_python (s : text) : valid_json s -> python_json s.
Proof.
  intros (ws1 & t & ws2 & H1 & H2 & Hwf & ->).
  exists ws1, t, ws2. repeat split; auto. now apply (proj1 (wf_weaken false)).
Qed.

(** ** Round trip through the extractor *)

Lemma render_members_end (ms : members) :
  exists body, render_members ms = body ++ [RBRACE].
Proof.
  induction ms as [|key wk wl v wa wc rest [body IH]].
  - now exists [].
  - cbn [render_members]. destruct rest.
    + eexists. rewrite !app_comm_cons, !app_assoc. reflexivity.
    + rewrite IH. eexists.
      rewrite !app_comm_cons, !app_assoc. reflexivity.
Qed.

Lemma span_of_embedded (pre mid post : text) :
  ~ In LBRACE pre -> ~ In RBRACE post ->
  span (pre ++ (LBRACE :: mid ++ [RBRACE]) ++ post) = LBRACE :: mid ++ [RBRACE].
Proof.
  intros Hpre Hpost. unfold span.
  assert (E1 : str_find (pre ++ (LBRACE :: mid ++ [RBRACE]) ++ post) LBRACE
               = Z.of_nat (length pre)).
  { cbn [app]. now apply str_find_app. }
  assert (E2 : str_rfind (pre ++ (LBRACE :: mid ++ [RBRACE]) ++ post) RBRACE
               = Z.of_nat (length pre + length (LBRACE :: mid))).
  { replace (pre ++ (LBRACE :: mid ++ [RBRACE]) ++ post)
      with ((pre ++ LBRACE :: mid) ++ RBRACE :: post).
    - rewrite (str_rfind_app _ post RBRACE Hpost). now rewrite length_app.
    - repeat (rewrite <- app_assoc || rewrite <- app_comm_cons).
      reflexivity. }
  rewrite E1, E2.
  replace (Z.of_nat (length pre + length (LBRACE :: mid)) + 1)
    with (Z.of_nat (length pre) + Z.of_nat (length (LBRACE :: mid ++ [RBRACE]))).
  - apply slice_middle.
  - cbn [length]. rewrite length_app. cbn [length]. lia.
Qed.

(** An object embedded in text without braces comes back as the value its
    text denotes, within the limits of the interpreter. *)
Lemma extract_json_embedded (interp : interpreter) (ext : bool)
      (pre post : text) (t : cst) :
  wf ext t -> within interp t -> is_object t = true ->
  ~ In LBRACE pre -> ~ In RBRACE post ->
  Convert.extract_json interp (pre ++ render t ++ post) = Returns (denote t).
Proof.
  intros Hwf Hin Hobj Hpre Hpost.
  destruct t as [| | | | | |ws ms|ws ms]; try discriminate.
  destruct (render_members_end ms) as [body Hb].
  assert (Hr : render (CObject ws ms) = LBRACE :: (ws ++ body) ++ [RBRACE]).
  { cbn [render]. rewrite Hb. now rewrite app_assoc. }
  rewrite extract_json_unfold.
  rewrite Hr, (span_of_embedded pre (ws ++ body) post Hpre Hpost).
  cbn [app]. rewrite (str_find_app pre _ LBRACE Hpre).
  destruct (Z.eqb_spec (Z.of_nat (length pre)) (-1)) as [E|_]; [lia|].
  rewrite <- Hr.
  pose proof (loads_complete interp ext [] [] (CObject ws ms)
                blank_nil blank_nil Hwf Hin) as Hl.
  cbn [app] in Hl. rewrite app_nil_r in Hl. now rewrite Hl.
Qed.

(** ** Texts that cannot reach the limits *)


Lemma exceeds_no_limit (n : nat) : exceeds_digit_limit 0 n = false.
Proof. unfold exceeds_digit_limit. now rewrite andb_false_r. Qed.








Lemma suffix_app (p a : text) : suffix_of a (p ++ a).
Proof. now exists p. Qed.

Lemma suffix_skip_ws (s : text) : suffix_of (skip_ws s) s.
Proof. destruct (skip_ws_split s) as (ws & _ & E). now exists ws. Qed.

Lemma suffix_scanstring (s str rest : text) :
  scanstring s = Returns (str, rest) -> suffix_of rest s.
Proof.
  intros H. apply scanstring_sound in H. destruct H as (items & _ & -> & _).
  exists (render_items items ++ [DQUOTE]). now rewrite <- app_assoc.
Qed.

Lemma suffix_scan_once (max_digits n d : nat) (s : text) (v : value)
      (rest : text) :
  scan_once max_digits n d s = Returns (v, rest) -> suffix_of rest s.
Proof.
  intros H. apply (proj1 (scan_sound _ _)) in H.
  destruct H as (t & _ & -> & _). apply suffix_app.
Qed.








(** ** The fuel of the scanner *)

Lemma suffix_length (a b : text) : suffix_of a b -> (length a <= length b)%nat.
Proof. intros [p ->]. rewrite length_app. lia. Qed.

Lemma skip_ws_length (s : text) : (length (skip_ws s) <= length s)%nat.
Proof. apply suffix_length, suffix_skip_ws. Qed.

Lemma skip_ws_cons_length (s : text) (c : char) (r : text) :
  skip_ws s = c :: r -> (S (length r) <= length s)%nat.
Proof.
  intros H. pose proof (skip_ws_length s) as Hl. rewrite H in Hl. exact Hl.
Qed.

(** The fuel [json.loads] gives the scanner is never used up: with twice
    the length of the text and one, more fuel changes nothing. *)
Lemma scan_fuel (max_digits : nat) (n : nat) :
  (forall m d s, (2 * length s + 1 <= n)%nat -> (n <= m)%nat ->
     scan_once max_digits m d s = scan_once max_digits n d s)
  /\ (forall m d s, (2 * length s + 2 <= n)%nat -> (n <= m)%nat ->
        object_loop max_digits m d s = object_loop max_digits n d s)
  /\ (forall m d s, (2 * length s + 2 <= n)%nat -> (n <= m)%nat ->
        array_loop max_digits m d s = array_loop max_digits n d s).
Proof.
  induction n as [|n (IHs & IHo & IHa)]; [repeat split; intros; lia|].
  split; [|split].
  - (* scan_once *)
    intros [|m] d s Hn Hm; [lia|].
    destruct s as [|c r]; [reflexivity|]. cbn [length] in Hn.
    cbn [scan_once].
    destruct (N.eqb c DQUOTE); [reflexivity|].
    destruct (N.eqb c LBRACE).
    { destruct d as [|inner]; [reflexivity|].
      destruct (skip_ws r) as [|c1 r1] eqn:E; [reflexivity|].
      apply skip_ws_cons_length in E.
      destruct (N.eqb c1 RBRACE); [reflexivity|].
      destruct (N.eqb c1 DQUOTE); [|reflexivity].
      now rewrite (IHo m inner r1) by lia. }
    destruct (N.eqb c LBRACKET).
    { destruct d as [|inner]; [reflexivity|].
      destruct (skip_ws r) as [|c1 r1] eqn:E; [reflexivity|].
      apply skip_ws_cons_length in E.
      destruct (N.eqb c1 RBRACKET); [reflexivity|].
      now rewrite (IHa m inner (c1 :: r1)) by (cbn [length]; lia). }
    reflexivity.
  - (* object_loop *)
    intros [|m] d s Hn Hm; [lia|]. cbn [object_loop].
    destruct (scanstring s) as [[key s1]|e] eqn:Ek; [|reflexivity].
    cbn [Py.bind]. apply suffix_scanstring, suffix_length in Ek.
    destruct (skip_ws s1) as [|c s2] eqn:E1; [reflexivity|].
    apply skip_ws_cons_length in E1.
    destruct (N.eqb c COLON); [|reflexivity].
    pose proof (skip_ws_length s2) as H2.
    rewrite (IHs m d (skip_ws s2)) by lia.
    destruct (scan_once max_digits n d (skip_ws s2)) as [[v s3]|e] eqn:Ev;
      [|reflexivity].
    cbn [Py.bind]. apply suffix_scan_once, suffix_length in Ev.
    destruct (skip_ws s3) as [|c3 s4] eqn:E3; [reflexivity|].
    apply skip_ws_cons_length in E3.
    destruct (N.eqb c3 RBRACE); [reflexivity|].
    destruct (N.eqb c3 COMMA); [|reflexivity].
    destruct (skip_ws s4) as [|q s5] eqn:E4; [reflexivity|].
    apply skip_ws_cons_length in E4.
    destruct (N.eqb q DQUOTE); [|reflexivity].
    now rewrite (IHo m d s5) by lia.
  - (* array_loop *)
    intros [|m] d s Hn Hm; [lia|]. cbn [array_loop].
    rewrite (IHs m d s) by lia.
    destruct (scan_once max_digits n d s) as [[v s1]|e] eqn:Ev; [|reflexivity].
    cbn [Py.bind]. apply suffix_scan_once, suffix_length in Ev.
    destruct (skip_ws s1) as [|c1 s2] eqn:E1; [reflexivity|].
    apply skip_ws_cons_length in E1.
    destruct (N.eqb c1 RBRACKET); [reflexivity|].
    destruct (N.eqb c1 COMMA); [|reflexivity].
    pose proof (skip_ws_length s2) as H2.
    now rewrite (IHa m d (skip_ws s2)) by lia.
Qed.

(** [json.loads] with any more fuel. *)
Lemma loads_fuel (interp : interpreter) (s : text) (m : nat) :
  (fuel_for s <= m)%nat ->
  scan_once (int_max_str_digits interp) m (S (decode_room interp)) (skip_ws s)
  = scan_once (int_max_str_digits interp) (fuel_for s)
      (S (decode_room interp)) (skip_ws s).
Proof.
  intros Hm. apply (proj1 (scan_fuel _ _)); [|exact Hm].
  unfold fuel_for. pose proof (skip_ws_length s). lia.
Qed.

(** ** What the extractor does with a text [json.loads] does not accept *)

Lemma slice_to_zero (s : text) (a : Z) : slice s a 0 = [].
Proof.
  unfold slice, slice_index. cbn [Z.ltb Z.compare].
  destruct (Z.ltb_spec a 0);
    match goal with |- context [if ?c then _ else _] => destruct c eqn:E end;
    try reflexivity; apply Z.ltb_lt in E; lia.
Qed.



(** ** Texts of RFC 8259 denote no constant *)






Lemma ints_allowed_no_limit :
  (forall t, ints_allowed 0 t)
  /\ (forall es, ints_allowed_elements 0 es)
  /\ (forall ms, ints_allowed_members 0 ms).
Proof.
  apply cst_mutind; cbn [ints_allowed ints_allowed_elements
                         ints_allowed_members]; intros; auto.
  unfold int_allowed. destruct (num_frac n), (num_exp n); try reflexivity.
  now rewrite exceeds_no_limit.
Qed.



(** ** The body of a response *)


Lemma utf8_from_surrogate (s : text) :
  forall position bytes, Starlette.utf8_from position s = Returns bytes ->
  existsb Starlette.is_surrogate s = false.
Proof.
  induction s as [|c r IH]; intros position bytes H; [reflexivity|].
  cbn [Starlette.utf8_from] in H. cbn [existsb].
  destruct (Starlette.is_surrogate c); [discriminate|].
  destruct (Starlette.utf8_from (S position) r) as [b|e] eqn:E; [|discriminate].
  exact (IH _ _ E).
Qed.





Lemma renders_error_body_inv (interp : interpreter) (float_repr : text -> text)
      (e : exn) :
  renders interp float_repr (error_body e) -> encodable (str_of_exn e) = true.
Proof.
  intros [body H]. unfold Starlette.render, error_body in H.
  cbn [Starlette.encode Py.bind join] in H.
  apply utf8_from_surrogate in H. cbn [existsb] in H.
  rewrite !existsb_app in H. cbn [existsb] in H.
  unfold Starlette.encode_basestring in H at 2. cbn [existsb] in H.
  rewrite existsb_app in H.
  repeat (apply orb_false_iff in H; destruct H as [? H]).
  repeat match goal with
         | H : (_ || _)%bool = false |- _ =>
             apply orb_false_iff in H; destruct H
         end.
  unfold encodable. apply negb_true_iff.
  destruct (existsb Starlette.is_surrogate (str_of_exn e)) eqn:E; [|reflexivity].
  apply existsb_exists in E. destruct E as (c & Hin & Hc).
  assert (Hex : existsb Starlette.is_surrogate
                  (flat_map Starlette.escape_char (str_of_exn e)) = true).
  { apply existsb_exists. exists c. split; [|exact Hc].
    apply in_flat_map. exists c. split; [exact Hin|].
    unfold Starlette.escape_char.
    assert (Hge : (55296 <= c)%N).
    { unfold Starlette.is_surrogate in Hc. apply andb_prop in Hc.
      destruct Hc as [Hc _]. now apply N.leb_le in Hc. }
    repeat match goal with
           | |- context [if (c =? ?k)%N then _ else _] =>
               destruct (N.eqb_spec c k); [lia|]
           end.
    destruct (N.ltb_spec c 32); [lia|]. now left. }
  congruence.
Qed.

Lemma renders_invalid_input (interp : interpreter) (float_repr : text -> text) :
  renders interp float_repr
    (JObj [(lit "error", JStr (lit "Invalid JSON input"))]).
Proof. eexists. reflexivity. Qed.


Lemma renders_empty (interp : interpreter) (float_repr : text -> text) :
  renders interp float_repr (JObj []).
Proof. eexists. reflexivity. Qed.

Lemma JSONResponse_init_renders (interp : interpreter)
      (float_repr : text -> text) (content : value) (status_code : Z) :
  renders interp float_repr content ->
  Convert.JSONResponse_init interp float_repr content status_code
  = Returns {| Convert.content := content;
               Convert.status_code := status_code |}.
Proof. intros [body H]. unfold Convert.JSONResponse_init. now rewrite H. Qed.

Lemma JSONResponse_init_returns (interp : interpreter)
      (float_repr : text -> text) (content : value) (status_code : Z)
      (r : Convert.JSONResponse) :
  Convert.JSONResponse_init interp float_repr content status_code = Returns r ->
  r = {| Convert.content := content; Convert.status_code := status_code |}
  /\ renders interp float_repr content.
Proof.
  unfold Convert.JSONResponse_init, renders.
  destruct (Starlette.render _ _ _) as [body|e]; [|discriminate].
  intros [= <-]. eauto.
Qed.

(** ** The handlers *)

Arguments lit : simpl never.
Arguments Convert.identify_fields_prompt : simpl never.
Arguments Convert.dataset_name_prompt : simpl never.
Arguments DruidService.rollup_prompt : simpl never.
Arguments Convert.extract_json : simpl never.
Arguments DruidService.extract_json : simpl never.
Arguments Convert.JSONResponse_init : simpl never.

Section Handlers.
Import Convert.
Variable interp : interpreter.
Variable float_repr : text -> text.
Variable S : Type.
Variable P : provider S.
Variable st : S.

Lemma analyze_event_run (request : Request) (payload : value) :
  request_json request = Returns payload ->
  run P st (analyze_event interp float_repr request)
  = if is_dict payload
    then (after_call interp
            (reply_of P st (identify_fields_prompt float_repr payload))
            (fun v => JSONResponse_init interp float_repr v 200),
          [Called (identify_fields_prompt float_repr payload) 500])
    else (Returns {| content := JObj [(lit "error",
                                       JStr (lit "Invalid JSON input"))];
                     status_code := 400 |}, []).
Proof.
  intros Hreq. unfold analyze_event, identify_fields, get_ai_response, reply_of.
  rewrite Hreq. cbn. destruct (is_dict payload).
  - cbn. destruct (answer P st _ 500) as [[response|e] st']; cbn.
    + destruct (extract_json interp response) as [v|e]; cbn;
        [reflexivity|]. destruct (isinstance_Exception e); reflexivity.
    + destruct (isinstance_Exception e); reflexivity.
  - cbn. now rewrite (JSONResponse_init_renders _ _ _ _
                        (renders_invalid_input interp float_repr)).
Qed.

Lemma suggest_dataset_name_run (request : Request) (payload : value) :
  request_json request = Returns payload ->
  run P st (suggest_dataset_name interp float_repr request)
  = (after_call interp (reply_of P st (dataset_name_prompt float_repr payload))
       (fun v => JSONResponse_init interp float_repr
                   (if truthy v then v else default_names) 200),
     [Called (dataset_name_prompt float_repr payload) 500]).
Proof.
  intros Hreq. unfold suggest_dataset_name, get_ai_response, reply_of.
  rewrite Hreq. cbn.
  destruct (answer P st _ 500) as [[response|e] st']; cbn.
  - destruct (extract_json interp response) as [v|e]; cbn;
      [reflexivity|]. destruct (isinstance_Exception e); reflexivity.
  - destruct (isinstance_Exception e); reflexivity.
Qed.

Lemma suggest_druid_rollups_run (request : Request) (payload : value) :
  request_json request = Returns payload ->
  run P st (suggest_druid_rollups interp float_repr request)
  = (after_call interp
       (reply_of P st (DruidService.rollup_prompt float_repr payload))
       (fun v => JSONResponse_init interp float_repr v 200),
     Called (DruidService.rollup_prompt float_repr payload) 500
     :: match reply_of P st (DruidService.rollup_prompt float_repr payload) with
        | Returns response => [Printed response]
        | Raises _ => []
        end).
Proof.
  intros Hreq.
  unfold suggest_druid_rollups,
    DruidService.suggest_druid_rollups_and_ingestion_spec, reply_of.
  rewrite Hreq. cbn.
  destruct (answer P st _ 500) as [[response|e] st']; cbn.
  - change (DruidService.extract_json interp response)
      with (extract_json interp response).
    destruct (extract_json interp response) as [v|e]; cbn;
      [reflexivity|]. destruct (isinstance_Exception e); reflexivity.
  - destruct (isinstance_Exception e); reflexivity.
Qed.

End Handlers.

(** ** What [json.dumps] writes is read back *)

Lemma hex_digit_val (d : N) : (d < 16)%N -> hex_val (hex_digit d) = Some d.
Proof.
  intros H.
  assert (Hd : (d = 0 \/ d = 1 \/ d = 2 \/ d = 3 \/ d = 4 \/ d = 5 \/ d = 6
                \/ d = 7 \/ d = 8 \/ d = 9 \/ d = 10 \/ d = 11 \/ d = 12
                \/ d = 13 \/ d = 14 \/ d = 15)%N) by lia.
  repeat (destruct Hd as [->|Hd]; [reflexivity|]). subst d. reflexivity.
Qed.

Lemma nibble (n : N) (k : N) :
  N.land (N.shiftr n k) 15 = ((n / 2 ^ k) mod 16)%N.
Proof.
  rewrite N.shiftr_div_pow2. change 15%N with (N.ones 4).
  now rewrite N.land_ones.
Qed.

Lemma uni_item_value (n : N) :
  (n < 65536)%N ->
  wf_sitem (uni_item n) = true
  /\ match uni_item n with SUni a b c d => unit4 a b c d = n | _ => False end.
Proof.
  intros Hn. unfold uni_item, wf_sitem, unit4.
  replace (N.land n 15) with (N.land (N.shiftr n 0) 15) by now rewrite N.shiftr_0_r.
  rewrite !nibble. unfold hex4.
  rewrite !hex_digit_val by (apply N.mod_lt; discriminate).
  split; [reflexivity|].
  change (2 ^ 12)%N with 4096%N. change (2 ^ 8)%N with 256%N.
  change (2 ^ 4)%N with 16%N. change (2 ^ 0)%N with 1%N.
  rewrite N.div_1_r.
  pose proof (N.div_mod n 16 ltac:(discriminate)).
  pose proof (N.div_mod (n / 16) 16 ltac:(discriminate)).
  pose proof (N.div_mod (n / 16 / 16) 16 ltac:(discriminate)).
  pose proof (N.mod_lt n 16 ltac:(discriminate)).
  pose proof (N.mod_lt (n / 16) 16 ltac:(discriminate)).
  pose proof (N.mod_lt (n / 16 / 16) 16 ltac:(discriminate)).
  assert (E1 : (n / 256 = n / 16 / 16)%N) by (now rewrite N.Div0.div_div).
  assert (E2 : (n / 4096 = n / 16 / 16 / 16)%N)
    by (now rewrite !N.Div0.div_div).
  rewrite E1, E2.
  assert (Hs : (n / 16 / 16 / 16 < 16)%N).
  { rewrite !N.Div0.div_div. apply N.Div0.div_lt_upper_bound.
    simpl. exact Hn. }
  rewrite (N.mod_small (n / 16 / 16 / 16) 16 Hs).
  pose proof (N.div_mod (n / 16 / 16) 16 ltac:(discriminate)).
  lia.
Qed.

Lemma below_1024 (f : N -> bool) :
  forallb f (map N.of_nat (seq 0 1024)) = true ->
  forall x, (x < 1024)%N -> f x = true.
Proof.
  intros H x Hx. rewrite forallb_forall in H. apply H.
  rewrite <- (N2Nat.id x). apply in_map. apply in_seq. lia.
Qed.

Lemma lor_surrogate_base (x : N) :
  (x < 1024)%N ->
  N.lor 55296 x = (55296 + x)%N /\ N.lor 56320 x = (56320 + x)%N.
Proof.
  intros Hx.
  pose proof (below_1024
    (fun x => (N.lor 55296 x =? 55296 + x)%N && (N.lor 56320 x =? 56320 + x)%N)
    ltac:(vm_compute; reflexivity) x Hx) as H.
  cbv beta in H. apply andb_prop in H. destruct H as [H1 H2].
  now apply N.eqb_eq in H1, H2.
Qed.

(** The two escapes the encoder writes for a character beyond the basic
    plane are a surrogate pair that joins back to the character. *)
Lemma surrogate_pair (c : N) :
  (65536 <= c < 1114112)%N ->
  let n := (c - 65536)%N in
  let hi := N.lor 55296 (N.land (N.shiftr n 10) 1023) in
  let lo := N.lor 56320 (N.land n 1023) in
  (hi < 65536)%N /\ (lo < 65536)%N
  /\ is_high_surrogate hi = true /\ is_low_surrogate lo = true
  /\ join_surrogates hi lo = c.
Proof.
  intros Hc n hi lo.
  assert (Hn : (n < 1048576)%N) by (unfold n; lia).
  assert (Hx : N.land (N.shiftr n 10) 1023 = N.shiftr n 10).
  { change 1023%N with (N.ones 10). rewrite N.land_ones.
    apply N.mod_small. rewrite N.shiftr_div_pow2.
    apply N.Div0.div_lt_upper_bound. exact Hn. }
  assert (Hx' : (N.shiftr n 10 < 1024)%N).
  { rewrite N.shiftr_div_pow2. apply N.Div0.div_lt_upper_bound.
    exact Hn. }
  assert (Hy : (N.land n 1023 < 1024)%N).
  { change 1023%N with (N.ones 10). rewrite N.land_ones.
    apply N.mod_lt. discriminate. }
  assert (Ehi : hi = (55296 + N.shiftr n 10)%N).
  { unfold hi. rewrite Hx. now apply lor_surrogate_base. }
  assert (Elo : lo = (56320 + N.land n 1023)%N).
  { unfold lo. now apply lor_surrogate_base. }
  repeat split.
  - lia.
  - lia.
  - unfold is_high_surrogate. apply andb_true_intro.
    split; apply N.leb_le; lia.
  - unfold is_low_surrogate. apply andb_true_intro.
    split; apply N.leb_le; lia.
  - unfold join_surrogates. rewrite Ehi, Elo.
    replace (55296 + N.shiftr n 10 - 55296)%N with (N.shiftr n 10) by lia.
    replace (56320 + N.land n 1023 - 56320)%N with (N.land n 1023) by lia.
    change 1023%N with (N.ones 10).
    rewrite <- N.ldiff_ones_r, N.lor_ldiff_and. unfold n. lia.
Qed.

Lemma render_items_of_char (c : char) :
  render_items (items_of_char c) = escape_char c.
Proof.
  unfold items_of_char, escape_char.
  repeat match goal with
         | |- context [if ?b then _ else _] => destruct b; [reflexivity|]
         end.
  reflexivity.
Qed.

Lemma render_items_app (a b : list sitem) :
  render_items (a ++ b) = render_items a ++ render_items b.
Proof. unfold render_items. apply flat_map_app. Qed.

Lemma render_items_of_string (s : text) :
  render_items (flat_map items_of_char s) = flat_map escape_char s.
Proof.
  induction s as [|c r IH]; [reflexivity|].
  cbn [flat_map]. now rewrite render_items_app, render_items_of_char, IH.
Qed.

Lemma wf_items_app (a b : list sitem) :
  wf_items a -> wf_items b -> wf_items (a ++ b).
Proof. unfold wf_items. rewrite forallb_app. now intros -> ->. Qed.

(** The items of one character, by cases. *)
Lemma items_of_char_cases (c : char) :
  (c < 1114112)%N ->
  (exists i, items_of_char c = [i] /\ wf_sitem i = true
             /\ first_unit [i] = None
             /\ forall R, denote_items (i :: R) = c :: denote_items R)
  \/ ((c < 65536)%N /\ items_of_char c = [uni_item c])
  \/ ((65536 <= c)%N
      /\ items_of_char c
         = [uni_item (N.lor 55296 (N.land (N.shiftr (c - 65536) 10) 1023));
            uni_item (N.lor 56320 (N.land (c - 65536) 1023))]).
Proof.
  intros Hc. unfold items_of_char.
  destruct (N.eqb_spec c 92) as [->|H92];
    [left; exists (SEsc 92%N); repeat split; reflexivity|].
  destruct (N.eqb_spec c 34) as [->|H34];
    [left; exists (SEsc 34%N); repeat split; reflexivity|].
  destruct (N.eqb_spec c 8) as [->|_];
    [left; exists (SEsc 98%N); repeat split; reflexivity|].
  destruct (N.eqb_spec c 12) as [->|_];
    [left; exists (SEsc 102%N); repeat split; reflexivity|].
  destruct (N.eqb_spec c 10) as [->|_];
    [left; exists (SEsc 110%N); repeat split; reflexivity|].
  destruct (N.eqb_spec c 13) as [->|_];
    [left; exists (SEsc 114%N); repeat split; reflexivity|].
  destruct (N.eqb_spec c 9) as [->|_];
    [left; exists (SEsc 116%N); repeat split; reflexivity|].
  destruct ((32 <=? c)%N && (c <=? 126)%N) eqn:Hp.
  { left. exists (SRaw c). repeat split; try reflexivity.
    apply andb_prop in Hp. destruct Hp as [Hp _].
    cbn [wf_sitem]. apply N.eqb_neq in H92, H34. now rewrite H92, H34, Hp. }
  destruct (N.ltb_spec c 65536) as [Hlt|Hge]; [right; left|right; right];
    now split.
Qed.

Lemma first_unit_app (a b : list sitem) :
  a <> [] -> first_unit (a ++ b) = first_unit a.
Proof. destruct a; [congruence|reflexivity]. Qed.

Lemma uni_item_unit (n : N) :
  (n < 65536)%N -> first_unit [uni_item n] = Some n.
Proof.
  intros Hn. destruct (uni_item_value n Hn) as [_ H].
  unfold uni_item in *. cbn [first_unit]. now rewrite H.
Qed.

Lemma wf_items_of_char (c : char) :
  (c < 1114112)%N -> wf_items (items_of_char c).
Proof.
  intros Hc.
  destruct (items_of_char_cases c Hc) as [(i & -> & Hi & _)|[[Hlt ->]|[Hge ->]]].
  - unfold wf_items. cbn. now rewrite Hi.
  - unfold wf_items. cbn [forallb].
    now rewrite (proj1 (uni_item_value c Hlt)).
  - destruct (surrogate_pair c (conj Hge Hc)) as (Hhi & Hlo & _).
    unfold wf_items. cbn [forallb].
    now rewrite (proj1 (uni_item_value _ Hhi)), (proj1 (uni_item_value _ Hlo)).
Qed.

(** The first escape of what the encoder writes for a character is the
    character itself or a high surrogate. *)
Lemma first_unit_of_char (c : char) (R : list sitem) :
  (c < 1114112)%N ->
  match first_unit (items_of_char c ++ R) with
  | Some u => u = c \/ is_low_surrogate u = false
  | None => True
  end.
Proof.
  intros Hc.
  destruct (items_of_char_cases c Hc) as [(i & -> & _ & Hi & _)|[[Hlt ->]|[Hge ->]]].
  - rewrite first_unit_app by discriminate. now rewrite Hi.
  - rewrite first_unit_app by discriminate.
    rewrite (uni_item_unit c Hlt). now left.
  - destruct (surrogate_pair c (conj Hge Hc)) as (Hhi & _ & Hh & _).
    cbn [app]. change (first_unit (?a :: ?b :: R)) with (first_unit [a]).
    rewrite (uni_item_unit _ Hhi). right.
    unfold is_high_surrogate, is_low_surrogate in *.
    apply andb_prop in Hh. destruct Hh as [H1 H2].
    apply N.leb_le in H1, H2. apply andb_false_intro1. apply N.leb_gt. lia.
Qed.

Lemma denote_items_of_char (c : char) (R : list sitem) :
  (c < 1114112)%N ->
  (is_high_surrogate c = true ->
   match first_unit R with
   | Some u => is_low_surrogate u = false
   | None => True
   end) ->
  denote_items (items_of_char c ++ R) = c :: denote_items R.
Proof.
  intros Hc Hnext.
  destruct (items_of_char_cases c Hc) as [(i & -> & _ & _ & Hi)|[[Hlt ->]|[Hge ->]]].
  - apply Hi.
  - destruct (uni_item_value c Hlt) as [Hwf Hu]. unfold uni_item in *.
    cbn [app]. cbn [wf_sitem] in Hwf.
    destruct (hex4 _ _ _ _) as [u|] eqn:Hhex; [|discriminate].
    unfold unit4 in Hu. rewrite Hhex in Hu. subst u.
    apply denote_uni_single; [exact Hhex|].
    destruct (is_high_surrogate c) eqn:Hh; [right|now left].
    specialize (Hnext eq_refl).
    destruct R as [|[?|?|e f g h] R']; try exact I. exact Hnext.
  - destruct (surrogate_pair c (conj Hge Hc)) as (Hhi & Hlo & Hh & Hl & Hj).
    destruct (uni_item_value _ Hhi) as [_ Hu1].
    destruct (uni_item_value _ Hlo) as [_ Hu2].
    unfold uni_item in *. cbn [app denote_items]. cbn zeta.
    rewrite Hu1, Hu2, Hh, Hl. cbn [andb]. now rewrite Hj.
Qed.

Lemma plain_string_cons (c : char) (r : text) :
  plain_string (c :: r) = true ->
  (c < 1114112)%N /\ plain_string r = true
  /\ (is_high_surrogate c = true ->
      match r with c' :: _ => is_low_surrogate c' = false | [] => True end).
Proof.
  cbn [plain_string]. intros H.
  apply andb_prop in H. destruct H as [H Hr].
  apply andb_prop in H. destruct H as [Hc Hs].
  apply N.ltb_lt in Hc. repeat split; try assumption.
  intros Hh. rewrite Hh in Hs. destruct r as [|c' r']; [exact I|].
  cbn [andb] in Hs. now apply negb_true_iff in Hs.
Qed.

(** A plain string comes back from its encoding. *)
Lemma string_round_trip (s : text) :
  plain_string s = true ->
  wf_items (flat_map items_of_char s)
  /\ denote_items (flat_map items_of_char s) = s.
Proof.
  induction s as [|c r IH]; intros Hs; [now split|].
  destruct (plain_string_cons c r Hs) as (Hc & Hr & Hnext).
  destruct (IH Hr) as [IHwf IHd]. cbn [flat_map]. split.
  - apply wf_items_app; [now apply wf_items_of_char|exact IHwf].
  - rewrite denote_items_of_char; [now rewrite IHd|exact Hc|].
    intros Hh. specialize (Hnext Hh).
    destruct r as [|c' r']; [exact I|].
    cbn [flat_map].
    apply plain_string_cons in Hr. destruct Hr as (Hc' & _ & _).
    pose proof (first_unit_of_char c' (flat_map items_of_char r') Hc') as Hf.
    destruct (first_unit _) as [u|]; [|exact I].
    destruct Hf as [->|Hf]; assumption.
Qed.

Lemma digits_value_acc (d : Decimal.uint) (acc : positive) :
  fold_left (fun a c => 10 * a + (Z.of_N c - 48)) (uint_text d) (Zpos acc)
  = Zpos (Pos.of_uint_acc d acc).
Proof.
  revert acc. induction d; intros acc; cbn [uint_text fold_left Pos.of_uint_acc];
    try reflexivity;
    match goal with
    | |- fold_left _ _ ?z = _ =>
        match goal with
        | |- _ = Zpos (Pos.of_uint_acc _ ?p) =>
            replace z with (Zpos p) by lia; apply IHd
        end
    end.
Qed.

Lemma digits_value_uint (d : Decimal.uint) :
  digits_value (uint_text d) = Z.of_N (Pos.of_uint d).
Proof.
  unfold digits_value.
  induction d; cbn [uint_text fold_left Pos.of_uint]; try reflexivity;
    try (exact IHd);
    match goal with
    | |- fold_left _ _ ?z = Z.of_N (Npos (Pos.of_uint_acc _ ?p)) =>
        replace z with (Zpos p) by lia; apply digits_value_acc
    end.
Qed.

Lemma digits_value_pos (p : positive) :
  digits_value (uint_text (Pos.to_uint p)) = Zpos p.
Proof. now rewrite digits_value_uint, DecimalPos.Unsigned.of_to. Qed.

Lemma uint_text_digits (d : Decimal.uint) :
  forallb is_digit (uint_text d) = true.
Proof. induction d; cbn [uint_text forallb]; auto. Qed.

Lemma to_uint_head (p : positive) :
  exists c r, uint_text (Pos.to_uint p) = c :: r /\ (c =? 48)%N = false.
Proof.
  pose proof (DecimalPos.Unsigned.to_of (Pos.to_uint p)) as H.
  rewrite DecimalPos.Unsigned.of_to in H. cbn [N.to_uint] in H.
  pose proof (DecimalPos.Unsigned.to_uint_nonzero p) as Hz.
  assert (Hn : Decimal.nzhead (Pos.to_uint p) <> Decimal.Nil).
  { intros E. apply Hz. rewrite H. now apply DecimalFacts.unorm_0. }
  rewrite (DecimalFacts.unorm_nzhead _ Hn) in H.
  pose proof (DecimalFacts.nzhead_nonzero (Pos.to_uint p)) as Hd.
  rewrite <- H in Hd.
  destruct (Pos.to_uint p) as [|u|u|u|u|u|u|u|u|u|u];
    try (now elim Hn); try (now elim (Hd u));
    cbn [uint_text]; eexists; eexists; split; reflexivity.
Qed.

(** An integer comes back from its [repr]. *)
Lemma int_round_trip (z : Z) :
  exists n, wf_number n /\ render_number n = int_repr z
            /\ denote_number n = JInt z
            /\ forall max_digits,
                 int_allowed max_digits n
                 = negb (exceeds_digit_limit max_digits
                           (length (unsigned (int_repr z)))).
Proof.
  assert (Hpos : forall p, int_ok (uint_text (Pos.to_uint p)) = true).
  { intros p. destruct (to_uint_head p) as (c & r & E & Hc).
    pose proof (uint_text_digits (Pos.to_uint p)) as Hd. rewrite E in *.
    cbn [int_ok]. rewrite Hc. exact Hd. }
  assert (Hun : forall p, unsigned (uint_text (Pos.to_uint p))
                          = uint_text (Pos.to_uint p)).
  { intros p. destruct (to_uint_head p) as (c & r & E & Hc).
    pose proof (uint_text_digits (Pos.to_uint p)) as Hd. rewrite E in *.
    cbn [forallb] in Hd. apply andb_prop in Hd. destruct Hd as [Hd _].
    destruct (digit_not_letter c Hd) as (_ & _ & _ & _ & Hm).
    cbn [unsigned]. now rewrite Hm. }
  destruct z as [|p|p].
  - exists (NumberLit false [48%N] None None). repeat split.
  - exists (NumberLit false (uint_text (Pos.to_uint p)) None None).
    split; [|split; [|split]].
    + unfold wf_number. cbn. now rewrite Hpos.
    + unfold render_number. cbn. now rewrite app_nil_r.
    + unfold denote_number. cbn [num_frac num_exp num_minus num_int].
      now rewrite digits_value_pos.
    + intros max_digits. unfold int_allowed.
      cbn [num_frac num_exp num_int int_repr]. now rewrite Hun.
  - exists (NumberLit true (uint_text (Pos.to_uint p)) None None).
    split; [|split; [|split]].
    + unfold wf_number. cbn. now rewrite Hpos.
    + unfold render_number. cbn. now rewrite app_nil_r.
    + unfold denote_number. cbn [num_frac num_exp num_minus num_int].
      now rewrite digits_value_pos.
    + intros max_digits. unfold int_allowed.
      cbn [num_frac num_exp num_int int_repr unsigned]. now rewrite N.eqb_refl.
Qed.

Lemma text_eqb_eq (a b : text) : text_eqb a b = true <-> a = b.
Proof. unfold text_eqb. destruct (list_eq_dec N.eq_dec a b); split; congruence. Qed.

Lemma dict_set_fresh (d : list (text * value)) (k : text) (v : value) :
  ~ In k (map fst d) -> dict_set d k v = d ++ [(k, v)].
Proof.
  induction d as [|[k' v'] r IH]; cbn [dict_set map fst app In]; intros H;
    [reflexivity|].
  destruct (text_eqb k' k) eqn:E.
  - apply text_eqb_eq in E. tauto.
  - rewrite IH by tauto. reflexivity.
Qed.

Lemma dict_fold_nodup (pairs acc : list (text * value)) :
  NoDup (map fst (acc ++ pairs)) ->
  fold_left (fun d kv => dict_set d (fst kv) (snd kv)) pairs acc = acc ++ pairs.
Proof.
  revert acc. induction pairs as [|[k v] r IH]; intros acc H; cbn [fold_left].
  - now rewrite app_nil_r.
  - cbn [fst snd]. rewrite dict_set_fresh.
    + rewrite IH; rewrite <- app_assoc; [reflexivity|exact H].
    + rewrite map_app in H. cbn [map fst] in H.
      apply NoDup_remove_2 in H. intros Hin. apply H.
      apply in_or_app. now left.
Qed.

(** [dict] of pairs with distinct keys is the pairs. *)
Lemma dict_nodup (pairs : list (text * value)) :
  NoDup (map fst pairs) -> dict pairs = pairs.
Proof. intros H. unfold dict. now rewrite dict_fold_nodup. Qed.

Lemma blank_app (a b : text) : blank a -> blank b -> blank (a ++ b).
Proof. unfold blank. rewrite forallb_app. now intros -> ->. Qed.

Lemma blank_newline_indent (indent : option nat) (level : nat) :
  blank (newline_indent indent level).
Proof.
  unfold newline_indent, blank. destruct indent as [n|]; [|reflexivity].
  cbn [forallb]. change (is_ws 10%N) with true. cbn [andb].
  induction (n * level)%nat as [|m IH]; [reflexivity|].
  cbn [repeat forallb]. now rewrite IH.
Qed.

(** The separator between two items is a comma and white space. *)
Lemma item_separator_shape (indent : option nat) (level : nat) :
  exists ws, blank ws
    /\ item_separator indent ++ newline_indent indent level = COMMA :: ws.
Proof.
  destruct indent as [n|].
  - exists (newline_indent (Some n) level). split; [|reflexivity].
    apply blank_newline_indent.
  - exists [32%N]. split; reflexivity.
Qed.

Lemma render_elements_cons (v : cst) (wa wc : text) (es : elements) :
  es <> ENil ->
  render_elements (ECons v wa wc es)
  = render v ++ wa ++ COMMA :: wc ++ render_elements es.
Proof. destruct es; [congruence|reflexivity]. Qed.

Lemma render_members_cons (key : list sitem) (wk wl : text) (v : cst)
      (wa wc : text) (ms : members) :
  ms <> MNil ->
  render_members (MCons key wk wl v wa wc ms)
  = DQUOTE :: render_items key ++ DQUOTE :: wk ++ COLON :: wl
    ++ render v ++ wa ++ COMMA :: wc ++ render_members ms.
Proof. destruct ms; [congruence|reflexivity]. Qed.

Section Dumps.

Variable float_repr : text -> text.
Variable indent : option nat.

Local Abbreviation enc := (iterencode float_repr indent).
Local Abbreviation nl := (newline_indent indent).
Local Abbreviation sep level := (item_separator indent ++ newline_indent indent level).

Lemma tree_of_leaf_float (f : pyfloat) : forall level, tree_of float_repr indent level (JFloat f).
Proof.
  intros level Hs. destruct f as [l| | |]; try contradiction.
  destruct Hs as (Hrepr & n & Hwf & Hfl & Hr).
  exists (CNumber n). split; [exact Hwf|].
  split; [|split; [|split; [reflexivity|split; [reflexivity|]]]].
  - cbn [render iterencode floatstr]. now rewrite Hrepr.
  - cbn [denote]. unfold denote_number, is_float_literal in *.
    destruct (num_frac n), (num_exp n); try discriminate; now rewrite Hr.
  - intros max_digits _. cbn [ints_allowed]. unfold int_allowed.
    unfold is_float_literal in Hfl.
    destruct (num_frac n), (num_exp n); try discriminate; reflexivity.
Qed.

Lemma tree_of_leaf_str (s : text) : forall level, tree_of float_repr indent level (JStr s).
Proof.
  intros level Hs. cbn [serializable] in Hs.
  destruct (string_round_trip s Hs) as [Hwf Hd].
  exists (CString (flat_map items_of_char s)).
  split; [exact Hwf|].
  split; [|split; [|split; [reflexivity|split; [reflexivity|]]]].
  - cbn [render iterencode]. unfold encode_str.
    now rewrite render_items_of_string.
  - cbn [denote]. now rewrite Hd.
  - intros max_digits _. exact I.
Qed.

Lemma tree_of_array (l : list value) :
  elements_of float_repr indent l -> forall level, tree_of float_repr indent level (JArr l).
Proof.
  intros Hl level Hs. destruct l as [|x r].
  - exists (CArray [] ENil). repeat split.
  - destruct (Hl (S level) (nl level) (blank_newline_indent indent level) Hs)
      as (es & Hne & Hwf & Hr & Hd & Hdepth & Hints); [discriminate|].
    exists (CArray (nl (S level)) es).
    split; [|split; [|split; [|split; [|split]]]].
    + split; [apply blank_newline_indent|exact Hwf].
    + cbn [render iterencode]. rewrite Hr.
      reflexivity.
    + cbn [denote]. now rewrite Hd.
    + reflexivity.
    + exact Hdepth.
    + exact Hints.
Qed.

Lemma tree_of_object (d : list (text * value)) :
  members_of float_repr indent d -> forall level, tree_of float_repr indent level (JObj d).
Proof.
  intros Hd level Hs. destruct d as [|kv r].
  - exists (CObject [] MNil). repeat split.
  - destruct (Hd (S level) (nl level) (blank_newline_indent indent level) Hs)
      as (ms & Hne & Hwf & Hr & Hden & Hdepth & Hints); [discriminate|].
    exists (CObject (nl (S level)) ms).
    split; [|split; [|split; [|split; [|split]]]].
    + split; [apply blank_newline_indent|exact Hwf].
    + cbn [render iterencode]. rewrite Hr.
      reflexivity.
    + cbn [denote]. rewrite Hden. destruct Hs as [Hnd _].
      now rewrite (dict_nodup _ Hnd).
    + reflexivity.
    + exact Hdepth.
    + exact Hints.
Qed.

Lemma elements_of_cons (x : value) (l : list value) :
  (forall level, tree_of float_repr indent level x) -> elements_of float_repr indent l -> elements_of float_repr indent (x :: l).
Proof.
  intros Hx Hl level wlast Hw Hs _.
  destruct Hs as [Hsx Hsl].
  destruct (Hx level Hsx) as (t & Hwf & Hr & Hd & _ & Hdt & Hit).
  destruct l as [|y l'].
  - exists (ECons t wlast [] ENil). split; [discriminate|].
    split; [repeat split; auto|]. split; [|split; [|split]].
    + cbn [render_elements map join]. now rewrite Hr.
    + cbn [denote_elements]. now rewrite Hd.
    + cbn [depth_elements nesting]. now rewrite Hdt.
    + intros max_digits (Hix & _). split; [now apply Hit|exact I].
  - destruct (Hl level wlast Hw Hsl)
      as (es & Hne & Hes & Hres & Hdes & Hdepth & Hints); [discriminate|].
    destruct (item_separator_shape indent level) as (ws & Hws & Hsep).
    exists (ECons t [] ws es). split; [discriminate|].
    split; [repeat split; auto|]. split; [|split; [|split]].
    + rewrite (render_elements_cons t [] ws es Hne), Hr.
      rewrite Hsep in *. cbn [map] in *.
      rewrite Hres.
      match goal with
      | |- context [join ?sp (?a :: ?b :: ?c)] =>
          change (join sp (a :: b :: c)) with (a ++ sp ++ join sp (b :: c))
      end.
      rewrite <- !app_assoc. reflexivity.
    + cbn [denote_elements]. now rewrite Hd, Hdes.
    + cbn [depth_elements]. cbn [nesting] in Hdepth |- *.
      injection Hdepth as Hdepth. now rewrite Hdt, Hdepth.
    + intros max_digits (Hix & Hil). split; [now apply Hit|now apply Hints].
Qed.

Lemma members_of_cons (k : text) (x : value) (d : list (text * value)) :
  (forall level, tree_of float_repr indent level x) -> members_of float_repr indent d -> members_of float_repr indent ((k, x) :: d).
Proof.
  intros Hx Hd level wlast Hw Hs _.
  destruct Hs as [Hnd (Hk & Hsx & Hsd)].
  destruct (Hx level Hsx) as (t & Hwf & Hr & Hden & _ & Hdt & Hit).
  destruct (string_round_trip k Hk) as [Hkwf Hkd].
  assert (Hentry : forall tail,
            DQUOTE :: render_items (flat_map items_of_char k)
            ++ DQUOTE :: [] ++ COLON :: [32%N] ++ render t ++ tail
            = encode_str k ++ key_separator ++ enc level x ++ tail).
  { intros tail. unfold encode_str. rewrite render_items_of_string, Hr.
    cbn [app]. rewrite <- !app_assoc. reflexivity. }
  destruct d as [|kv d'].
  - exists (MCons (flat_map items_of_char k) [] [32%N] t wlast [] MNil).
    split; [discriminate|]. split; [repeat split; auto|].
    split; [|split; [|split]].
    + cbn [render_members map join fst snd]. rewrite <- !app_assoc.
      apply Hentry.
    + cbn [denote_members]. now rewrite Hkd, Hden.
    + cbn [depth_members nesting]. now rewrite Hdt.
    + intros max_digits (Hix & _). split; [now apply Hit|exact I].
  - assert (Hs' : serializable float_repr (JObj (kv :: d'))).
    { split; [|exact Hsd]. cbn [map] in Hnd. now apply NoDup_cons_iff in Hnd. }
    destruct (Hd level wlast Hw Hs')
      as (ms & Hne & Hms & Hrms & Hdms & Hdepth & Hints); [discriminate|].
    destruct (item_separator_shape indent level) as (ws & Hws & Hsep).
    exists (MCons (flat_map items_of_char k) [] [32%N] t [] ws ms).
    split; [discriminate|]. split; [repeat split; auto|].
    split; [|split; [|split]].
    + rewrite Hsep in *.
      rewrite (render_members_cons _ [] [32%N] t [] ws ms Hne), Hrms.
      cbn [map]. cbv beta.
      match goal with
      | |- context [join ?sp (?a :: ?b :: ?c)] =>
          change (join sp (a :: b :: c)) with (a ++ sp ++ join sp (b :: c))
      end.
      cbn [fst snd]. rewrite <- !app_assoc.
      rewrite <- Hentry. reflexivity.
    + cbn [denote_members]. now rewrite Hkd, Hden, Hdms.
    + cbn [depth_members]. cbn [nesting] in Hdepth |- *.
      injection Hdepth as Hdepth. now rewrite Hdt, Hdepth.
    + intros max_digits (Hix & Hil). split; [now apply Hit|now apply Hints].
Qed.

(** Every serializable value is denoted by a tree of RFC 8259 whose text
    is what [json.dumps] writes, and which nests as the value does. *)
Lemma dumps_tree (v : value) : forall level, tree_of float_repr indent level v.
Proof.
  apply (value_induction
           (fun v => forall level, tree_of float_repr indent level v)
           (elements_of float_repr indent) (members_of float_repr indent)).
  - intros level _. exists CNull. repeat split.
  - intros [|] level _; [exists CTrue|exists CFalse]; repeat split.
  - intros z level _. destruct (int_round_trip z) as (n & Hwf & Hr & Hd & Hi).
    exists (CNumber n). repeat split; try assumption.
    intros max_digits Hz. cbn [ints_within] in Hz. cbn [ints_allowed].
    now rewrite Hi, Hz.
  - apply tree_of_leaf_float.
  - apply tree_of_leaf_str.
  - apply tree_of_array.
  - apply tree_of_object.
  - intros level wlast _ _ H. congruence.
  - apply elements_of_cons.
  - intros level wlast _ _ H. congruence.
  - apply members_of_cons.
Qed.

(** A value within the limits of an interpreter. *)
Lemma dumps_within (interp : interpreter) (v : value) :
  serializable float_repr v ->
  (nesting v <= S (decode_room interp))%nat ->
  ints_within (int_max_str_digits interp) v ->
  exists t, wf false t /\ render t = dumps float_repr indent v
            /\ denote t = v /\ is_object t = is_dict v /\ within interp t.
Proof.
  intros Hs Hn Hi.
  destruct (dumps_tree v 0%nat Hs) as (t & Hwf & Hr & Hd & Ho & Hdepth & Hints).
  exists t. repeat split; try assumption.
  - now rewrite Hdepth.
  - now apply Hints.
Qed.

(** [json.loads(json.dumps(v, indent=indent)) == v], for a value within the
    limits of the interpreter. *)
Lemma loads_dumps (interp : interpreter) (v : value) :
  serializable float_repr v ->
  (nesting v <= S (decode_room interp))%nat ->
  ints_within (int_max_str_digits interp) v ->
  loads interp (dumps float_repr indent v) = Returns v.
Proof.
  intros Hs Hn Hi.
  destruct (dumps_within interp v Hs Hn Hi) as (t & Hwf & Hr & Hd & _ & Hin).
  rewrite <- Hr, <- Hd.
  pose proof (loads_complete interp false [] [] t blank_nil blank_nil Hwf Hin)
    as H.
  cbn [app] in H. now rewrite app_nil_r in H.
Qed.

(** A [dict] written by [json.dumps] into text without braces comes back
    from the extractor. *)
Lemma extract_json_dumps (interp : interpreter) (d : list (text * value))
      (pre post : text) :
  serializable float_repr (JObj d) ->
  (nesting (JObj d) <= S (decode_room interp))%nat ->
  ints_within (int_max_str_digits interp) (JObj d) ->
  ~ In LBRACE pre -> ~ In RBRACE post ->
  Convert.extract_json interp
    (pre ++ dumps float_repr indent (JObj d) ++ post)
  = Returns (JObj d).
Proof.
  intros Hs Hn Hi Hpre Hpost.
  destruct (dumps_within interp _ Hs Hn Hi) as (t & Hwf & Hr & Hd & Ho & Hin).
  rewrite <- Hr, <- Hd.
  now apply extract_json_embedded with false.
Qed.

End Dumps.

(** ** Texts within the limits, and texts beyond them *)

Lemma wf_nested_arrays (ext : bool) (n : nat) : wf ext (nested_arrays n).
Proof.
  induction n as [|n IH]; cbn [nested_arrays wf wf_elements blank forallb];
    repeat split; try reflexivity; exact IH.
Qed.



(** ** The decoder, the extractor and the constructor on some inputs *)

Example loads_object :
  loads sample_interpreter
        (lit " {~a~: [1, -2.5e3, ~x\u00e9\n~, null], ~b~: {}} ")
  = Returns (JObj [(lit "a", JArr [JInt 1; JFloat (FLit (lit "-2.5e3"));
                                   JStr [120; 233; 10]%N; JNull]);
                   (lit "b", JObj [])]).
Proof. vm_compute. reflexivity. Qed.

Example loads_duplicate_key :
  loads sample_interpreter (lit "{~a~: 1, ~b~: 2, ~a~: 3}")
  = Returns (JObj [(lit "a", JInt 3); (lit "b", JInt 2)]).
Proof. vm_compute. reflexivity. Qed.

Example loads_surrogate_pair :
  loads sample_interpreter (lit "~\ud83d\ude00 \ud83d~")
  = Returns (JStr [128512; 32; 55357]%N).
Proof. vm_compute. reflexivity. Qed.

Example loads_trailing_comma :
  loads sample_interpreter (lit "{~a~: 1,}")
  = Raises (JSONDecodeError
              (lit "Expecting property name enclosed in double quotes")).
Proof. vm_compute. reflexivity. Qed.

Example loads_leading_zero :
  loads sample_interpreter (lit "[01]")
  = Raises (JSONDecodeError (lit "Expecting ',' delimiter")).
Proof. vm_compute. reflexivity. Qed.

Example loads_control_character :
  loads sample_interpreter [34; 9; 34]%N
  = Raises (JSONDecodeError (lit "Invalid control character at")).
Proof. vm_compute. reflexivity. Qed.

Example loads_extra_data :
  loads sample_interpreter (lit "{} {}")
  = Raises (JSONDecodeError (lit "Extra data")).
Proof. vm_compute. reflexivity. Qed.

(** At the recursion limit: 994 arrays are read, 995 are not; an empty
    object counts as a container; the error is raised before a later
    syntax error is met, and after an earlier one. *)
Example loads_deepest :
  loads sample_interpreter (repeat LBRACKET 994 ++ repeat RBRACKET 994)
  = Returns (denote (nested_arrays 993)).
Proof. vm_compute. reflexivity. Qed.

Example loads_too_deep :
  loads sample_interpreter (repeat LBRACKET 995 ++ repeat RBRACKET 995)
  = Raises (RecursionError (lit "maximum recursion depth exceeded while decoding a JSON array from a unicode string")).
Proof. vm_compute. reflexivity. Qed.

Example loads_too_deep_object :
  loads sample_interpreter
        (repeat LBRACKET 994 ++ lit "{}" ++ repeat RBRACKET 994)
  = Raises (RecursionError (lit "maximum recursion depth exceeded while decoding a JSON object from a unicode string")).
Proof. vm_compute. reflexivity. Qed.

Example loads_too_deep_then_invalid :
  loads sample_interpreter (lit "{~a~: " ++ repeat LBRACKET 1200 ++ lit "}")
  = Raises (RecursionError (lit "maximum recursion depth exceeded while decoding a JSON array from a unicode string")).
Proof. vm_compute. reflexivity. Qed.

Example loads_invalid_then_too_deep :
  loads sample_interpreter (lit "[}, " ++ repeat LBRACKET 1200)
  = Raises (JSONDecodeError (lit "Expecting value")).
Proof. vm_compute. reflexivity. Qed.

(** At the digit limit: an integer of 4301 digits is refused, a float is
    not. *)
Example loads_long_integer :
  loads sample_interpreter (lit "{~a~: -" ++ repeat 49%N 4301 ++ lit "}")
  = Raises (ValueError (lit "Exceeds the limit (4300 digits) for integer string conversion: value has 4301 digits; use sys.set_int_max_str_digits() to increase the limit")).
Proof. vm_compute. reflexivity. Qed.

Example loads_longest_integer :
  loads sample_interpreter (MINUS :: repeat 49%N 4300)
  = Returns (JInt (- digits_value (repeat 49%N 4300))).
Proof. vm_compute. reflexivity. Qed.

Example loads_long_float :
  loads sample_interpreter (repeat 49%N 4301 ++ lit "e1")
  = Returns (JFloat (FLit (repeat 49%N 4301 ++ lit "e1"))).
Proof. vm_compute. reflexivity. Qed.

Example extract_json_from_prose :
  Convert.extract_json sample_interpreter
    (lit "Here it is: {~dataset_names~: [~a~, ~b~]} Enjoy!")
  = Returns (JObj [(lit "dataset_names", JArr [JStr (lit "a"); JStr (lit "b")])]).
Proof. vm_compute. reflexivity. Qed.

(** The limitation the specification records: braces in the prose widen
    the span, and the result is the empty object. *)
Example extract_json_braces_in_prose :
  Convert.extract_json sample_interpreter
    (lit "the field {name} maps to {~a~: 1}")
  = Returns (JObj []).
Proof. vm_compute. reflexivity. Qed.

Example extract_json_truncated :
  Convert.extract_json sample_interpreter (lit "{~a~: [1, 2")
  = Returns (JObj []).
Proof. vm_compute. reflexivity. Qed.

(** The extractor does not catch what is no [JSONDecodeError]. *)
Example extract_json_too_deep :
  Convert.extract_json sample_interpreter
    (lit "Sure: {~a~: " ++ repeat LBRACKET 1200 ++ lit "} Done.")
  = Raises (RecursionError (lit "maximum recursion depth exceeded while decoding a JSON array from a unicode string")).
Proof. vm_compute. reflexivity. Qed.

Example dumps_indent :
  dumps plain_repr (Some 2%nat)
        (JObj [(lit "a", JArr [JInt 1; JNull]); (lit "b", JObj [])])
  = lit "{
  ~a~: [
    1,
    null
  ],
  ~b~: {}
}".
Proof. vm_compute. reflexivity. Qed.

Example dumps_escapes :
  dumps plain_repr None (JArr [JStr [34; 10; 233; 128512]%N; JInt (-40)])
  = lit "[~\~\n\u00e9\ud83d\ude00~, -40]".
Proof. vm_compute. reflexivity. Qed.

(** Two adjacent surrogates do not come back: the encoder writes two
    escapes, and the decoder reads them as one character. *)
Example dumps_joins_surrogates :
  loads sample_interpreter (dumps plain_repr None (JStr [55357; 56832]%N))
  = Returns (JStr [128512]%N).
Proof. vm_compute. reflexivity. Qed.

Example extract_json_dumps_payload :
  Convert.extract_json sample_interpreter
    (lit "Result: " ++ dumps plain_repr (Some 2%nat) sample_payload ++ lit " (end)")
  = Returns sample_payload.
Proof.
  apply (extract_json_dumps plain_repr (Some 2%nat) sample_interpreter).
  - cbn. repeat split; try reflexivity.
    repeat constructor; cbn; intuition discriminate.
  - cbn. lia.
  - cbn. auto.
  - cbv; intros H; repeat (destruct H as [H|H]; [discriminate H|]); exact H.
  - cbv; intros H; repeat (destruct H as [H|H]; [discriminate H|]); exact H.
Qed.

(** The body of a response: compact separators, no escape above the
    control characters, UTF-8. *)
Example render_body :
  Starlette.render sample_interpreter plain_repr
    (JObj [(lit "a", JStr [233; 10; 34; 1; 127; 128512]%N);
           (lit "b", JArr [JInt 1; JFloat (FLit (lit "2.5")); JNull;
                           JBool true; JObj []; JArr []])])
  = Returns ([123; 34; 97; 34; 58; 34; 195; 169; 92; 110; 92; 34; 92; 117;
              48; 48; 48; 49; 127; 240; 159; 152; 128; 34; 44; 34; 98; 34;
              58; 91; 49; 44; 50; 46; 53; 44; 110; 117; 108; 108; 44; 116;
              114; 117; 101; 44; 123; 125; 44; 91; 93; 93; 125]%N).
Proof. vm_compute. reflexivity. Qed.

Example render_nan :
  Starlette.render sample_interpreter plain_repr
    (JObj [(lit "a", JFloat FNaN)])
  = Raises (ValueError (lit "Out of range float values are not JSON compliant")).
Proof. vm_compute. reflexivity. Qed.

Example render_overflow :
  Starlette.render sample_interpreter plain_repr
    (JObj [(lit "a", JFloat (FLit (lit "1e999")))])
  = Raises (ValueError (lit "Out of range float values are not JSON compliant")).
Proof. vm_compute. reflexivity. Qed.

Example render_largest_float :
  float_overflows (lit "1.7976931348623157e+308") = false
  /\ float_overflows (lit "-17976931348623158e292") = false
  /\ float_overflows (lit "17976931348623159e292") = true
  /\ float_overflows (lit "0.0001e313") = true
  /\ float_overflows (lit "1E-400") = false.
Proof. vm_compute. repeat split. Qed.

Example render_surrogate :
  Starlette.render sample_interpreter plain_repr
    (JObj [(lit "a", JStr [55296]%N)])
  = Raises (UnicodeEncodeError (lit "'utf-8' codec can't encode character '\ud800' in position 6: surrogates not allowed")).
Proof. vm_compute. reflexivity. Qed.

Example render_surrogates :
  Starlette.render sample_interpreter plain_repr
    (JStr [55296; 55297; 55298]%N)
  = Raises (UnicodeEncodeError (lit "'utf-8' codec can't encode characters in position 1-3: surrogates not allowed")).
Proof. vm_compute. reflexivity. Qed.

(** The errors of [json.dumps] come before the error of the codec, in the
    order of the content. *)
Example render_first_error :
  Starlette.render sample_interpreter plain_repr
    (JObj [(lit "a", JStr [55296]%N); (lit "b", JFloat FNaN)])
  = Raises (ValueError (lit "Out of range float values are not JSON compliant")).
Proof. vm_compute. reflexivity. Qed.

Example render_too_deep :
  Starlette.render sample_interpreter plain_repr (denote (nested_arrays 994))
  = Raises (RecursionError (lit "maximum recursion depth exceeded while encoding a JSON object")).
Proof. vm_compute. reflexivity. Qed.

Example render_deepest :
  Starlette.render sample_interpreter plain_repr (denote (nested_arrays 993))
  = Returns (repeat LBRACKET 994 ++ repeat RBRACKET 994).
Proof. vm_compute. reflexivity. Qed.

Example render_long_integer :
  Starlette.render sample_interpreter plain_repr (JInt (- 10 ^ 4300))
  = Raises (ValueError (lit "Exceeds the limit (4300 digits) for integer string conversion; use sys.set_int_max_str_digits() to increase the limit")).
Proof. vm_compute. reflexivity. Qed.

(* ================================================================== *)
(** * The claims *)

Ltac not_in := cbv; intros H; repeat (destruct H as [H|H]; [discriminate H|]); exact H.



(** C1 as stated fails: the object [{"a": [[...]]}] with arrays nested 2000
    deep is well-formed JSON and the only braced span of its text, and on
    an interpreter with the default recursion limit [extract_json] raises
    RecursionError on it. *)
Lemma extract_json_deep_object :
  ~ (forall (interp : interpreter) (t : cst) (pre post : text),
       wf false t -> is_object t = true ->
       ~ In LBRACE pre -> ~ In RBRACE post ->
       Convert.extract_json interp (pre ++ render t ++ post)
       = Returns (denote t)).
Proof.
  intros H.
  assert (Hwf : wf false deep_object).
  { unfold deep_object. cbn -[nested_arrays].
    repeat split; try reflexivity; apply wf_nested_arrays. }
  specialize (H sample_interpreter deep_object [] [] Hwf eq_refl
                (fun x => x) (fun x => x)).
  vm_compute in H. discriminate H.
Qed.

(** C2. A text without an opening brace, or without a closing brace, gives
    the empty object. *)
Theorem extract_json_without_brace (interp : interpreter) (text : Py.text) :
  ~ In LBRACE text \/ ~ In RBRACE text ->
  Convert.extract_json interp text = Returns (JObj [])
  /\ DruidService.extract_json interp text = Returns (JObj []).
Proof.
  intros H.
  assert (E : Convert.extract_json interp text = Returns (JObj []));
    [|split; exact E].
  destruct H as [H|H].
  - rewrite extract_json_unfold, (str_find_notin _ _ H). reflexivity.
  - apply extract_json_empty_span. unfold span.
    rewrite (str_rfind_notin _ _ H). apply slice_to_zero.
Qed.

Lemma extract_json_without_brace_witness :
  Convert.extract_json sample_interpreter (lit "no JSON, only { here")
  = Returns (JObj [])
  /\ DruidService.extract_json sample_interpreter (lit "no JSON, only { here")
     = Returns (JObj []).
Proof.
  apply (extract_json_without_brace sample_interpreter
           (lit "no JSON, only { here")).
  right. not_in.
Defined.




(** C4. The two copies of [extract_json] agree on every text. *)
Theorem extract_json_copies_agree (interp : interpreter) (text : Py.text) :
  Convert.extract_json interp text = DruidService.extract_json interp text.
Proof. reflexivity. Qed.

(** C5. A request to /api/analyze-event/ whose body is valid JSON but not
    an object is answered with status 400 and the body
    [{"error": "Invalid JSON input"}]; the handler is that answer and
    nothing else, so no run of it calls the provider. *)
Theorem analyze_event_rejects_non_object
        (interp : interpreter) (float_repr : text -> text)
        (request : Convert.Request) (v : value) :
  Convert.request_json request = Returns v -> is_dict v = false ->
  Convert.analyze_event interp float_repr request
  = Effects.ret {| Convert.content :=
                     JObj [(lit "error", JStr (lit "Invalid JSON input"))];
                   Convert.status_code := 400 |}
  /\ forall S (P : provider S) (st : S),
       run P st (Convert.analyze_event interp float_repr request)
       = (Returns {| Convert.content :=
                       JObj [(lit "error", JStr (lit "Invalid JSON input"))];
                     Convert.status_code := 400 |}, []).
Proof.
  intros Hreq Hv.
  assert (E : Convert.analyze_event interp float_repr request
              = Effects.ret {| Convert.content :=
                     JObj [(lit "error", JStr (lit "Invalid JSON input"))];
                   Convert.status_code := 400 |}).
  { unfold Convert.analyze_event. rewrite Hreq. cbn. rewrite Hv.
    now rewrite (JSONResponse_init_renders interp float_repr _ 400
                   (renders_invalid_input interp float_repr)). }
  split; [exact E|]. intros S P st. now rewrite E.
Qed.

Lemma analyze_event_rejects_non_object_witness :
  run (failing (OtherException (lit "unreachable"))) tt
      (Convert.analyze_event sample_interpreter plain_repr
         {| Convert.request_json := Returns (JStr (lit "not an object")) |})
  = (Returns {| Convert.content :=
                  JObj [(lit "error", JStr (lit "Invalid JSON input"))];
                Convert.status_code := 400 |}, []).
Proof.
  apply (proj2 (analyze_event_rejects_non_object sample_interpreter plain_repr
                  {| Convert.request_json := Returns (JStr (lit "not an object")) |}
                  (JStr (lit "not an object")) eq_refl eq_refl)).
Defined.






(** C8. The prompt a task sends is a function of the task and the payload
    alone: two runs of a handler on requests with the same payload, against
    any two providers in any two states, send the same single prompt, the
    one [prompt_of] builds, and building it leaves no other event. *)
Theorem prompt_depends_on_task_and_payload
        (interp : interpreter) (float_repr : text -> text)
        (task : TaskKind) (payload : value)
        (S1 S2 : Type) (P1 : provider S1) (P2 : provider S2)
        (st1 : S1) (st2 : S2) (request1 request2 : Convert.Request) :
  Convert.request_json request1 = Returns payload ->
  Convert.request_json request2 = Returns payload ->
  accepts task payload = true ->
  prompts (snd (run P1 st1 (handler interp float_repr task request1)))
  = [prompt_of float_repr task payload]
  /\ prompts (snd (run P2 st2 (handler interp float_repr task request2)))
     = [prompt_of float_repr task payload].
Proof.
  intros H1 H2 Hacc.
  assert (Hone : forall S (P : provider S) st request,
            Convert.request_json request = Returns payload ->
            prompts (snd (run P st (handler interp float_repr task request)))
            = [prompt_of float_repr task payload]).
  { intros S P st request Hreq.
    destruct task; cbn [handler prompt_of accepts] in *.
    - rewrite (analyze_event_run interp float_repr S P st request payload Hreq),
        Hacc.
      reflexivity.
    - rewrite (suggest_dataset_name_run interp float_repr S P st request
                 payload Hreq).
      reflexivity.
    - rewrite (suggest_druid_rollups_run interp float_repr S P st request
                 payload Hreq).
      cbn [snd prompts]. now destruct (reply_of P st _). }
  split; now apply Hone.
Qed.

Lemma prompt_depends_on_task_and_payload_witness :
  prompts (snd (run (answering (lit "{}")) tt
                    (handler sample_interpreter plain_repr DatasetNaming
                       sample_request)))
  = [prompt_of plain_repr DatasetNaming sample_payload]
  /\ prompts (snd (run (failing (OtherException (lit "timeout"))) tt
                       (handler sample_interpreter plain_repr DatasetNaming
                          sample_request)))
     = [prompt_of plain_repr DatasetNaming sample_payload].
Proof.
  apply (prompt_depends_on_task_and_payload sample_interpreter plain_repr
           DatasetNaming sample_payload unit unit (answering (lit "{}"))
           (failing (OtherException (lit "timeout"))) tt tt
           sample_request sample_request eq_refl eq_refl eq_refl).
Defined.






(** C10 as stated fails: on the text [{"a": [[...]]}] with arrays nested
    2000 deep, on an interpreter with the default recursion limit,
    [extract_json] returns no [dict]: the decoder raises RecursionError,
    which the function does not catch. *)
Lemma extract_json_raises_on_deep_text :
  ~ (forall (interp : interpreter) (text : Py.text),
       exists d, Convert.extract_json interp text = Returns (JObj d)).
Proof.
  intros H. destruct (H sample_interpreter (render deep_object)) as [d Hd].
  vm_compute in Hd. discriminate Hd.
Qed.

(* ================================================================== *)
(** * Further properties of the extractor and the handlers *)
(* ================================================================== *)

(** ** The span *)

Lemma str_rfind_split (s : text) (c : char) :
  str_rfind s c <> -1 ->
  exists a post, s = a ++ c :: post /\ ~ In c post
                 /\ str_rfind s c = Z.of_nat (length a).
Proof.
  induction s as [|x r IH]; cbn [str_rfind]; [congruence|].
  destruct (Z.eqb_spec (str_rfind r c) (-1)) as [E|E].
  - destruct (N.eqb_spec x c) as [->|]; [|congruence]. intros _.
    exists [], r. repeat split.
    destruct (in_dec N.eq_dec c r) as [Hin|Hn]; [|exact Hn].
    exfalso. clear IH. induction r as [|y r' IHr]; [contradiction|].
    cbn [str_rfind] in E.
    destruct (Z.eqb_spec (str_rfind r' c) (-1)) as [E'|E'].
    + destruct (N.eqb_spec y c) as [->|Hy]; [discriminate|].
      destruct Hin as [->|Hin]; [congruence|]. now apply IHr.
    + pose proof (str_rfind_lower r' c). lia.
  - intros _. destruct (IH E) as (a & post & -> & Hpost & Hlen).
    exists (x :: a), post. repeat split; [exact Hpost|].
    rewrite Hlen. cbn [length]. lia.
Qed.

(** The span is empty, or it is the part of the text from its first
    opening brace to its last closing brace. *)
Lemma span_cases (text : Py.text) :
  str_find text LBRACE <> -1 ->
  span text = []
  \/ exists pre mid post,
       text = pre ++ (LBRACE :: mid ++ [RBRACE]) ++ post
       /\ ~ In LBRACE pre /\ ~ In RBRACE post
       /\ span text = LBRACE :: mid ++ [RBRACE].
Proof.
  intros Hf.
  destruct (Z.eq_dec (str_rfind text RBRACE) (-1)) as [Hr|Hr].
  { left. unfold span. rewrite Hr. apply slice_to_zero. }
  destruct (str_find_split text LBRACE Hf) as (pre & r & E1 & Hpre & Hfind).
  destruct (str_rfind_split text RBRACE Hr) as (a & post & E2 & Hpost & Hrfind).
  destruct (Nat.lt_ge_cases (length pre) (length a)) as [Hlt|Hge].
  - right. rewrite E1 in E2.
    apply app_eq_app in E2. destruct E2 as (l & [[Ea El]|[Ea El]]).
    + apply (f_equal (@length _)) in Ea. rewrite length_app in Ea. lia.
    + destruct l as [|y l].
      { rewrite app_nil_r in Ea. subst a. lia. }
      cbn [app] in El. injection El as <- El.
      assert (E : text = pre ++ (LBRACE :: l ++ [RBRACE]) ++ post).
      { rewrite E1, El. cbn [app]. rewrite <- app_assoc. reflexivity. }
      exists pre, l, post. repeat split; try assumption.
      rewrite E. now apply span_of_embedded.
  - left. unfold span. rewrite Hfind, Hrfind.
    apply slice_empty; [lia|].
    assert (length a <> length pre); [|lia].
    intros Hlen. rewrite E1 in E2.
    apply app_eq_app in E2. destruct E2 as (l & [[Ea El]|[Ea El]]).
    + destruct l as [|y l]; [discriminate El|].
      apply (f_equal (@length _)) in Ea. rewrite length_app in Ea.
      cbn [length] in Ea. lia.
    + destruct l as [|y l]; [discriminate El|].
      apply (f_equal (@length _)) in Ea. rewrite length_app in Ea.
      cbn [length] in Ea. lia.
Qed.

Lemma extract_json_of_span (interp : interpreter) (text : Py.text) :
  str_find text LBRACE <> -1 ->
  Convert.extract_json interp text
  = match loads interp (span text) with
    | Returns v => Returns v
    | Raises e =>
        if isinstance_JSONDecodeError e then Returns (JObj []) else Raises e
    end.
Proof.
  intros H. rewrite extract_json_unfold.
  destruct (Z.eqb_spec (str_find text LBRACE) (-1)); [contradiction|reflexivity].
Qed.

Lemma span_of_braced (mid : Py.text) :
  span (LBRACE :: mid ++ [RBRACE]) = LBRACE :: mid ++ [RBRACE].
Proof.
  pose proof (span_of_embedded [] mid [] (fun H => H) (fun H => H)) as H.
  cbn [app] in H. now rewrite app_nil_r in H.
Qed.

Lemma find_of_braced (mid : Py.text) :
  str_find (LBRACE :: mid ++ [RBRACE]) LBRACE <> -1.
Proof. cbn [str_find]. rewrite N.eqb_refl. discriminate. Qed.

Lemma no_brace_in_slice (s : Py.text) (a b : Z) (c : char) :
  ~ In c s -> ~ In c (slice s a b).
Proof.
  intros H Hin. apply H. unfold slice in Hin.
  destruct (_ <? _); [|contradiction].
  match type of Hin with
  | In _ (firstn ?n (skipn ?m _)) =>
      rewrite <- (firstn_skipn m s); apply in_or_app; right;
      rewrite <- (firstn_skipn n (skipn m s)); apply in_or_app; now left
  end.
Qed.

Lemma str_find_in (s : text) (c : char) : In c s -> str_find s c <> -1.
Proof.
  induction s as [|x r IH]; simpl; [tauto|]. intros Hin.
  destruct (N.eqb_spec x c) as [->|Hne]; [discriminate|].
  destruct Hin as [E|Hin]; [congruence|].
  specialize (IH Hin). pose proof (str_find_lower r c).
  destruct (Z.eqb_spec (str_find r c) (-1)); lia.
Qed.

Lemma extract_json_span (interp : interpreter) (text : Py.text) :
  Convert.extract_json interp (span text) = Convert.extract_json interp text.
Proof.
  destruct (Z.eq_dec (str_find text LBRACE) (-1)) as [Hf|Hf].
  - assert (Hno : ~ In LBRACE text) by (intros Hin; exact (str_find_in _ _ Hin Hf)).
    rewrite !extract_json_unfold.
    rewrite (str_find_notin _ _ Hno).
    unfold span at 1. now rewrite (str_find_notin _ _ (no_brace_in_slice _ _ _ _ Hno)).
  - destruct (span_cases text Hf) as [E|(pre & mid & post & _ & _ & _ & E)].
    + rewrite (extract_json_empty_span interp text E), E. reflexivity.
    + rewrite (extract_json_of_span interp text Hf), E.
      rewrite (extract_json_of_span interp _ (find_of_braced mid)).
      now rewrite span_of_braced.
Qed.

(** X1. Text before the first opening brace and after the last closing
    brace never changes what [extract_json] does: on a braced text wrapped
    in prose without braces it returns what it returns, or raises what it
    raises, on the braced text alone, whether that text is JSON or not. *)
Theorem extract_json_ignores_prose
        (interp : interpreter) (pre mid post : Py.text) :
  ~ In LBRACE pre -> ~ In RBRACE post ->
  Convert.extract_json interp (pre ++ (LBRACE :: mid ++ [RBRACE]) ++ post)
  = Convert.extract_json interp (LBRACE :: mid ++ [RBRACE])
  /\ DruidService.extract_json interp
       (pre ++ (LBRACE :: mid ++ [RBRACE]) ++ post)
     = DruidService.extract_json interp (LBRACE :: mid ++ [RBRACE]).
Proof.
  intros Hpre Hpost.
  assert (E : Convert.extract_json interp
                (pre ++ (LBRACE :: mid ++ [RBRACE]) ++ post)
              = Convert.extract_json interp (LBRACE :: mid ++ [RBRACE])).
  { rewrite <- (extract_json_span interp (pre ++ _ ++ post)).
    now rewrite (span_of_embedded pre mid post Hpre Hpost). }
  split; exact E.
Qed.

Lemma extract_json_ignores_prose_witness :
  Convert.extract_json sample_interpreter (lit "Answer: {~a~: 1, oops} thanks")
  = Convert.extract_json sample_interpreter (lit "{~a~: 1, oops}")
  /\ DruidService.extract_json sample_interpreter
       (lit "Answer: {~a~: 1, oops} thanks")
     = DruidService.extract_json sample_interpreter (lit "{~a~: 1, oops}").
Proof.
  apply (extract_json_ignores_prose sample_interpreter
           (lit "Answer: ") (lit "~a~: 1, oops") (lit " thanks")).
  - not_in.
  - not_in.
Defined.



Lemma blank_app_inv (a b : text) : blank (a ++ b) -> blank a /\ blank b.
Proof.
  unfold blank. rewrite forallb_app. intros H.
  apply andb_true_iff in H. exact H.
Qed.





Lemma denote_object (t : cst) (d : list (text * value)) :
  denote t = JObj d -> is_object t = true.
Proof.
  destruct t as [| | |n|k|items|ws es|ws ms]; try discriminate; [|reflexivity].
  cbn [denote]. unfold denote_number.
  repeat match goal with |- context [if ?b then _ else _] => destruct b end;
    discriminate.
Qed.

(** A decoded text that starts with an opening brace and ends with a closing
    brace is an object of the grammar, with no white space around it. *)
Lemma loads_braced_sound (interp : interpreter) (mid : text) (v : value) :
  loads interp (LBRACE :: mid ++ [RBRACE]) = Returns v ->
  exists t, wf true t /\ LBRACE :: mid ++ [RBRACE] = render t /\ denote t = v
            /\ within interp t.
Proof.
  intros H.
  destruct (loads_sound _ _ _ H)
    as (ws1 & t & ws2 & H1 & H2 & Hwf & E & Hd & Hin).
  exists t. repeat split; try assumption; try apply Hin.
  destruct ws1 as [|w ws1].
  - cbn [app] in E. destruct ws2 as [|w ws2] using rev_ind.
    + now rewrite app_nil_r in E.
    + clear IHws2. rewrite app_comm_cons, app_assoc in E.
      apply app_inj_tail in E. destruct E as (_ & <-).
      apply blank_app_inv in H2. destruct H2 as (_ & H2). discriminate H2.
  - injection E as <- _. discriminate H1.
Qed.

(** X3. Whatever non-empty object [extract_json] returns was written in
    the text: the text is an object of the JSON grammar (with NaN and the
    infinities admitted) that denotes the result, between a prefix without
    opening brace and a suffix without closing brace. *)
Theorem extract_json_result_in_text
        (interp : interpreter) (text : Py.text) (d : list (Py.text * value)) :
  Convert.extract_json interp text = Returns (JObj d) -> d <> [] ->
  exists pre t post,
    text = pre ++ render t ++ post
    /\ ~ In LBRACE pre /\ ~ In RBRACE post
    /\ wf true t /\ is_object t = true /\ denote t = JObj d.
Proof.
  intros H Hd.
  destruct (Z.eq_dec (str_find text LBRACE) (-1)) as [Hf|Hf].
  - rewrite extract_json_unfold, Hf in H. cbn in H. congruence.
  - destruct (span_cases text Hf) as [E|(pre & mid & post & Et & Hpre & Hpost & E)].
    + rewrite (extract_json_empty_span interp text E) in H. congruence.
    + rewrite (extract_json_of_span interp text Hf), E in H.
      destruct (loads interp (LBRACE :: mid ++ [RBRACE])) as [v|e] eqn:El.
      * injection H as ->.
        destruct (loads_braced_sound interp mid _ El) as (t & Hwf & Er & Hv & _).
        exists pre, t, post. rewrite <- Er.
        repeat split; try assumption. exact (denote_object t d Hv).
      * destruct (isinstance_JSONDecodeError e); congruence.
Qed.

Lemma extract_json_result_in_text_witness :
  exists pre t post,
    lit "Here: {~a~: 1}." = pre ++ render t ++ post
    /\ ~ In LBRACE pre /\ ~ In RBRACE post
    /\ wf true t /\ is_object t = true
    /\ denote t = JObj [(lit "a", JInt 1)].
Proof.
  apply (extract_json_result_in_text sample_interpreter
           (lit "Here: {~a~: 1}.") [(lit "a", JInt 1)]).
  - vm_compute. reflexivity.
  - discriminate.
Defined.

Lemma first_occurrence_unique (c : char) (a b x y : text) :
  ~ In c a -> ~ In c b -> a ++ c :: x = b ++ c :: y -> a = b /\ x = y.
Proof.
  revert b. induction a as [|u a IH]; intros [|v b] Ha Hb E; cbn [app] in E.
  - injection E as ->. now split.
  - injection E as <- _. elim Hb. now left.
  - injection E as -> _. elim Ha. now left.
  - injection E as -> E.
    destruct (IH b) as (-> & ->); try assumption; try now split.
    + intros Hin. apply Ha. now right.
    + intros Hin. apply Hb. now right.
Qed.

(** X4. An opening brace in the prose before the payload spoils the
    extraction: when the first opening brace of the text is followed, after
    optional white space, by a character that is neither a double quote nor
    a closing brace, [extract_json] returns the empty object, whatever the
    rest of the text holds. *)
Theorem extract_json_stray_brace
        (interp : interpreter) (pre ws : Py.text) (c : char) (rest : Py.text) :
  ~ In LBRACE pre -> blank ws ->
  is_ws c = false -> c <> DQUOTE -> c <> RBRACE ->
  Convert.extract_json interp (pre ++ LBRACE :: ws ++ c :: rest)
  = Returns (JObj [])
  /\ DruidService.extract_json interp (pre ++ LBRACE :: ws ++ c :: rest)
     = Returns (JObj []).
Proof.
  intros Hpre Hws Hc Hq Hb.
  assert (E : Convert.extract_json interp (pre ++ LBRACE :: ws ++ c :: rest)
              = Returns (JObj [])); [|split; exact E].
  assert (Hf : str_find (pre ++ LBRACE :: ws ++ c :: rest) LBRACE <> -1)
    by (rewrite (str_find_app pre _ LBRACE Hpre); lia).
  destruct (span_cases _ Hf) as [E|(pre' & mid & post & Et & Hpre' & Hpost & E)].
  - exact (extract_json_empty_span interp _ E).
  - rewrite (extract_json_of_span interp _ Hf), E.
    cbn [app] in Et. rewrite <- app_assoc in Et. cbn [app] in Et.
    apply first_occurrence_unique in Et; try assumption.
    destruct Et as (_ & Et).
    assert (Hs : exists l, mid ++ [RBRACE] = ws ++ c :: l).
    { change (RBRACE :: post) with ([RBRACE] ++ post) in Et.
      rewrite app_assoc in Et.
      apply app_eq_app in Et. destruct Et as (l & [(E1 & E2)|(E1 & E2)]).
      - exfalso. rewrite E1 in Hws.
        apply blank_app_inv in Hws. destruct Hws as (Hws & _).
        apply blank_app_inv in Hws. destruct Hws as (_ & Hws). discriminate Hws.
      - destruct l as [|x l].
        + exfalso. rewrite app_nil_r in E1. rewrite <- E1 in Hws.
          apply blank_app_inv in Hws. destruct Hws as (_ & Hws). discriminate Hws.
        + injection E2 as <- _. now exists l. }
    destruct Hs as (l & ->).
    rewrite loads_no_bom by discriminate.
    rewrite (skip_ws_stop LBRACE _ eq_refl).
    unfold fuel_for. cbn [scan_once]. cbn [N.eqb Pos.eqb LBRACKET DQUOTE LBRACE].
    rewrite (skip_ws_blank ws _ Hws), (skip_ws_stop c _ Hc).
    destruct (N.eqb_spec c RBRACE) as [|_]; [contradiction|].
    destruct (N.eqb_spec c DQUOTE) as [|_]; [contradiction|].
    reflexivity.
Qed.

Lemma extract_json_stray_brace_witness :
  Convert.extract_json sample_interpreter (lit "Use {name} in {~a~: 1}")
  = Returns (JObj [])
  /\ DruidService.extract_json sample_interpreter (lit "Use {name} in {~a~: 1}")
     = Returns (JObj []).
Proof.
  apply (extract_json_stray_brace sample_interpreter
           (lit "Use ") [] 110%N (lit "ame} in {~a~: 1}")).
  - not_in.
  - reflexivity.
  - reflexivity.
  - discriminate.
  - discriminate.
Defined.

(** ** The handlers *)

(** The run of a handler on a request whose body was read. *)
Lemma handler_run (interp : interpreter) (float_repr : text -> text)
      (S : Type) (P : provider S) (st : S) (task : TaskKind)
      (request : Convert.Request) (payload : value) :
  Convert.request_json request = Returns payload ->
  accepts task payload = true ->
  run P st (handler interp float_repr task request)
  = (after_call interp (reply_of P st (prompt_of float_repr task payload))
       (fun v => Convert.JSONResponse_init interp float_repr
                   match task with
                   | DatasetNaming => if truthy v then v else default_names
                   | _ => v
                   end 200),
     Called (prompt_of float_repr task payload) 500
     :: match reply_of P st (prompt_of float_repr task payload) with
        | Returns response =>
            match task with
            | RollupSuggestion => [Printed response]
            | _ => []
            end
        | Raises _ => []
        end).
Proof.
  intros Hreq Hacc. destruct task; cbn [handler prompt_of accepts] in *.
  - rewrite (analyze_event_run interp float_repr S P st request payload Hreq),
      Hacc.
    now destruct (reply_of P st _).
  - rewrite (suggest_dataset_name_run interp float_repr S P st request payload
               Hreq).
    now destruct (reply_of P st _).
  - exact (suggest_druid_rollups_run interp float_repr S P st request payload
             Hreq).
Qed.

Lemma handler_unreadable (interp : interpreter) (float_repr : text -> text)
      (task : TaskKind) (request : Convert.Request) (e : exn) :
  Convert.request_json request = Raises e ->
  handler interp float_repr task request = Effects.raise e.
Proof.
  intros Hreq.
  destruct task; cbn [handler];
    unfold Convert.analyze_event, Convert.suggest_dataset_name,
      Convert.suggest_druid_rollups; rewrite Hreq; reflexivity.
Qed.

(** The body of a response that [after_call] returns. *)
Lemma after_call_returns (interp : interpreter) (float_repr : text -> text)
      (reply : outcome text) (body : value -> value)
      (r : Convert.JSONResponse) :
  after_call interp reply
    (fun v => Convert.JSONResponse_init interp float_repr (body v) 200)
  = Returns r ->
  Convert.status_code r = 200
  /\ renders interp float_repr (Convert.content r)
  /\ exists d, Convert.content r = body (JObj d).
Proof.
  intros H.
  assert (Hinit : forall d,
            Convert.JSONResponse_init interp float_repr (body (JObj d)) 200
            = Returns r ->
            Convert.status_code r = 200
            /\ renders interp float_repr (Convert.content r)
            /\ exists d, Convert.content r = body (JObj d)).
  { intros d Hc.
    destruct (JSONResponse_init_returns interp float_repr _ 200 r Hc)
      as [-> Hr].
    repeat split; [exact Hr|]. now exists d. }
  destruct reply as [response|e]; cbn [after_call] in H.
  - destruct (Convert.extract_json interp response) as [v|e] eqn:Hv.
    + destruct (extract_json_dict interp response v Hv) as [d ->].
      exact (Hinit _ H).
    + destruct (isinstance_Exception e); [|discriminate H].
      exact (Hinit _ H).
  - destruct (isinstance_Exception e); [|discriminate H].
    exact (Hinit _ H).
Qed.

(** X5. When reading the request body raises, each of the three handlers
    raises that same exception and does nothing else: no handler catches it,
    and no run calls the provider or prints. *)
Theorem unreadable_body_propagates
        (interp : interpreter) (float_repr : text -> text) (task : TaskKind)
        (request : Convert.Request) (e : exn) :
  Convert.request_json request = Raises e ->
  handler interp float_repr task request = Effects.raise e
  /\ forall S (P : provider S) (st : S),
       run P st (handler interp float_repr task request) = (Raises e, []).
Proof.
  intros Hreq.
  pose proof (handler_unreadable interp float_repr task request e Hreq) as E.
  split; [exact E|]. intros S P st. now rewrite E.
Qed.

Lemma unreadable_body_propagates_witness :
  run (answering (lit "{}")) tt
      (handler sample_interpreter plain_repr DatasetNaming
         {| Convert.request_json :=
              Raises (JSONDecodeError (lit "Expecting value")) |})
  = (Raises (JSONDecodeError (lit "Expecting value")), []).
Proof.
  apply (proj2 (unreadable_body_propagates sample_interpreter plain_repr
                  DatasetNaming
                  {| Convert.request_json :=
                       Raises (JSONDecodeError (lit "Expecting value")) |}
                  (JSONDecodeError (lit "Expecting value")) eq_refl)).
Defined.

(** X6. The handlers catch [Exception] and nothing wider: when the
    inference call raises an exception that is no instance of [Exception]
    (a [KeyboardInterrupt], say), each of the three handlers raises it, and
    the rollup handler prints nothing. *)
Theorem base_exception_escapes
        (interp : interpreter) (float_repr : text -> text)
        (S : Type) (P : provider S) (st : S)
        (task : TaskKind) (request : Convert.Request) (payload : value)
        (e : exn) :
  Convert.request_json request = Returns payload ->
  accepts task payload = true ->
  reply_of P st (prompt_of float_repr task payload) = Raises e ->
  isinstance_Exception e = false ->
  run P st (handler interp float_repr task request)
  = (Raises e, [Called (prompt_of float_repr task payload) 500]).
Proof.
  intros Hreq Hacc Hreply He.
  rewrite (handler_run interp float_repr S P st task request payload Hreq Hacc).
  rewrite Hreply. cbn [after_call]. rewrite He. reflexivity.
Qed.

Lemma base_exception_escapes_witness :
  run (failing (NonException (lit "KeyboardInterrupt"))) tt
      (handler sample_interpreter plain_repr RollupSuggestion sample_request)
  = (Raises (NonException (lit "KeyboardInterrupt")),
     [Called (prompt_of plain_repr RollupSuggestion sample_payload) 500]).
Proof.
  apply (base_exception_escapes sample_interpreter plain_repr unit
           (failing (NonException (lit "KeyboardInterrupt"))) tt
           RollupSuggestion sample_request sample_payload
           (NonException (lit "KeyboardInterrupt"))
           eq_refl eq_refl eq_refl eq_refl).
Defined.

(** X7. Every response a handler returns has a [dict] as its body and the
    status 200 or 400; the status is 400 only on /api/analyze-event/, with
    the body [{"error": "Invalid JSON input"}]. *)
Theorem response_body_is_dict
        (interp : interpreter) (float_repr : text -> text)
        (S : Type) (P : provider S) (st : S)
        (task : TaskKind) (request : Convert.Request)
        (r : Convert.JSONResponse) :
  response_of P st (handler interp float_repr task request) = Returns r ->
  is_dict (Convert.content r) = true
  /\ (Convert.status_code r = 200
      \/ Convert.status_code r = 400
         /\ task = FieldIdentification
         /\ Convert.content r
            = JObj [(lit "error", JStr (lit "Invalid JSON input"))]).
Proof.
  unfold response_of.
  destruct (Convert.request_json request) as [payload|e] eqn:Hreq.
  - destruct (accepts task payload) eqn:Hacc.
    + rewrite (handler_run interp float_repr S P st task request payload
                 Hreq Hacc).
      cbn [fst]. intros H.
      destruct (after_call_returns interp float_repr _ _ r H)
        as (Hst & _ & d & Hd).
      split; [|now left]. rewrite Hd.
      destruct task; try reflexivity. now destruct d.
    + destruct task; try discriminate. cbn [handler accepts] in *.
      rewrite (analyze_event_run interp float_repr S P st request payload Hreq),
        Hacc.
      intros [= <-]. cbn. split; [reflexivity|]. right. now repeat split.
  - rewrite (handler_unreadable interp float_repr task request e Hreq).
    discriminate.
Qed.

Lemma response_body_is_dict_witness :
  is_dict (JObj [(lit "a", JInt 1)]) = true
  /\ (200 = 200
      \/ 200 = 400
         /\ FieldIdentification = FieldIdentification
         /\ JObj [(lit "a", JInt 1)]
            = JObj [(lit "error", JStr (lit "Invalid JSON input"))]).
Proof.
  apply (response_body_is_dict sample_interpreter plain_repr unit
           (answering (lit "Fields: {~a~: 1}")) tt
           FieldIdentification sample_request
           {| Convert.content := JObj [(lit "a", JInt 1)];
              Convert.status_code := 200 |}).
  vm_compute. reflexivity.
Defined.







(** ** [json.dumps] in the prompts and in replies *)



(** A value can be read back from its [json.dumps] text, whatever delimited
    text follows. *)
Lemma dumps_prefix_inj (float_repr : text -> text) (indent : option nat)
      (v1 v2 : value) (r1 r2 : text) :
  serializable float_repr v1 -> serializable float_repr v2 ->
  delimited r1 -> delimited r2 ->
  dumps float_repr indent v1 ++ r1 = dumps float_repr indent v2 ++ r2 ->
  v1 = v2.
Proof.
  intros H1 H2 Hr1 Hr2 E.
  destruct (dumps_tree float_repr indent v1 0%nat H1) as (t1 & Hw1 & E1 & D1 & _).
  destruct (dumps_tree float_repr indent v2 0%nat H2) as (t2 & Hw2 & E2 & D2 & _).
  unfold dumps in E. rewrite <- E1, <- E2 in E.
  apply (proj1 (wf_weaken false)) in Hw1, Hw2.
  destruct (scan_complete 0) as (Hscan & _).
  pose proof (Hscan t1 (Nat.max (need t1) (need t2))
                (Nat.max (depth t1) (depth t2)) r1 Hw1 Hr1
                (Nat.le_max_l _ _) (Nat.le_max_l _ _)
                (proj1 ints_allowed_no_limit t1)) as S1.
  pose proof (Hscan t2 (Nat.max (need t1) (need t2))
                (Nat.max (depth t1) (depth t2)) r2 Hw2 Hr2
                (Nat.le_max_r _ _) (Nat.le_max_r _ _)
                (proj1 ints_allowed_no_limit t2)) as S2.
  rewrite E in S1. rewrite S1 in S2. injection S2 as S2 _.
  now rewrite <- D1, <- D2.
Qed.

Lemma delimited_app (a b : text) : a <> [] -> delimited a -> delimited (a ++ b).
Proof. destruct a; [congruence|]. intros _ H. exact H. Qed.

(** X12. The prompt of a task tells the payload: two serializable payloads
    that differ give prompts that differ, on each of the three tasks. *)
Theorem prompts_differ_with_payload
        (float_repr : text -> text) (task : TaskKind) (v1 v2 : value) :
  serializable float_repr v1 -> serializable float_repr v2 ->
  v1 <> v2 ->
  prompt_of float_repr task v1 <> prompt_of float_repr task v2.
Proof.
  intros H1 H2 Hne E. apply Hne. clear Hne.
  destruct task; cbn [prompt_of] in E;
    unfold Convert.identify_fields_prompt, Convert.dataset_name_prompt,
      DruidService.rollup_prompt in E;
    repeat (apply app_inv_head in E);
    (eapply (dumps_prefix_inj float_repr (Some 2%nat) v1 v2);
     [exact H1|exact H2| | |exact E]);
    try (apply delimited_app; [discriminate|]);
    vm_compute; repeat split.
Qed.

Lemma prompts_differ_with_payload_witness :
  prompt_of plain_repr RollupSuggestion (JObj [(lit "a", JInt 1)])
  <> prompt_of plain_repr RollupSuggestion (JObj [(lit "a", JInt 2)]).
Proof.
  apply (prompts_differ_with_payload plain_repr RollupSuggestion
           (JObj [(lit "a", JInt 1)]) (JObj [(lit "a", JInt 2)])).
  - cbn. repeat split; try reflexivity.
    repeat constructor; cbn; intuition discriminate.
  - cbn. repeat split; try reflexivity.
    repeat constructor; cbn; intuition discriminate.
  - discriminate.
Defined.

(** ** A reply that repeats the prompt *)









(** ** The two ways to the provider *)

